(** * Public-Sentiment-Analysis: the comment pipeline, embedded and verified

    Shallow embedding of [scripts/cleaning.py], [scripts/classifier.py],
    [scripts/process_comments.py], [scripts/scraper.py] and the batch loop of
    [main.py].  Python strings are sequences of Unicode code points; the
    remote service behind [request.execute()] is an oracle that is asked once
    per call; exceptions are results; everything a call does to the outside
    (pacing sleeps, backoff sleeps, requests, exported files) is logged in a
    trace. *)

From Stdlib Require Import List NArith ZArith QArith Bool String Ascii Lia Arith.
Import ListNotations.

Open Scope N_scope.

(* ===================================================================== *)
(** * Part I: definitions                                                 *)
(* ===================================================================== *)

(** ** Python [str]: code points *)

Module Text.

Definition text := list N.

(** An ASCII literal of the source, as code points. *)
Definition lit (s : string) : text :=
  map N_of_ascii (list_ascii_of_string s).

Definition in_ranges (rs : list (N * N)) (c : N) : bool :=
  existsb (fun r => (fst r <=? c) && (c <=? snd r)) rs.

(** [str.isspace], which is also [\s] of [re] on [str] patterns and the
    set [str.strip()] removes. *)
Definition space_ranges : list (N * N) :=
  [ (0x09, 0x0D); (0x1C, 0x20); (0x85, 0x85); (0xA0, 0xA0);
    (0x1680, 0x1680); (0x2000, 0x200A); (0x2028, 0x2029);
    (0x202F, 0x202F); (0x205F, 0x205F); (0x3000, 0x3000) ].

Definition is_space (c : N) : bool := in_ranges space_ranges c.

(** [str.lstrip()], [str.rstrip()], [str.strip()]. *)
Fixpoint lstrip (s : text) : text :=
  match s with
  | [] => []
  | c :: r => if is_space c then lstrip r else s
  end.

Fixpoint rstrip (s : text) : text :=
  match s with
  | [] => []
  | c :: r =>
      match rstrip r with
      | [] => if is_space c then [] else [c]
      | r' => c :: r'
      end
  end.

Definition strip (s : text) : text := rstrip (lstrip s).

(** Python truthiness of a [str]. *)
Definition truthy (s : text) : bool :=
  match s with [] => false | _ => true end.

(** Length of the longest prefix whose characters satisfy [p]: what a
    greedy [p+] or [p*] consumes. *)
Fixpoint span (p : N -> bool) (s : text) : nat :=
  match s with
  | c :: r => if p c then S (span p r) else O
  | [] => O
  end.

(** Case folding of [re.IGNORECASE] for the ASCII patterns of this
    program: besides A-Z, four non-ASCII characters fold onto an ASCII
    letter (U+0130 and U+0131 onto i, U+017F onto s, U+212A onto k). *)
Definition fold_case (c : N) : N :=
  if (65 <=? c) && (c <=? 90) then c + 32
  else if (c =? 0x130) || (c =? 0x131) then 105
  else if c =? 0x17F then 115
  else if c =? 0x212A then 107
  else c.

Definition ci_eq (p c : N) : bool := fold_case p =? fold_case c.

(** Match the literal [pat] at the start of [s], with character
    comparison [eq]; the rest of [s] after the match. *)
Fixpoint prefix_with (eq : N -> N -> bool) (pat s : text) : option text :=
  match pat with
  | [] => Some s
  | p :: pat' =>
      match s with
      | c :: r => if eq p c then prefix_with eq pat' r else None
      | [] => None
      end
  end.

Definition prefix_ci := prefix_with ci_eq.
Definition startswith (s pat : text) : bool :=
  match prefix_with N.eqb pat s with Some _ => true | None => false end.

(** [pat in s] for a literal [pat]: a match at some position. *)
Fixpoint contains (pat s : text) : bool :=
  startswith s pat ||
  match s with
  | [] => false
  | _ :: r => contains pat r
  end.

(** [re.sub(pattern, repl, s)] for a pattern that never matches the empty
    string.  [matcher s] is the length of the match of the pattern at the
    start of [s], if there is one; [skip] counts the characters of the
    current match that are still to be dropped. *)
Fixpoint re_sub_from (matcher : text -> option nat) (repl : text)
                     (skip : nat) (s : text) : text :=
  match s with
  | [] => []
  | c :: r =>
      match skip with
      | S k => re_sub_from matcher repl k r
      | O =>
          match matcher s with
          | Some (S k) => repl ++ re_sub_from matcher repl k r
          | _ => c :: re_sub_from matcher repl O r
          end
      end
  end.

Definition re_sub (matcher : text -> option nat) (repl s : text) : text :=
  re_sub_from matcher repl O s.

(** [re.search(pattern, s)]: the leftmost position with a match, as the
    text from that position on. *)
Fixpoint re_search {A} (matcher : text -> option A) (s : text) : option A :=
  match matcher s with
  | Some m => Some m
  | None =>
      match s with
      | [] => None
      | _ :: r => re_search matcher r
      end
  end.

(** A greedy [p+] at the start of [s]. *)
Definition plus (p : N -> bool) (s : text) : option nat :=
  match span p s with
  | O => None
  | n => Some n
  end.

End Text.
Import Text.

(** ** [scripts/cleaning.py] *)

Module Cleaning.

(** [_URL_RE = (https?://\S+|www\.\S+)], [re.IGNORECASE]. *)
Definition url_tail (consumed : nat) (s : text) : option nat :=
  match prefix_with N.eqb (lit "://") s with
  | Some r =>
      match plus (fun c => negb (is_space c)) r with
      | Some n => Some (consumed + 3 + n)%nat
      | None => None
      end
  | None => None
  end.

Definition url_http (s : text) : option nat :=
  match prefix_ci (lit "http") s with
  | Some r =>
      let with_s :=
        match r with
        | c :: r' => if ci_eq 115 c then url_tail 5 r' else None
        | [] => None
        end in
      match with_s with
      | Some n => Some n
      | None => url_tail 4 r
      end
  | None => None
  end.

Definition url_www (s : text) : option nat :=
  match prefix_ci (lit "www") s with
  | Some r =>
      match prefix_with N.eqb (lit ".") r with
      | Some r' =>
          match plus (fun c => negb (is_space c)) r' with
          | Some n => Some (4 + n)%nat
          | None => None
          end
      | None => None
      end
  | None => None
  end.

Definition _URL_RE (s : text) : option nat :=
  match url_http s with
  | Some n => Some n
  | None => url_www s
  end.

(** [_EMOJI_RE]: one or more characters of the listed ranges. *)
Definition emoji_ranges : list (N * N) :=
  [ (0x1F1E0, 0x1F1FF); (0x1F300, 0x1F5FF); (0x1F600, 0x1F64F);
    (0x1F680, 0x1F6FF); (0x1F700, 0x1F77F); (0x1F780, 0x1F7FF);
    (0x1F800, 0x1F8FF); (0x1F900, 0x1F9FF); (0x1FA00, 0x1FA6F);
    (0x1FA70, 0x1FAFF); (0x2702, 0x27B0); (0x24C2, 0x1F251) ].

Definition _EMOJI_RE (s : text) : option nat :=
  plus (in_ranges emoji_ranges) s.

(** The characters that [re.sub] with the negated class of digits, a-z,
    U+0900..U+097F and whitespace keeps. *)
Definition solid_ranges : list (N * N) :=
  [ (48, 57); (97, 122); (0x900, 0x97F) ].

Definition solid (c : N) : bool := in_ranges solid_ranges c.

Definition other_char (s : text) : option nat :=
  match s with
  | c :: _ => if solid c || is_space c then None else Some 1%nat
  | [] => None
  end.

(** [\s+]. *)
Definition spaces (s : text) : option nat := plus is_space s.

Section WithLower.
(** [str.lower()], from the Unicode database of the interpreter. *)
Variable lower : text -> text.

Definition clean_text (text : option text) : Text.text :=
  match text with
  | None => []
  | Some value =>
      let value := re_sub _URL_RE (lit " ") value in
      let value := re_sub _EMOJI_RE (lit " ") value in
      let value := lower value in
      let value := re_sub other_char (lit " ") value in
      let value := strip (re_sub spaces (lit " ") value) in
      value
  end.
End WithLower.

(** [str.lower()] on ASCII text. *)
Definition ascii_lower (s : text) : text :=
  map (fun c => if (65 <=? c) && (c <=? 90) then c + 32 else c) s.

End Cleaning.

(** ** [scripts/classifier.py] and [scripts/process_comments.py] *)

(** The values of the [Nature_Aligned] column, as [analysis/analysis.py]
    reads them: 1 is "Nature-Aligned", 0 is "Not Nature-Aligned", anything
    else (the classifiers give -1) is "Unknown". *)
Module Label.
Definition ALIGNED : Z := 1.
Definition NOT_ALIGNED : Z := 0.
Definition UNKNOWN : Z := (-1).
End Label.

Module Classifier.

Definition _NATURE_ALIGNED : list string :=
  [ "lightness"; "clarity"; "natural energy"; "deep sleep"; "satvic";
    "prana"; "shuddhi"; "tapas"; "ahimsa"; "mother earth";
    "seasonal eating"; "living food"; "returning to my roots";
    "new person" ]%string.

Definition _NOT_NATURE_ALIGNED : list string :=
  [ "weight loss"; "sugar levels"; "kilograms"; "science says otherwise";
    "protein deficiency"; "too expensive"; "office lunch";
    "society pressure"; "cant live without tea";
    "can t live without tea"; "too bland" ]%string.

Section WithLower.
Variable lower : text -> text.

(** The text, or the empty string for [None], in lower case. *)
Definition lowered (text : option text) : Text.text :=
  lower (match text with Some t => t | None => [] end).

Definition has_aligned (text : option text) : bool :=
  existsb (fun k => contains (lit k) (lowered text)) _NATURE_ALIGNED.

Definition has_not (text : option text) : bool :=
  existsb (fun k => contains (lit k) (lowered text)) _NOT_NATURE_ALIGNED.

Definition classify_nature_alignment (text : option text) : Z :=
  if has_aligned text && negb (has_not text) then 1%Z
  else if has_not text && negb (has_aligned text) then 0%Z
  else (-1)%Z.
End WithLower.

End Classifier.

Module ProcessComments.

(** A pattern of the keyword lists: a plain literal, or a literal between
    two [\b] (only [\bhalka\b]). *)
Inductive keyword :=
| Plain (s : string)
| Word (s : string).

Definition POSITIVE_KEYWORDS : list keyword :=
  [ Word "halka"; Plain "lightness"; Plain "clarity";
    Plain "natural energy"; Plain "deep sleep"; Plain "satvic";
    Plain "prana"; Plain "shuddhi"; Plain "tapas"; Plain "ahimsa";
    Plain "mother earth"; Plain "seasonal eating"; Plain "living food";
    Plain "returning to my roots"; Plain "i feel like a new person" ]%string.

Definition NEGATIVE_KEYWORDS : list keyword :=
  [ Plain "weight loss"; Plain "sugar"; Plain "kilograms";
    Plain "protein deficiency"; Plain "too expensive";
    Plain "family won't allow"; Plain "office lunch";
    Plain "society pressure"; Plain "i can't live without tea";
    Plain "too bland"; Plain "tasteless"; Plain "milk";
    Plain "medicine" ]%string.

Section WithUnicode.
Variable lower : text -> text.
(** [str.isalnum] of one character; [\w] is that or an underscore. *)
Variable isalnum : N -> bool.

Definition is_word (c : N) : bool := isalnum c || (c =? 95).

(** [re.search(r"\bpat\b", s)] for a literal [pat] that starts and ends
    with a word character: an occurrence with no word character just
    before and none just after.  [prev] tells whether the character
    before [s] is a word character. *)
Fixpoint search_word (pat : text) (prev : bool) (s : text) : bool :=
  (negb prev &&
   match prefix_with N.eqb pat s with
   | Some (c :: _) => negb (is_word c)
   | Some [] => true
   | None => false
   end)
  || match s with
     | [] => false
     | c :: r => search_word pat (is_word c) r
     end.

Definition search (k : keyword) (t : text) : bool :=
  match k with
  | Plain s => contains (lit s) t
  | Word s => search_word (lit s) false t
  end.

Definition pos (t : text) : bool :=
  existsb (fun p => search p t) POSITIVE_KEYWORDS.

Definition neg (t : text) : bool :=
  existsb (fun p => search p t) NEGATIVE_KEYWORDS.

(** [text] is [None] when the argument is not a [str]. *)
Definition keyword_label (text : option text) : Z :=
  match text with
  | None => (-1)%Z
  | Some text =>
      if negb (truthy (strip text)) then (-1)%Z
      else
        let t := lower text in
        if pos t && negb (neg t) then 1%Z
        else if neg t && negb (pos t) then 0%Z
        else if pos t && neg t then 1%Z
        else (-1)%Z
  end.
End WithUnicode.

(** A letter or digit of ASCII, for running [keyword_label] on ASCII
    text. *)
Definition ascii_isalnum (c : N) : bool :=
  in_ranges [(48, 57); (65, 90); (97, 122)] c.

End ProcessComments.

(** ** The outside world: the remote service, exceptions, the trace *)

Module World.

(** The requests the scraper builds with [self._youtube...list(...)]. *)
Inductive request :=
| ChannelsListById (id : text)
| ChannelsListForHandle (forHandle : text)
| SearchList (q : text)
| PlaylistItemsList (playlistId : text) (maxResults : Z)
                    (pageToken : option text)
| VideosList (id : text)
| CommentThreadsList (videoId : text) (maxResults : Z)
                     (pageToken : option text).

(** [item["snippet"]["topLevelComment"]["snippet"]]; a missing key is
    [None]. *)
Record comment_snippet := {
  textDisplay : option text;
  publishedAt : option text;
  likeCount : option Z;
  authorDisplayName : option text
}.

(** One element of [response["items"]], with the keys this program
    reads: [id], [contentDetails.videoId],
    [contentDetails.relatedPlaylists.uploads], [snippet.channelId],
    [snippet.title] and the top-level comment. *)
Record item := {
  item_id : option text;
  videoId : option text;
  uploads : option text;
  channelId : option text;
  title : option text;
  topLevelComment : comment_snippet
}.

Record response := {
  items : list item;
  nextPageToken : option text
}.

(** What one [request.execute()] does: it returns the response, raises
    [HttpError] with a status, or raises something else. *)
Inductive outcome :=
| Success (r : response)
| HttpFailure (status : Z)
| OtherFailure (msg : string).

Inductive exn :=
| HttpError (status_code : Z)
| OtherError (msg : string)
| ValueError (msg : string)
| KeyError (msg : string)
| SystemExit (name : text) (cause : exn).

(** A row of the exported table: [Video_Title], the cleaned
    [Comment_Text], [Comment_Date], [Like_Count] and [Nature_Aligned].
    The language and sentiment columns come from [langdetect] and
    [vaderSentiment] and are left out. *)
Record row := {
  Video_Title : text;
  Comment_Text : text;
  Comment_Date : text;
  Like_Count : Z;
  Nature_Aligned : Z
}.

Inductive event :=
| Pace (seconds : Q)
| Backoff (seconds : Z)
| Execute (r : request)
| Export (channel_name : text) (rows : list row)
| WriteChannels (channels : list (text * text)).

(** [calls] numbers the [execute()] calls made so far; the answer of the
    service may depend on it (a request that fails twice and then
    succeeds). *)
Record world := {
  calls : nat;
  trace : list event
}.

Definition log (e : event) (w : world) : world :=
  {| calls := calls w; trace := trace w ++ [e] |}.

Inductive result (A : Type) :=
| Ok (a : A)
| Raise (e : exn)
| Diverged.
Arguments Ok {A} a.
Arguments Raise {A} e.
Arguments Diverged {A}.

(** Computations: a world in, a result and a world out. *)
Definition M (A : Type) : Type := world -> result A * world.

Definition ret {A} (a : A) : M A := fun w => (Ok a, w).
Definition raise {A} (e : exn) : M A := fun w => (Raise e, w).
Definition diverge {A} : M A := fun w => (Diverged, w).

Definition bind {A B} (c : M A) (k : A -> M B) : M B :=
  fun w =>
    match c w with
    | (Ok a, w') => k a w'
    | (Raise e, w') => (Raise e, w')
    | (Diverged, w') => (Diverged, w')
    end.

(** [try: c  except HttpError as exc: handler(status of exc)] *)
Definition try_http {A} (c : M A) (handler : Z -> M A) : M A :=
  fun w =>
    match c w with
    | (Raise (HttpError status), w') => handler status w'
    | other => other
    end.

(** [try: c  except Exception as exc: handler(exc)]; [SystemExit] is not
    an [Exception]. *)
Definition try_exception {A} (c : M A) (handler : exn -> M A) : M A :=
  fun w =>
    match c w with
    | (Raise (SystemExit n e), w') => (Raise (SystemExit n e), w')
    | (Raise e, w') => handler e w'
    | other => other
    end.

Definition emit (e : event) : M unit := fun w => (Ok tt, log e w).

Inductive flow (A : Type) :=
| Return (a : A)
| Continue (a : A).
Arguments Return {A} a.
Arguments Continue {A} a.

(** The part of a trace one kind of event makes. *)
Definition backoffs (t : list event) : list Z :=
  flat_map (fun e => match e with Backoff s => [s] | _ => [] end) t.

Definition requests (t : list event) : list request :=
  flat_map (fun e => match e with Execute r => [r] | _ => [] end) t.

Definition exports (t : list event) : list text :=
  flat_map (fun e => match e with Export n _ => [n] | _ => [] end) t.

End World.
Import World.

Declare Scope world_scope.
Delimit Scope world_scope with world.
Notation "x <- c ;; k" := (bind c (fun x => k))
  (at level 61, c at next level, right associativity) : world_scope.
Notation "c ;; k" := (bind c (fun _ => k))
  (at level 61, right associativity) : world_scope.

(** ** [scripts/scraper.py] *)

Module Scraper.

Record CommentRecord := {
  video_title : text;
  comment_text : text;
  comment_date : text;
  like_count : Z;
  username_hash : text
}.

(** [self]: the service object built in [__init__] and the pacing delay. *)
Record YouTubeCommentScraper := {
  _youtube : nat -> request -> outcome;
  _sleep_seconds : Q
}.

(** [__init__]; [service] is what [build("youtube", "v3", ...)] gives. *)
Definition init (service : nat -> request -> outcome) (api_key : text)
                (sleep_seconds : Q) : result YouTubeCommentScraper :=
  if negb (truthy api_key) then Raise (ValueError "Missing YouTube API key")
  else Ok {| _youtube := service; _sleep_seconds := sleep_seconds |}.

Local Open Scope world_scope.

Section Methods.
Variable self : YouTubeCommentScraper.

(** [if self._sleep_seconds > 0: time.sleep(self._sleep_seconds)] *)
Definition pace : M unit :=
  if Qle_bool (_sleep_seconds self) 0 then ret tt
  else emit (Pace (_sleep_seconds self)).

(** [request.execute()] *)
Definition execute (request : request) : M response :=
  fun w =>
    let w' := {| calls := S (calls w);
                 trace := trace w ++ [Execute request] |} in
    match _youtube self (calls w) request with
    | Success r => (Ok r, w')
    | HttpFailure status => (Raise (HttpError status), w')
    | OtherFailure msg => (Raise (OtherError msg), w')
    end.

(** [status in {429, 500, 503}] *)
Definition transient (status : Z) : bool :=
  ((status =? 429) || (status =? 500) || (status =? 503))%Z.

(** The [while True] of [_execute_with_retry], entered with the current
    value of [attempt]. *)
Fixpoint retry_loop (request : request) (max_retries : Z) (fuel : nat)
                    (attempt : Z) : M response :=
  match fuel with
  | O => diverge
  | S fuel =>
      try_http (pace ;; execute request)
        (fun status =>
           let attempt := (attempt + 1)%Z in
           if (attempt >? max_retries)%Z then raise (HttpError status)
           else if transient status then
             emit (Backoff (Z.min (2 ^ attempt) 30)) ;;
             retry_loop request max_retries fuel attempt
           else raise (HttpError status))
  end.

(** Every iteration but the last adds one to [attempt], which stays at
    most [max_retries]: [max_retries + 1] iterations are all the loop
    can make. *)
Definition _execute_with_retry_max (request : request) (max_retries : Z)
  : M response :=
  retry_loop request max_retries (S (Z.to_nat max_retries)) 0%Z.

(** [max_retries: int = 5]; no caller passes another value. *)
Definition _execute_with_retry (request : request) : M response :=
  _execute_with_retry_max request 5%Z.

Definition _get_uploads_playlist_id (channel_id : text) : M text :=
  response <- _execute_with_retry (ChannelsListById channel_id) ;;
  match items response with
  | [] => raise (ValueError "Channel not found")
  | first :: _ =>
      match uploads first with
      | Some u =>
          if truthy u then ret u
          else raise (ValueError "Uploads playlist not available for channel")
      | None => raise (ValueError "Uploads playlist not available for channel")
      end
  end.

(** [if not page_token] *)
Definition token_present (page_token : option text) : bool :=
  match page_token with
  | Some t => truthy t
  | None => false
  end.

(** [max_videos is not None and len(video_ids) >= max_videos] *)
Definition cap_reached (max_videos : option Z) (video_ids : list text)
  : bool :=
  match max_videos with
  | Some m => (Z.of_nat (List.length video_ids) >=? m)%Z
  | None => false
  end.

(** The [for item in response.get("items", [])] of
    [fetch_video_ids_from_channel]: [Return] is its [return video_ids]. *)
Fixpoint collect_video_ids (max_videos : option Z) (its : list item)
                           (video_ids : list text) : flow (list text) :=
  match its with
  | [] => Continue video_ids
  | it :: rest =>
      match videoId it with
      | Some vid =>
          if truthy vid then
            let video_ids := video_ids ++ [vid] in
            if cap_reached max_videos video_ids then Return video_ids
            else collect_video_ids max_videos rest video_ids
          else collect_video_ids max_videos rest video_ids
      | None => collect_video_ids max_videos rest video_ids
      end
  end.

Fixpoint playlist_loop (uploads_playlist_id : text)
                       (max_videos : option Z) (fuel : nat)
                       (video_ids : list text)
                       (page_token : option text) : M (list text) :=
  match fuel with
  | O => diverge
  | S fuel =>
      response <- _execute_with_retry
                    (PlaylistItemsList uploads_playlist_id 50 page_token) ;;
      match collect_video_ids max_videos (items response) video_ids with
      | Return video_ids => ret video_ids
      | Continue video_ids =>
          let page_token := nextPageToken response in
          if token_present page_token then
            playlist_loop uploads_playlist_id max_videos fuel
                          video_ids page_token
          else ret video_ids
      end
  end.

Definition fetch_video_ids_from_channel (fuel : nat) (channel_id : text)
                                        (max_videos : option Z)
  : M (list text) :=
  uploads_playlist_id <- _get_uploads_playlist_id channel_id ;;
  playlist_loop uploads_playlist_id max_videos fuel [] None.

Definition _get_video_title (video_id : text) : M text :=
  response <- _execute_with_retry (VideosList video_id) ;;
  match items response with
  | [] => ret []
  | first :: _ =>
      ret (match title first with Some t => t | None => [] end)
  end.

Section Records.
(** [hashlib.sha256(author.encode("utf-8")).hexdigest()] *)
Variable sha256_hexdigest : text -> text.

Definition or_empty (v : option text) : text :=
  match v with Some t => t | None => [] end.

Definition to_record (video_title : text) (it : item) : CommentRecord :=
  let snippet := topLevelComment it in
  {| video_title := video_title;
     comment_text := or_empty (textDisplay snippet);
     comment_date := or_empty (publishedAt snippet);
     like_count := match likeCount snippet with
                   | Some n => n
                   | None => 0%Z
                   end;
     username_hash :=
       sha256_hexdigest (or_empty (authorDisplayName snippet)) |}.

(** The [for item in items] of [_fetch_top_level_comments]; [Return]
    is its [return] once [fetched >= limit]. *)
Fixpoint yield_items (video_title : text) (limit : Z) (its : list item)
                     (fetched : Z) (yielded : list CommentRecord)
  : flow (Z * list CommentRecord) :=
  match its with
  | [] => Continue (fetched, yielded)
  | it :: rest =>
      let yielded := yielded ++ [to_record video_title it] in
      let fetched := (fetched + 1)%Z in
      if (fetched >=? limit)%Z then Return (fetched, yielded)
      else yield_items video_title limit rest fetched yielded
  end.

(** The [while fetched < limit] of [_fetch_top_level_comments], as
    [list(...)] runs it: [yielded] is what the generator has given
    so far, and a [return] ends the list. *)
Fixpoint comments_loop (video_id video_title : text) (limit : Z)
                       (fuel : nat) (page_token : option text)
                       (fetched : Z) (yielded : list CommentRecord)
  : M (list CommentRecord) :=
  if (fetched <? limit)%Z then
    match fuel with
    | O => diverge
    | S fuel =>
        let batch_size := Z.min 100 (limit - fetched) in
        response <-
          try_http
            (r <- _execute_with_retry
                    (CommentThreadsList video_id batch_size page_token) ;;
             ret (Some r))
            (fun status =>
               if ((status =? 403) || (status =? 404))%Z then ret None
               else raise (HttpError status)) ;;
        match response with
        | None => ret yielded
        | Some response =>
            match yield_items video_title limit (items response)
                              fetched yielded with
            | Return (_, yielded) => ret yielded
            | Continue (fetched, yielded) =>
                let page_token := nextPageToken response in
                if token_present page_token then
                  comments_loop video_id video_title limit fuel
                                page_token fetched yielded
                else ret yielded
            end
        end
    end
  else ret yielded.

Definition _fetch_top_level_comments (fuel : nat)
                                     (video_id video_title : text)
                                     (limit : Z)
  : M (list CommentRecord) :=
  comments_loop video_id video_title limit fuel None 0%Z [].

Fixpoint videos_loop (fuel : nat) (per_video_limit : Z)
                     (video_ids : list text)
                     (all_records : list CommentRecord)
  : M (list CommentRecord) :=
  match video_ids with
  | [] => ret all_records
  | video_id :: rest =>
      title <- _get_video_title video_id ;;
      records <- _fetch_top_level_comments fuel video_id title
                                           per_video_limit ;;
      videos_loop fuel per_video_limit rest (all_records ++ records)
  end.

Definition fetch_comments_for_videos (fuel : nat)
                                     (video_ids : list text)
                                     (per_video_limit : Z)
  : M (list CommentRecord) :=
  if ((per_video_limit <? 100) || (per_video_limit >? 500))%Z then
    raise (ValueError "per_video_limit must be between 100 and 500")
  else videos_loop fuel per_video_limit video_ids [].
End Records.

(** [(?i)(?:youtube\.com/channel/)(UC[0-9A-Za-z_-]{20,})]: the group. *)
Definition id_char (c : N) : bool :=
  in_ranges [(48, 57); (97, 122); (95, 95); (45, 45)] (fold_case c).

Definition channel_url (s : text) : option text :=
  match prefix_ci (lit "youtube.com/channel/") s with
  | Some r =>
      match prefix_ci (lit "UC") r with
      | Some r' =>
          let n := span id_char r' in
          if (20 <=? n)%nat then Some (firstn (2 + n) r) else None
      | None => None
      end
  | None => None
  end.

Definition _try_extract_channel_id (raw : text) : option text :=
  match re_search channel_url raw with
  | Some g => Some g
  | None =>
      if startswith raw (lit "UC") && (20 <=? List.length raw)%nat
      then Some raw
      else None
  end.

(** [(?i)(?:youtube\.com/)(@[^/?#]+)]: the group. *)
Definition handle_char (c : N) : bool :=
  negb ((c =? 47) || (c =? 63) || (c =? 35)).

Definition handle_url (s : text) : option text :=
  match prefix_ci (lit "youtube.com/") s with
  | Some r =>
      match prefix_ci (lit "@") r with
      | Some r' =>
          let n := span handle_char r' in
          if (1 <=? n)%nat then Some (firstn (1 + n) r) else None
      | None => None
      end
  | None => None
  end.

Definition _try_extract_handle (raw : text) : option text :=
  match re_search handle_url raw with
  | Some g => Some g
  | None =>
      if startswith raw (lit "@") && (1 <? List.length raw)%nat
      then Some raw
      else None
  end.

(** [s.strip() or None] *)
Definition strip_or_none (s : text) : option text :=
  if truthy (strip s) then Some (strip s) else None.

(** [handle.lstrip("@")] *)
Fixpoint lstrip_at (s : text) : text :=
  match s with
  | c :: r => if c =? 64 then lstrip_at r else s
  | [] => []
  end.

Definition _resolve_channel_id_from_handle (handle : text)
  : M (option text) :=
  let h := strip (lstrip_at handle) in
  if negb (truthy h) then ret None
  else
    response <- _execute_with_retry (ChannelsListForHandle h) ;;
    match items response with
    | [] => ret None
    | first :: _ => ret (strip_or_none (or_empty (item_id first)))
    end.

Definition _resolve_channel_id_from_search (query : text)
  : M (option text) :=
  response <- _execute_with_retry (SearchList query) ;;
  match items response with
  | [] => ret None
  | first :: _ =>
      match channelId first with
      | Some channel_id =>
          if truthy channel_id then ret (strip_or_none channel_id)
          else ret None
      | None => ret None
      end
  end.

(** [if channel_id:] on an optional string. *)
Definition some_truthy (v : option text) : bool :=
  match v with Some t => truthy t | None => false end.

Definition resolve_channel_id (value : option text) : M text :=
  let raw := strip (or_empty value) in
  if negb (truthy raw) then raise (ValueError "Missing channel identifier")
  else
    let channel_id := _try_extract_channel_id raw in
    if some_truthy channel_id then ret (or_empty channel_id)
    else
      let handle := _try_extract_handle raw in
      channel_id <-
        (if some_truthy handle
         then _resolve_channel_id_from_handle (or_empty handle)
         else ret None) ;;
      if some_truthy channel_id then ret (or_empty channel_id)
      else
        channel_id <- _resolve_channel_id_from_search raw ;;
        if some_truthy channel_id then ret (or_empty channel_id)
        else raise (ValueError "Unable to resolve channel_id").
End Methods.

End Scraper.

(** ** [main.py]: one channel, and the [--all] batch *)

Module Main.
Import Scraper.
Local Open Scope world_scope.

(** An entry of [channels.json] as [_load_channels] returns it. *)
Record channel := {
  name : text;
  channel_id : text
}.

(** [s.split(",")] *)
Fixpoint split_on (sep : N) (s : text) : list text :=
  match s with
  | [] => [[]]
  | c :: r =>
      if c =? sep then [] :: split_on sep r
      else
        match split_on sep r with
        | h :: t => (c :: h) :: t
        | [] => [[c]]
        end
  end.

Section WithLibraries.
Variable lower : text -> text.
Variable sha256_hexdigest : text -> text.
Variable self : YouTubeCommentScraper.

(** The table [_run_for_channel] builds from the records. *)
Definition to_row (r : CommentRecord) : row :=
  let cleaned := Cleaning.clean_text lower (Some (comment_text r)) in
  {| Video_Title := video_title r;
     Comment_Text := cleaned;
     Comment_Date := comment_date r;
     Like_Count := like_count r;
     Nature_Aligned :=
       Classifier.classify_nature_alignment lower (Some cleaned) |}.

(** [video_ids_arg] is [None] on the [--all] path, where [str(None)] is
    the text [None].  A table made from no record has no column, and
    [df["Comment_Text"]] raises [KeyError].  Writing the CSV file and the
    plots of [run_analysis] is the one event [Export]. *)
Definition _run_for_channel (fuel : nat) (channel_name : text)
                            (channel_id : option text)
                            (video_ids_arg : option text)
                            (per_video : Z) (max_videos : option Z)
  : M unit :=
  video_ids <-
    (if some_truthy channel_id then
       fetch_video_ids_from_channel self fuel (or_empty channel_id)
                                    max_videos
     else
       let arg := match video_ids_arg with
                  | Some a => a
                  | None => lit "None"
                  end in
       ret (filter truthy (map strip (split_on 44 arg)))) ;;
  match video_ids with
  | [] => raise (ValueError "No video IDs found")
  | _ =>
      records <- fetch_comments_for_videos self sha256_hexdigest fuel
                                           video_ids per_video ;;
      match records with
      | [] => raise (KeyError "Comment_Text")
      | _ => emit (Export channel_name (map to_row records))
      end
  end.

(** The body of [for ch in channels]: the channel as it is after the
    iteration, and whether [updated] was set. *)
Definition process_channel (fuel : nat) (per_video : Z)
                           (max_videos : option Z) (ch : channel)
  : M (channel * bool) :=
  let name := strip (name ch) in
  let channel_id := strip (channel_id ch) in
  resolved <-
    (if negb (truthy channel_id) then
       channel_id <-
         try_exception (resolve_channel_id self (Some name))
                       (fun exc => raise (SystemExit name exc)) ;;
       ret (channel_id,
            {| Main.name := Main.name ch; Main.channel_id := channel_id |},
            true)
     else ret (channel_id, ch, false)) ;;
  let '(channel_id, ch, updated) := resolved in
  _run_for_channel fuel name (Some channel_id) None per_video
                   max_videos ;;
  ret (ch, updated).

Fixpoint batch_loop (fuel : nat) (per_video : Z) (max_videos : option Z)
                    (channels : list channel) (updated : bool)
  : M (list channel * bool) :=
  match channels with
  | [] => ret ([], updated)
  | ch :: rest =>
      done <- process_channel fuel per_video max_videos ch ;;
      tail <- batch_loop fuel per_video max_videos rest
                         (updated || snd done) ;;
      ret (fst done :: fst tail, snd tail)
  end.

(** The [if args.all:] branch of [main], from the loaded channels on. *)
Definition main_all (fuel : nat) (per_video : Z) (max_videos : option Z)
                    (channels : list channel) : M unit :=
  done <- batch_loop fuel per_video max_videos channels false ;;
  if snd done then
    emit (WriteChannels
            (map (fun c => (name c, channel_id c)) (fst done)))
  else ret tt.
End WithLibraries.

End Main.

(** ** A well-behaved collaborator *)

Module Collaborator.

(** The service hands out the token [tok offset] for the page that starts
    at [offset]; the first page is asked for without a token. *)
Definition page_token (tok : nat -> text) (offset : nat) : option text :=
  match offset with
  | O => None
  | _ => Some (tok offset)
  end.

Definition blank_snippet : comment_snippet :=
  {| textDisplay := None; publishedAt := None; likeCount := None;
     authorDisplayName := None |}.

Definition blank_item : item :=
  {| item_id := None; videoId := None; uploads := None; channelId := None;
     title := None; topLevelComment := blank_snippet |}.

Definition video_item (v : text) : item :=
  {| item_id := None; videoId := Some v; uploads := None;
     channelId := None; title := None; topLevelComment := blank_snippet |}.

Definition comment_item (c : comment_snippet) : item :=
  {| item_id := None; videoId := None; uploads := None; channelId := None;
     title := None; topLevelComment := c |}.

(** The page of [size] elements of [l] that starts at [offset]; it
    carries a continuation token when elements remain after it. *)
Definition page {A} (mk : A -> item) (l : list A) (tok : nat -> text)
                (size : Z) (offset : nat) : response :=
  let n := Z.to_nat size in
  {| items := map mk (firstn n (skipn offset l));
     nextPageToken :=
       if (offset + n <? List.length l)%nat then Some (tok (offset + n)%nat)
       else None |}.

(** [service] lists the uploads collection [playlist], whose videos are
    [ids], by pages. *)
Definition serves_uploads (service : nat -> request -> outcome)
                          (playlist : text) (ids : list text)
                          (tok : nat -> text) : Prop :=
  forall n size offset,
    service n (PlaylistItemsList playlist size (page_token tok offset))
    = Success (page video_item ids tok size offset).

(** [service] lists the top-level comments [cs] of [video] by pages. *)
Definition serves_comments (service : nat -> request -> outcome)
                           (video : text) (cs : list comment_snippet)
                           (tok : nat -> text) : Prop :=
  forall n size offset,
    service n (CommentThreadsList video size (page_token tok offset))
    = Success (page comment_item cs tok size offset).

(** A simulated service: one channel, its uploads [ids], and the same
    comments [cs] under every video.  The token of a page is the letter
    t followed by the offset. *)
Definition sim_tok (offset : nat) : text := [116; N.of_nat offset].

Definition sim_offset (t : option text) : nat :=
  match t with
  | Some [_; n] => N.to_nat n
  | _ => O
  end.

Definition simulated (ids : list text) (cs : list comment_snippet)
  : nat -> request -> outcome :=
  fun _ r =>
    match r with
    | ChannelsListById _ =>
        Success {| items := [ {| item_id := None; videoId := None;
                                 uploads := Some (lit "UU");
                                 channelId := None; title := None;
                                 topLevelComment := blank_snippet |} ];
                   nextPageToken := None |}
    | PlaylistItemsList _ size t =>
        Success (page video_item ids sim_tok size (sim_offset t))
    | CommentThreadsList _ size t =>
        Success (page comment_item cs sim_tok size (sim_offset t))
    | VideosList _ =>
        Success {| items := [ {| item_id := None; videoId := None;
                                 uploads := None; channelId := None;
                                 title := Some (lit "a video");
                                 topLevelComment := blank_snippet |} ];
                   nextPageToken := None |}
    | _ => Success {| items := []; nextPageToken := None |}
    end.

(** [simulated], except that the channels whose identifier starts with the
    character [gone] do not exist. *)
Definition simulated_without (gone : N) (ids : list text)
                             (cs : list comment_snippet)
  : nat -> request -> outcome :=
  fun n r =>
    match r with
    | ChannelsListById (c :: _) =>
        if c =? gone then Success {| items := []; nextPageToken := None |}
        else simulated ids cs n r
    | _ => simulated ids cs n r
    end.

(** A scripted service: the [n]-th call is answered by the [n]-th entry
    of the script, whatever the request, and by an empty response after
    the script. *)
Definition scripted (script : list outcome) : nat -> request -> outcome :=
  fun n _ =>
    nth n script (Success {| items := []; nextPageToken := None |}).

(** Every identifier is a non-empty string. *)
Definition all_truthy (l : list text) : Prop :=
  Forall (fun v => truthy v = true) l.

(** The request for the page of the uploads that starts at [offset]. *)
Definition uploads_request (playlist : text) (tok : nat -> text)
                           (offset : nat) : request :=
  PlaylistItemsList playlist 50 (page_token tok offset).

(** The request for the page of comments that starts at [offset], when
    [offset] comments have been fetched. *)
Definition comments_request (video_id : text) (tok : nat -> text)
                            (limit : Z) (offset : nat) : request :=
  CommentThreadsList video_id (Z.min 100 (limit - Z.of_nat offset))
                     (page_token tok offset).

(** The response to that request. *)
Definition comments_response (cs : list comment_snippet) (tok : nat -> text)
                             (limit : Z) (offset : nat) : response :=
  page comment_item cs tok (Z.min 100 (limit - Z.of_nat offset)) offset.

(** The world before any call. *)
Definition fresh : world := {| calls := O; trace := [] |}.

End Collaborator.

(** ** A batch of two channels *)

Module Fixtures.
Import Scraper Main.

Definition gone : channel :=
  {| name := lit "Gone"; channel_id := lit "XCgone" |}.
Definition fine : channel :=
  {| name := lit "Fine"; channel_id := lit "UCfine" |}.

(** A service with one video and one comment, where the channel [gone] does
    not exist. *)
Definition service : YouTubeCommentScraper :=
  {| _youtube :=
       Collaborator.simulated_without 88 [lit "v1"]
         [ {| textDisplay := Some (lit "Such clarity!");
              publishedAt := Some (lit "2024-01-01T00:00:00Z");
              likeCount := Some 3%Z;
              authorDisplayName := Some (lit "someone") |} ];
     _sleep_seconds := 0%Q |}.

(** A stand-in for the digest. *)
Definition digest (author : text) : text := lit "0f" ++ author.

End Fixtures.


(** ** The shape of cleaned text *)

Module CleanForm.
Import Cleaning.

(** A lowercase ASCII letter or digit, a Devanagari character, or the
    space U+0020. *)
Definition allowed (c : N) : bool := solid c || (c =? 32).

(** No two spaces in a row. *)
Fixpoint single_spaces (s : text) : bool :=
  match s with
  | c :: (d :: _) as r => negb ((c =? 32) && (d =? 32)) && single_spaces r
  | _ => true
  end.

Definition leading_space (s : text) : bool :=
  match s with
  | c :: _ => is_space c
  | [] => false
  end.

Fixpoint trailing_space (s : text) : bool :=
  match s with
  | [] => false
  | [c] => is_space c
  | _ :: r => trailing_space r
  end.

(** Two families of ranges that share no character. *)
Definition ranges_disjoint (rs1 rs2 : list (N * N)) : bool :=
  forallb (fun r1 =>
    forallb (fun r2 => (snd r1 <? fst r2) || (snd r2 <? fst r1)) rs2) rs1.

Definition all_allowed (s : text) : Prop :=
  Forall (fun c => allowed c = true) s.

(** Cleaned text: allowed characters only, single spaces, none at either
    end. *)
Definition tidy (s : text) : Prop :=
  all_allowed s /\ single_spaces s = true /\
  leading_space s = false /\ trailing_space s = false.

(** What the character filter keeps. *)
Definition kept (c : N) : Prop := solid c = true \/ is_space c = true.

Definition starts_32 (s : text) : bool :=
  match s with
  | c :: _ => c =? 32
  | [] => false
  end.

End CleanForm.

(** ** What one call leaves in the world *)

Module Run.
Import Scraper.
Local Open Scope Z_scope.

Section OneAttempt.
Variable self : YouTubeCommentScraper.

(** The world after the pacing sleep. *)
Definition paced (w : world) : world :=
  if Qle_bool (_sleep_seconds self) 0 then w
  else log (Pace (_sleep_seconds self)) w.

(** The world after one paced [execute()] of [r]. *)
Definition executed (r : request) (w : world) : world :=
  {| calls := S (calls w); trace := trace (paced w) ++ [Execute r] |}.

Definition raised (o : outcome) : result response :=
  match o with
  | Success resp => Ok resp
  | HttpFailure status => Raise (HttpError status)
  | OtherFailure msg => Raise (OtherError msg)
  end.

(** [min(2 ** attempt, 30)] *)
Definition backoff_delay (attempt : Z) : Z := Z.min (2 ^ attempt) 30.

Definition backed_off (attempt : Z) (w : world) : world :=
  log (Backoff (backoff_delay attempt)) w.
End OneAttempt.

(** A result that is no exception of this program's own: a value, an
    error of the remote service, or an unfinished run. *)
Definition remote_only {A} (res : result A) : Prop :=
  match res with
  | Raise (ValueError _) | Raise (KeyError _) | Raise (SystemExit _ _) => False
  | _ => True
  end.

End Run.

(** ** What every call leaves in the trace *)

Module Pacing.
Import Scraper.

(** [self._sleep_seconds > 0] *)
Definition pacing_on (self : YouTubeCommentScraper) : bool :=
  negb (Qle_bool (_sleep_seconds self) 0).

(** A trace in which every request comes right after the pacing sleep of
    [_sleep_seconds] when that is positive, and no pacing sleep is made
    otherwise or without a request after it. *)
Fixpoint well_paced (self : YouTubeCommentScraper) (t : list event) : bool :=
  match t with
  | [] => true
  | Pace s :: Execute _ :: rest =>
      pacing_on self && Qeq_bool s (_sleep_seconds self)
      && well_paced self rest
  | Pace _ :: _ => false
  | Execute _ :: rest => negb (pacing_on self) && well_paced self rest
  | _ :: rest => well_paced self rest
  end.

(** From [w] to [w']: the trace has only grown, by well-paced events, and
    [calls] has advanced by the number of requests among them. *)
Definition steps (self : YouTubeCommentScraper) (w w' : world) : Prop :=
  exists added,
    trace w' = trace w ++ added /\
    well_paced self added = true /\
    calls w' = (calls w + List.length (requests added))%nat.

(** A computation that only makes such steps. *)
Definition keeps (self : YouTubeCommentScraper) {A} (c : M A) : Prop :=
  forall w, steps self w (snd (c w)).

End Pacing.

(** ** Caps *)

Module Bounds.
Local Open Scope Z_scope.

(** With a cap [m] of at least 1, the list has fewer than [m] entries
    ([strict]) or at most [m]. *)
Definition within_cap (max_videos : option Z) (strict : bool)
                      (l : list text) : Prop :=
  forall m, max_videos = Some m -> 1 <= m ->
    if strict then Z.of_nat (List.length l) < m
    else Z.of_nat (List.length l) <= m.

End Bounds.

(** ** What the resolver asks for *)

Module Resolution.
Import Scraper.

(** A response without items. *)
Definition nothing : response := {| items := []; nextPageToken := None |}.

(** The lookups of [resolve_channel_id] on the stripped input [raw] when no
    canonical identifier is extracted and nothing is found: the handle,
    when one is extracted and something is left of it once its leading
    at-signs are removed and the rest is stripped, looked up under what is
    left; then the free-text search of the whole input. *)
Definition lookups (raw : text) : list request :=
  match _try_extract_handle raw with
  | Some handle =>
      let h := strip (lstrip_at handle) in
      if truthy handle && truthy h then [ChannelsListForHandle h] else []
  | None => []
  end ++ [SearchList raw].

End Resolution.

(** ** What a call may add to the trace *)

Module Discipline.
Import Scraper.
Local Open Scope Z_scope.

(** From [w] to [w']: the trace has grown by events that all satisfy [P]. *)
Definition adds (P : event -> Prop) (w w' : world) : Prop :=
  exists added, trace w' = trace w ++ added /\ Forall P added.

Definition only (P : event -> Prop) {A} (c : M A) : Prop :=
  forall w, adds P w (snd (c w)).

(** [P] admits the sleeps of [_execute_with_retry]: the pacing sleep of
    [_sleep_seconds] and backoffs from 2 to 30. *)
Definition polite (self : YouTubeCommentScraper) (P : event -> Prop) : Prop :=
  P (Pace (_sleep_seconds self)) /\
  forall d, 2 <= d <= 30 -> P (Backoff d).

(** The events of [fetch_comments_for_videos] on [video_ids]. *)
Definition comment_event (self : YouTubeCommentScraper)
                         (video_ids : list text) (e : event) : Prop :=
  match e with
  | Pace s => s = _sleep_seconds self
  | Backoff d => 2 <= d <= 30
  | Execute (VideosList v) => In v video_ids
  | Execute (CommentThreadsList v size _) =>
      In v video_ids /\ 1 <= size <= 100
  | _ => False
  end.

(** The events of [fetch_video_ids_from_channel] on [channel_id]. *)
Definition uploads_event (self : YouTubeCommentScraper) (channel_id : text)
                         (e : event) : Prop :=
  match e with
  | Pace s => s = _sleep_seconds self
  | Backoff d => 2 <= d <= 30
  | Execute (ChannelsListById c) => c = channel_id
  | Execute (PlaylistItemsList _ size _) => size = 50
  | _ => False
  end.

(** The events of the scraper: sleeps and requests, no file. *)
Definition scraper_event (e : event) : Prop :=
  match e with
  | Export _ _ | WriteChannels _ => False
  | _ => True
  end.

End Discipline.

(** ** [main.py]: names, channel files, arguments *)

Module MainUtils.
Import Scraper Main.

(** [v.replace("__", "_")] *)
Definition double_underscore (s : text) : option nat :=
  if startswith s (lit "__") then Some 2%nat else None.

Definition replace_double (v : text) : text :=
  re_sub double_underscore (lit "_") v.

(** [while "__" in v: v = v.replace("__", "_")]; a turn shortens [v], so
    [len(v)] turns are all the loop can make. *)
Fixpoint collapse (fuel : nat) (v : text) : text :=
  match fuel with
  | O => v
  | S fuel =>
      if contains (lit "__") v then collapse fuel (replace_double v) else v
  end.

(** [s.lstrip(ch)], [s.rstrip(ch)] and [s.strip(ch)] for one character. *)
Fixpoint lstrip_char (ch : N) (s : text) : text :=
  match s with
  | c :: r => if c =? ch then lstrip_char ch r else s
  | [] => []
  end.

Fixpoint rstrip_char (ch : N) (s : text) : text :=
  match s with
  | [] => []
  | c :: r =>
      match rstrip_char ch r with
      | [] => if c =? ch then [] else [c]
      | r' => c :: r'
      end
  end.

Definition strip_char (ch : N) (s : text) : text :=
  rstrip_char ch (lstrip_char ch s).

(** No two [ch] in a row. *)
Fixpoint no_double (ch : N) (s : text) : bool :=
  match s with
  | c :: (d :: _) as r => negb ((c =? ch) && (d =? ch)) && no_double ch r
  | _ => true
  end.

Section Slug.
Variable lower : text -> text.
Variable isalnum : N -> bool.

Definition _slugify (value : option text) : text :=
  let v := lower (strip (or_empty value)) in
  let v := map (fun ch => if isalnum ch then ch else 95) v in
  let v := collapse (List.length v) v in
  let v := strip_char 95 v in
  if truthy v then v else lit "channel".
End Slug.

(** A value of the parsed [channels.json]: a string, or anything else with
    what [str] makes of it. *)
Inductive jvalue :=
| JStr (s : text)
| JOther (shown : text).

Definition str (v : option jvalue) : text :=
  match v with
  | Some (JStr s) => s
  | Some (JOther shown) => shown
  | None => []
  end.

(** An element of the list: a dict with its [name] and [channel_id]
    entries, when present, or something that is not a dict. *)
Inductive jitem :=
| JDict (name channel_id : option jvalue)
| JNotDict.

(** The [channels] entry of the file. *)
Inductive jchannels :=
| JList (l : list jitem)
| JNotList.

(** The body of the loop of [_load_channels]: what one element adds to
    [normalized]. *)
Definition normalize (it : jitem) : list channel :=
  match it with
  | JNotDict => []
  | JDict n c =>
      let name := strip (str n) in
      let channel_id := strip (str c) in
      if truthy name
      then [ {| Main.name := name; Main.channel_id := channel_id |} ]
      else []
  end.

(** [_load_channels] from the parsed file on; the entry is [None] when the
    key is missing. *)
Definition _load_channels (channels : option jchannels)
  : result (list channel) :=
  match channels with
  | Some JNotList =>
      Raise (ValueError "channels.json must contain a 'channels' list")
  | _ =>
      let l := match channels with Some (JList l) => l | _ => [] end in
      let normalized := flat_map normalize l in
      match normalized with
      | [] => Raise (ValueError "No channels found in channels.json")
      | _ => Ok normalized
      end
  end.

(** The [channels] entry that [_write_channels] writes. *)
Definition written (channels : list channel) : jchannels :=
  JList (map (fun c => JDict (Some (JStr (name c)))
                             (Some (JStr (channel_id c)))) channels).

(** [_get_api_key], with [os.getenv] after [load_dotenv()]. *)
Fixpoint first_set (getenv : string -> option text) (keys : list string)
  : option text :=
  match keys with
  | [] => None
  | k :: rest =>
      match getenv k with
      | Some v => if truthy v then Some v else first_set getenv rest
      | None => first_set getenv rest
      end
  end.

Definition _get_api_key (getenv : string -> option text) : result text :=
  match first_set getenv
          ["YOUTUBE_API_KEY"; "YOUTUBE_APIKEY"; "YT_API_KEY"]%string with
  | Some v => Ok v
  | None =>
      Raise (OtherError
               "YouTube API key not found in .env. Set YOUTUBE_API_KEY.")
  end.

(** The video identifiers [_run_for_channel] takes from [--video-ids]:
    [[v.strip() for v in arg.split(",") if v.strip()]]. *)
Definition video_ids_of (arg : text) : list text :=
  filter truthy (map strip (split_on 44 arg)).

(** [",".join(ids)] *)
Fixpoint join (sep : N) (ids : list text) : text :=
  match ids with
  | [] => []
  | [v] => v
  | v :: rest => v ++ sep :: join sep rest
  end.

(** An identifier as [video_ids_of] gives it: not empty, no comma, no
    whitespace at either end. *)
Definition plain_id (v : text) : Prop :=
  truthy v = true /\ Forall (fun c => c <> 44) v /\
  CleanForm.leading_space v = false /\ CleanForm.trailing_space v = false.

(** A channel as [_load_channels] gives it: a name that is not empty, name
    and identifier without whitespace at either end. *)
Definition loadable (c : channel) : Prop :=
  truthy (name c) = true /\ strip (name c) = name c /\
  strip (channel_id c) = channel_id c.

End MainUtils.

(** ** What the batch leaves in the channels file *)

Module Persistence.
Import Scraper Main.

(** [channel_id] is not blank: the batch does not resolve it. *)
Definition has_id (c : channel) : bool := truthy (strip (channel_id c)).

(** The entry of a channel in the channels file. *)
Definition entry (c : channel) : text * text := (name c, channel_id c).

(** The channel lists written to the channels file. *)
Definition writes (t : list event) : list (list (text * text)) :=
  flat_map (fun e => match e with WriteChannels l => [l] | _ => [] end) t.

(** Any event but the writing of the channels file. *)
Definition not_written (e : event) : Prop :=
  match e with
  | WriteChannels _ => False
  | _ => True
  end.

(** Neither a lookup of a channel identifier, by handle or by search, nor
    the writing of the channels file. *)
Definition lookup_free (e : event) : Prop :=
  match e with
  | Execute (ChannelsListForHandle _) | Execute (SearchList _)
  | WriteChannels _ => False
  | _ => True
  end.

(** What the batch makes of the channel [c]: [d] has the same name; it is
    [c] when [c] has an identifier, and has a resolved identifier, not
    empty and stripped, otherwise. *)
Definition completes (c d : channel) : Prop :=
  name d = name c /\
  (has_id c = true -> d = c) /\
  (has_id c = false ->
   truthy (channel_id d) = true /\
   CleanForm.leading_space (channel_id d) = false /\
   CleanForm.trailing_space (channel_id d) = false).

End Persistence.

(** ** [analysis/analysis.py]: the alignment shares *)

Module Analysis.
Local Open Scope Z_scope.

(** A cell of the [Nature_Aligned] column: an integer, or [None] for a
    missing value, which equals no integer. *)
Definition cell := option Z.

Definition cell_is (v : Z) (c : cell) : bool :=
  match c with
  | Some x => x =? v
  | None => false
  end.

(** [int((df["Nature_Aligned"] == v).sum())] *)
Definition count_label (v : Z) (column : list cell) : Z :=
  Z.of_nat (List.length (filter (cell_is v) column)).

(** The counts [_plot_nature_alignment_percentage] turns into shares:
    [total], [aligned], [not_aligned] and [unknown]. *)
Definition alignment_counts (column : list cell) : Z * Z * Z * Z :=
  let total := Z.max (Z.of_nat (List.length column)) 1 in
  let aligned := count_label 1 column in
  let not_aligned := count_label 0 column in
  let unknown := total - aligned - not_aligned in
  (total, aligned, not_aligned, unknown).

(** The cells that count as neither aligned nor not aligned. *)
Definition other_cell (c : cell) : bool :=
  negb (cell_is 1 c) && negb (cell_is 0 c).

End Analysis.

(* ===================================================================== *)
(** * Part II: properties                                                 *)
(* ===================================================================== *)

(** ** Text *)

Module TextFacts.
Import Cleaning CleanForm.

Lemma in_ranges_spec rs c :
  in_ranges rs c = true <->
  exists r, In r rs /\ fst r <= c /\ c <= snd r.
Proof.
  unfold in_ranges. rewrite existsb_exists.
  split; intros [r [Hin H]]; exists r; split; auto.
  - apply andb_true_iff in H. destruct H as [H1 H2].
    apply N.leb_le in H1. apply N.leb_le in H2. lia.
  - apply andb_true_iff. split; apply N.leb_le; lia.
Qed.

Lemma ranges_disjoint_sound rs1 rs2 c :
  ranges_disjoint rs1 rs2 = true ->
  in_ranges rs1 c = true -> in_ranges rs2 c = false.
Proof.
  intros Hd H1.
  destruct (in_ranges rs2 c) eqn:H2; [exfalso | reflexivity].
  apply in_ranges_spec in H1. apply in_ranges_spec in H2.
  destruct H1 as [r1 [Hin1 [Ha Hb]]]. destruct H2 as [r2 [Hin2 [Hc He]]].
  unfold ranges_disjoint in Hd. rewrite forallb_forall in Hd.
  specialize (Hd r1 Hin1). rewrite forallb_forall in Hd.
  specialize (Hd r2 Hin2). apply orb_true_iff in Hd.
  destruct Hd as [Hd | Hd]; apply N.ltb_lt in Hd; lia.
Qed.

Lemma allowed_ranges c :
  allowed c = in_ranges (solid_ranges ++ [(32, 32)]) c.
Proof.
  unfold allowed, solid, in_ranges. rewrite existsb_app. simpl.
  f_equal. rewrite orb_false_r.
  destruct (N.eqb_spec c 32) as [-> | Hne]; [reflexivity |].
  symmetry. apply andb_false_iff.
  destruct (N.leb_spec 32 c); [right; apply N.leb_gt; lia | left; reflexivity].
Qed.

Lemma allowed_not_in rs c :
  ranges_disjoint (solid_ranges ++ [(32, 32)]) rs = true ->
  allowed c = true -> in_ranges rs c = false.
Proof.
  intros Hd Ha. rewrite allowed_ranges in Ha.
  eapply ranges_disjoint_sound; eauto.
Qed.

Lemma allowed_neq c k :
  allowed k = false -> allowed c = true -> (k =? c) = false.
Proof.
  intros Hk Hc. destruct (N.eqb_spec k c); [subst; congruence | reflexivity].
Qed.

Lemma solid_not_space c : solid c = true -> is_space c = false.
Proof.
  intro H. apply (ranges_disjoint_sound solid_ranges); [reflexivity | exact H].
Qed.

Lemma solid_not_32 c : solid c = true -> (c =? 32) = false.
Proof.
  intro H. destruct (N.eqb_spec c 32) as [-> | ]; [discriminate | reflexivity].
Qed.

Lemma allowed_is_space c : allowed c = true -> is_space c = (c =? 32).
Proof.
  unfold allowed. intro H. apply orb_true_iff in H. destruct H as [H | H].
  - rewrite (solid_not_space _ H), (solid_not_32 _ H). reflexivity.
  - rewrite H. apply N.eqb_eq in H. subst. reflexivity.
Qed.

(** What [prefix_with] leaves is a suffix of the text. *)
Lemma prefix_with_suffix eq pat : forall s r,
  prefix_with eq pat s = Some r ->
  exists p, s = p ++ r /\ List.length p = List.length pat.
Proof.
  induction pat as [| a pat IH]; intros s r H; simpl in H.
  - inversion H. exists []. auto.
  - destruct s as [| c s']; [discriminate |].
    destruct (eq a c); [| discriminate].
    apply IH in H. destruct H as [p [-> Hl]].
    exists (c :: p). simpl. auto.
Qed.

Lemma prefix_with_Forall (P : N -> Prop) eq pat s r :
  prefix_with eq pat s = Some r -> Forall P s -> Forall P r.
Proof.
  intros H HF. apply prefix_with_suffix in H. destruct H as [p [-> _]].
  apply Forall_app in HF. tauto.
Qed.

(** A pattern that matches nowhere leaves the text as it is. *)
Lemma re_sub_no_match (P : text -> Prop) matcher repl :
  (forall c r, P (c :: r) -> P r) ->
  (forall s, P s -> matcher s = None) ->
  forall s, P s -> re_sub matcher repl s = s.
Proof.
  intros Htl Hnone. unfold re_sub.
  induction s as [| c r IH]; intro HP; simpl; [reflexivity |].
  rewrite (Hnone _ HP). f_equal. apply IH. eapply Htl; eauto.
Qed.

Lemma Forall_tail (P : N -> Prop) c r : Forall P (c :: r) -> Forall P r.
Proof. intro H. inversion H. assumption. Qed.

(** [strip] *)
Lemma lstrip_Forall (P : N -> Prop) s : Forall P s -> Forall P (lstrip s).
Proof.
  induction 1 as [| c r Hc Hr IH]; simpl; [constructor |].
  destruct (is_space c); auto.
Qed.

Lemma lstrip_leading s : leading_space (lstrip s) = false.
Proof.
  induction s as [| c r IH]; simpl; [reflexivity |].
  destruct (is_space c) eqn:E; [exact IH | simpl; exact E].
Qed.

Lemma single_spaces_tail c r :
  single_spaces (c :: r) = true -> single_spaces r = true.
Proof.
  destruct r as [| d r']; [reflexivity |].
  intro H. change (negb ((c =? 32) && (d =? 32)) && single_spaces (d :: r') = true) in H.
  apply andb_true_iff in H. tauto.
Qed.

Lemma lstrip_single_spaces s :
  single_spaces s = true -> single_spaces (lstrip s) = true.
Proof.
  induction s as [| c r IH]; intro H; simpl; [reflexivity |].
  destruct (is_space c); [apply IH; eapply single_spaces_tail; eauto | exact H].
Qed.

Lemma lstrip_id s : leading_space s = false -> lstrip s = s.
Proof.
  destruct s as [| c r]; simpl; [reflexivity |]. intros ->. reflexivity.
Qed.

Lemma rstrip_head r d t : rstrip r = d :: t -> exists t', r = d :: t'.
Proof.
  destruct r as [| c r']; simpl; [discriminate |].
  destruct (rstrip r'); [destruct (is_space c) |]; intro H; inversion H; eauto.
Qed.

Lemma rstrip_Forall (P : N -> Prop) s : Forall P s -> Forall P (rstrip s).
Proof.
  induction 1 as [| c r Hc Hr IH]; simpl; [constructor |].
  destruct (rstrip r); [destruct (is_space c) |]; auto.
Qed.

Lemma rstrip_single_spaces s :
  single_spaces s = true -> single_spaces (rstrip s) = true.
Proof.
  induction s as [| c r IH]; intro H; simpl; [reflexivity |].
  pose proof (single_spaces_tail _ _ H) as Hr. specialize (IH Hr).
  destruct (rstrip r) as [| d t] eqn:E; [destruct (is_space c); reflexivity |].
  destruct (rstrip_head _ _ _ E) as [t' ->].
  change (negb ((c =? 32) && (d =? 32)) && single_spaces (d :: t') = true) in H.
  change (negb ((c =? 32) && (d =? 32)) && single_spaces (d :: t) = true).
  apply andb_true_iff in H. apply andb_true_iff. tauto.
Qed.

Lemma rstrip_leading s :
  leading_space s = false -> leading_space (rstrip s) = false.
Proof.
  destruct s as [| c r]; simpl; [reflexivity |]. intro H.
  destruct (rstrip r); [rewrite H |]; simpl; auto.
Qed.

Lemma rstrip_trailing s : trailing_space (rstrip s) = false.
Proof.
  induction s as [| c r IH]; simpl; [reflexivity |].
  destruct (rstrip r) as [| d t] eqn:E.
  - destruct (is_space c) eqn:Ec; simpl; auto.
  - exact IH.
Qed.

Lemma rstrip_id s : trailing_space s = false -> rstrip s = s.
Proof.
  induction s as [| c r IH]; simpl; [reflexivity |].
  destruct r as [| d r'].
  - simpl. intros ->. reflexivity.
  - intro H. rewrite (IH H). reflexivity.
Qed.

End TextFacts.

(** ** [clean_text] *)

Module CleaningFacts.
Import Cleaning CleanForm TextFacts.



(** *** Patterns that cannot match in allowed text *)

Lemma url_tail_allowed k s : all_allowed s -> url_tail k s = None.
Proof.
  intro H. unfold url_tail.
  destruct s as [| c r]; [reflexivity |]. inversion H; subst.
  change (lit "://") with [58; 47; 47]. cbn [prefix_with].
  rewrite (allowed_neq c 58); auto.
Qed.

Lemma _URL_RE_allowed s : all_allowed s -> _URL_RE s = None.
Proof.
  intro H. unfold _URL_RE.
  assert (url_http s = None) as ->.
  { unfold url_http. destruct (prefix_ci (lit "http") s) as [r |] eqn:E; [| reflexivity].
    pose proof (prefix_with_Forall _ _ _ _ _ E H) as Hr.
    rewrite (url_tail_allowed 4 r Hr).
    destruct r as [| c r']; [reflexivity |].
    destruct (ci_eq 115 c); [| reflexivity].
    rewrite url_tail_allowed; [reflexivity | eapply Forall_tail; eauto]. }
  unfold url_www. destruct (prefix_ci (lit "www") s) as [r |] eqn:E; [| reflexivity].
  pose proof (prefix_with_Forall _ _ _ _ _ E H) as Hr.
  destruct r as [| c r']; [reflexivity |]. inversion Hr; subst.
  change (lit ".") with [46]. cbn [prefix_with].
  rewrite (allowed_neq c 46); auto.
Qed.

Lemma _EMOJI_RE_allowed s : all_allowed s -> _EMOJI_RE s = None.
Proof.
  intro H. unfold _EMOJI_RE, plus.
  destruct s as [| c r]; [reflexivity |]. inversion H; subst. cbn [span].
  rewrite (allowed_not_in emoji_ranges c); auto.
Qed.

Lemma other_char_allowed s : all_allowed s -> other_char s = None.
Proof.
  intro H. destruct s as [| c r]; [reflexivity |]. inversion H; subst.
  unfold other_char. rewrite (allowed_is_space c) by assumption.
  match goal with Ha : allowed c = true |- _ => unfold allowed in Ha; rewrite Ha end.
  reflexivity.
Qed.

(** *** Allowed text with single spaces is a fixed point of the last two
    steps *)

Lemma spaces_cons c r :
  spaces (c :: r) =
  if is_space c then Some (S (span is_space r)) else None.
Proof.
  unfold spaces, plus. cbn [span]. destruct (is_space c); reflexivity.
Qed.

Lemma spaces_tidy s :
  all_allowed s -> single_spaces s = true ->
  re_sub spaces (lit " ") s = s.
Proof.
  unfold re_sub.
  induction s as [| c r IH]; intros Ha Hs; [reflexivity |].
  inversion Ha as [| ? ? Hc Hr]; subst.
  pose proof (single_spaces_tail _ _ Hs) as Hs'.
  specialize (IH Hr Hs').
  cbn [re_sub_from]. rewrite spaces_cons, (allowed_is_space c Hc).
  destruct (N.eqb_spec c 32) as [-> | Hne].
  - assert (span is_space r = O) as ->.
    { destruct r as [| d r']; [reflexivity |]. cbn [span].
      inversion Hr; subst.
      rewrite (allowed_is_space d) by assumption.
      change (negb ((32 =? 32) && (d =? 32)) && single_spaces (d :: r') = true) in Hs.
      apply andb_true_iff in Hs. destruct Hs as [Hs _].
      rewrite N.eqb_refl in Hs. simpl in Hs.
      destruct (d =? 32); [discriminate | reflexivity]. }
    rewrite IH. reflexivity.
  - rewrite IH. reflexivity.
Qed.

Lemma strip_tidy s : tidy s -> strip s = s.
Proof.
  intros (_ & _ & Hl & Ht). unfold strip.
  rewrite (lstrip_id _ Hl). apply rstrip_id. exact Ht.
Qed.

(** *** The shape of what the last three steps produce *)


Lemma other_char_kept s : Forall kept (re_sub other_char (lit " ") s).
Proof.
  unfold re_sub. induction s as [| c r IH]; [constructor |].
  cbn [re_sub_from]. unfold other_char at 1.
  destruct (solid c || is_space c) eqn:E.
  - constructor; [| exact IH]. apply orb_true_iff in E. exact E.
  - change (lit " ") with [32]. cbn [app].
    constructor; [right; reflexivity | exact IH].
Qed.


Lemma single_spaces_cons c s :
  single_spaces s = true -> (c =? 32) && starts_32 s = false ->
  single_spaces (c :: s) = true.
Proof.
  destruct s as [| d s']; [reflexivity |]. intros Hs Hc.
  change (negb ((c =? 32) && (d =? 32)) && single_spaces (d :: s') = true).
  simpl in Hc. rewrite Hc, Hs. reflexivity.
Qed.

(** Collapsing whitespace runs: while a run is being dropped, [skip] is
    what is left of it. *)
Lemma spaces_shape s : forall skip,
  Forall kept s ->
  skip = O \/ skip = span is_space s ->
  let out := re_sub_from spaces (lit " ") skip s in
  all_allowed out /\ single_spaces out = true /\
  (skip = span is_space s -> starts_32 out = false).
Proof.
  induction s as [| c r IH]; intros skip Hk Hskip.
  - simpl. repeat split; auto. constructor.
  - inversion Hk as [| ? ? Hc Hr]; subst.
    destruct skip as [| k].
    + cbn [re_sub_from]. rewrite spaces_cons. cbn [span].
      destruct (is_space c) eqn:Ec.
      * destruct (IH (span is_space r) Hr (or_intror eq_refl)) as (Ha & Hs & Hst).
        specialize (Hst eq_refl). change (lit " ") with [32] in *. cbn [app].
        repeat split.
        -- constructor; [reflexivity | exact Ha].
        -- apply single_spaces_cons; [exact Hs |]. rewrite Hst. apply andb_false_r.
        -- discriminate.
      * destruct (IH O Hr (or_introl eq_refl)) as (Ha & Hs & _).
        destruct Hc as [Hc | Hc]; [| congruence].
        repeat split.
        -- constructor; [unfold allowed; rewrite Hc; reflexivity | exact Ha].
        -- apply single_spaces_cons; [exact Hs |].
           rewrite (solid_not_32 _ Hc). reflexivity.
        -- intros _. apply solid_not_32. exact Hc.
    + destruct Hskip as [Hskip | Hskip]; [discriminate |].
      cbn [span] in Hskip. destruct (is_space c); [| discriminate].
      injection Hskip as ->. cbn [re_sub_from].
      destruct (IH (span is_space r) Hr (or_intror eq_refl)) as (Ha & Hs & Hst).
      repeat split; auto.
Qed.

Section WithLower.
Variable lower : text -> text.

Lemma clean_text_tidy s : tidy (clean_text lower (Some s)).
Proof.
  unfold clean_text.
  set (v := re_sub other_char (lit " ") _).
  destruct (spaces_shape v O (other_char_kept _) (or_introl eq_refl))
    as (Ha & Hs & _).
  fold (re_sub spaces (lit " ") v) in Ha, Hs.
  unfold tidy, strip. repeat split.
  - apply rstrip_Forall, lstrip_Forall, Ha.
  - apply rstrip_single_spaces, lstrip_single_spaces, Hs.
  - apply rstrip_leading, lstrip_leading.
  - apply rstrip_trailing.
Qed.

(** [str.lower] leaves digits, lowercase ASCII letters, Devanagari
    characters and spaces as they are. *)
Hypothesis lower_allowed : forall s, all_allowed s -> lower s = s.

Lemma clean_text_fixes_tidy s : tidy s -> clean_text lower (Some s) = s.
Proof.
  intros Ht. pose proof Ht as (Ha & Hs & _). unfold clean_text.
  rewrite (re_sub_no_match all_allowed _URL_RE);
    [| intros c r; apply Forall_tail | apply _URL_RE_allowed | exact Ha].
  rewrite (re_sub_no_match all_allowed _EMOJI_RE);
    [| intros c r; apply Forall_tail | apply _EMOJI_RE_allowed | exact Ha].
  rewrite (lower_allowed _ Ha).
  rewrite (re_sub_no_match all_allowed other_char);
    [| intros c r; apply Forall_tail | apply other_char_allowed | exact Ha].
  rewrite (spaces_tidy _ Ha Hs). apply strip_tidy. exact Ht.
Qed.

(** C10: [clean_text] is idempotent; what it returns has only lowercase
    ASCII letters and digits, Devanagari characters and spaces, no two
    spaces in a row and no whitespace at either end; and
    [clean_text(None)] is the empty string. *)
Theorem clean_text_idempotent_and_tidy :
  (forall text : option text,
     clean_text lower (Some (clean_text lower text))
     = clean_text lower text) /\
  (forall s : text,
     let out := clean_text lower (Some s) in
     Forall (fun c => allowed c = true) out /\
     single_spaces out = true /\
     leading_space out = false /\ trailing_space out = false) /\
  clean_text lower None = [].
Proof.
  split; [| split].
  - intros [s |].
    + apply clean_text_fixes_tidy, clean_text_tidy.
    + apply clean_text_fixes_tidy. repeat split. constructor.
  - intro s. exact (clean_text_tidy s).
  - reflexivity.
Qed.
End WithLower.

Lemma ascii_lower_allowed s : all_allowed s -> ascii_lower s = s.
Proof.
  unfold ascii_lower. induction 1 as [| c r Hc Hr IH]; simpl; [reflexivity |].
  rewrite IH. f_equal.
  destruct ((65 <=? c) && (c <=? 90)) eqn:E; [| reflexivity].
  assert (in_ranges [(65, 90)] c = true) as Hin
      by (unfold in_ranges; simpl; rewrite E; reflexivity).
  rewrite (allowed_not_in [(65, 90)] c) in Hin; [discriminate | reflexivity | exact Hc].
Qed.

Lemma clean_text_idempotent_and_tidy_witness :
  let clean := clean_text ascii_lower in
  let s := lit "Great VIDEO!!  see https://youtu.be/x1 " in
  clean (Some (clean (Some s))) = clean (Some s) /\
  clean (Some s) = lit "great video see".
Proof.
  split.
  - apply (clean_text_idempotent_and_tidy ascii_lower ascii_lower_allowed).
  - vm_compute. reflexivity.
Defined.

End CleaningFacts.

(** ** The two keyword classifiers on a tie *)

Module ClassifierFacts.
Import Cleaning Classifier ProcessComments.


(** C2, as the code has it: on a text with a hit in both of its lists,
    [classify_nature_alignment] returns -1, which the analysis reads as
    "Unknown" and not as "Not Nature-Aligned"; on a text that is not blank
    and has a hit in both of its lists, [keyword_label] returns 1,
    "Nature-Aligned"; where both see a tie the two disagree. *)
Theorem tie_unknown_vs_aligned
    (lower : text -> text) (isalnum : N -> bool) (t : text) :
  (has_aligned lower (Some t) = true ->
   has_not lower (Some t) = true ->
   classify_nature_alignment lower (Some t) = Label.UNKNOWN) /\
  (truthy (strip t) = true ->
   pos isalnum (lower t) = true ->
   neg isalnum (lower t) = true ->
   keyword_label lower isalnum (Some t) = Label.ALIGNED) /\
  (has_aligned lower (Some t) = true ->
   has_not lower (Some t) = true ->
   truthy (strip t) = true ->
   pos isalnum (lower t) = true ->
   neg isalnum (lower t) = true ->
   classify_nature_alignment lower (Some t)
   <> keyword_label lower isalnum (Some t)).
Proof.
  assert (Hc : has_aligned lower (Some t) = true ->
               has_not lower (Some t) = true ->
               classify_nature_alignment lower (Some t) = Label.UNKNOWN).
  { intros Ha Hn. unfold classify_nature_alignment.
    rewrite Ha, Hn. reflexivity. }
  assert (Hk : truthy (strip t) = true ->
               pos isalnum (lower t) = true ->
               neg isalnum (lower t) = true ->
               keyword_label lower isalnum (Some t) = Label.ALIGNED).
  { intros Hs Hp Hn. unfold keyword_label.
    rewrite Hs, Hp, Hn. reflexivity. }
  repeat split; auto.
  intros Ha Hn Hs Hp Hq. rewrite (Hc Ha Hn), (Hk Hs Hp Hq). discriminate.
Qed.

Lemma tie_unknown_vs_aligned_witness :
  let t := lit "Such clarity, but the food is too bland" in
  classify_nature_alignment ascii_lower (Some t) = Label.UNKNOWN /\
  keyword_label ascii_lower ascii_isalnum (Some t) = Label.ALIGNED.
Proof.
  intro t.
  destruct (tie_unknown_vs_aligned ascii_lower ascii_isalnum t)
    as (Hc & Hk & _).
  split.
  - apply Hc; vm_compute; reflexivity.
  - apply Hk; vm_compute; reflexivity.
Defined.

(** C2 as the specification words it fails: the classifier does not give
    0, "Not Nature-Aligned", on a tie. *)
Lemma tie_is_not_labelled_not_aligned :
  let t := Some (lit "Such clarity, but the food is too bland") in
  has_aligned ascii_lower t = true /\
  has_not ascii_lower t = true /\
  classify_nature_alignment ascii_lower t <> Label.NOT_ALIGNED.
Proof.
  vm_compute. repeat split; discriminate.
Qed.

End ClassifierFacts.

(** ** The scraper *)

Module ScraperFacts.
Import Scraper Run.
Local Open Scope world_scope.
Local Open Scope Z_scope.

(** *** One attempt *)

Section WithSelf.
Variable self : YouTubeCommentScraper.
Local Abbreviation paced := (Run.paced self).
Local Abbreviation executed := (Run.executed self).


Lemma calls_paced w : calls (paced w) = calls w.
Proof. unfold Run.paced. destruct (Qle_bool _ _); reflexivity. Qed.

Lemma backoffs_app t1 t2 : backoffs (t1 ++ t2) = backoffs t1 ++ backoffs t2.
Proof. unfold backoffs. apply flat_map_app. Qed.

Lemma requests_app t1 t2 : requests (t1 ++ t2) = requests t1 ++ requests t2.
Proof. unfold requests. apply flat_map_app. Qed.

Lemma backoffs_paced w : backoffs (trace (paced w)) = backoffs (trace w).
Proof.
  unfold paced. destruct (Qle_bool _ _); [reflexivity |].
  simpl. rewrite backoffs_app. simpl. apply app_nil_r.
Qed.

Lemma requests_paced w : requests (trace (paced w)) = requests (trace w).
Proof.
  unfold paced. destruct (Qle_bool _ _); [reflexivity |].
  simpl. rewrite requests_app. simpl. apply app_nil_r.
Qed.

Lemma calls_executed r w : calls (executed r w) = S (calls w).
Proof. reflexivity. Qed.

Lemma backoffs_executed r w :
  backoffs (trace (executed r w)) = backoffs (trace w).
Proof.
  simpl. rewrite backoffs_app, backoffs_paced. simpl. apply app_nil_r.
Qed.

Lemma requests_executed r w :
  requests (trace (executed r w)) = requests (trace w) ++ [r].
Proof. simpl. rewrite requests_app, requests_paced. reflexivity. Qed.

Lemma attempt_once r w :
  (pace self ;; execute self r)%world w
  = (raised (_youtube self (calls w) r), executed r w).
Proof.
  unfold bind, pace, execute, executed, paced, emit, ret.
  destruct (Qle_bool _ _); simpl;
    destruct (_youtube self (calls w) r); reflexivity.
Qed.


(** One turn of the loop of [_execute_with_retry]. *)
Lemma retry_loop_step r max_retries fuel attempt w :
  retry_loop self r max_retries (S fuel) attempt w =
  match _youtube self (calls w) r with
  | Success resp => (Ok resp, executed r w)
  | OtherFailure msg => (Raise (OtherError msg), executed r w)
  | HttpFailure status =>
      if attempt + 1 >? max_retries
      then (Raise (HttpError status), executed r w)
      else if transient status
           then retry_loop self r max_retries fuel (attempt + 1)
                           (backed_off (attempt + 1) (executed r w))
           else (Raise (HttpError status), executed r w)
  end.
Proof.
  cbn [retry_loop]. unfold try_http. rewrite attempt_once.
  destruct (_youtube self (calls w) r); cbn [raised]; try reflexivity.
  destruct (attempt + 1 >? max_retries); [reflexivity |].
  destruct (transient status); reflexivity.
Qed.
Lemma calls_backed_off a r w :
  calls (backed_off a (executed r w)) = S (calls w).
Proof. reflexivity. Qed.

Lemma requests_backed_off a r w :
  requests (trace (backed_off a (executed r w))) = requests (trace w) ++ [r].
Proof.
  unfold backed_off, log. cbn [trace].
  rewrite requests_app, requests_executed. simpl. apply app_nil_r.
Qed.

Lemma backoffs_backed_off a r w :
  backoffs (trace (backed_off a (executed r w)))
  = backoffs (trace w) ++ [backoff_delay a].
Proof.
  unfold backed_off, log. cbn [trace].
  rewrite backoffs_app, backoffs_executed. reflexivity.
Qed.

(** *** [_execute_with_retry] *)

(** With fuel for every attempt the ceiling allows, the loop ends, after at
    most that many requests and one backoff less. *)
Lemma retry_loop_bounded r max_retries : forall fuel attempt w,
  (Z.to_nat (max_retries - attempt) < fuel)%nat ->
  let out := retry_loop self r max_retries fuel attempt w in
  fst out <> Diverged /\
  (List.length (requests (trace (snd out)))
   <= List.length (requests (trace w)) + S (Z.to_nat (max_retries - attempt)))%nat /\
  (List.length (backoffs (trace (snd out)))
   <= List.length (backoffs (trace w)) + Z.to_nat (max_retries - attempt))%nat.
Proof.
  induction fuel as [| fuel IH]; intros attempt w Hfuel; [lia |].
  cbv zeta. rewrite retry_loop_step.
  assert (Hone : forall res : result response,
            res <> Diverged ->
            fst (res, executed r w) <> Diverged /\
            (List.length (requests (trace (snd (res, executed r w))))
             <= List.length (requests (trace w))
                + S (Z.to_nat (max_retries - attempt)))%nat /\
            (List.length (backoffs (trace (snd (res, executed r w))))
             <= List.length (backoffs (trace w))
                + Z.to_nat (max_retries - attempt))%nat).
  { intros res Hres. cbn [fst snd].
    rewrite requests_executed, backoffs_executed, length_app. simpl.
    repeat split; [exact Hres | lia | lia]. }
  destruct (_youtube self (calls w) r) as [resp | status | msg];
    [apply Hone; discriminate | | apply Hone; discriminate].
  destruct (attempt + 1 >? max_retries) eqn:Hgt; [apply Hone; discriminate |].
  destruct (transient status); [| apply Hone; discriminate].
  assert (attempt + 1 <= max_retries) as Hle.
  { destruct (Z.gtb_spec (attempt + 1) max_retries); [discriminate | lia]. }
  specialize (IH (attempt + 1) (backed_off (attempt + 1) (executed r w))).
  cbv zeta in IH. destruct IH as (Hd & Hr & Hb); [lia |].
  rewrite requests_backed_off, length_app in Hr.
  rewrite backoffs_backed_off, length_app in Hb.
  cbn [List.length] in Hr, Hb.
  repeat split; [exact Hd | lia | lia].
Qed.

(** [k] transient failures and then a success: the response is returned
    after [k] backoffs, of [min(2 ** attempt, 30)] each. *)
Lemma retry_loop_recovers r max_retries resp : forall k fuel attempt w,
  (k < fuel)%nat ->
  attempt + Z.of_nat k <= max_retries ->
  (forall i, (i < k)%nat ->
     exists status, _youtube self (calls w + i)%nat r = HttpFailure status /\
                    transient status = true) ->
  _youtube self (calls w + k)%nat r = Success resp ->
  exists w',
    retry_loop self r max_retries fuel attempt w = (Ok resp, w') /\
    calls w' = (calls w + k + 1)%nat /\
    backoffs (trace w')
    = backoffs (trace w)
      ++ map (fun i => backoff_delay (attempt + Z.of_nat i)) (seq 1 k) /\
    requests (trace w') = requests (trace w) ++ repeat r (S k).
Proof.
  induction k as [| k IH]; intros fuel attempt w Hfuel Hle Hfail Hok;
    (destruct fuel as [| fuel]; [lia |]); rewrite retry_loop_step.
  - rewrite Nat.add_0_r in Hok. rewrite Hok.
    exists (executed r w). repeat split.
    + simpl. lia.
    + rewrite backoffs_executed. simpl. symmetry. apply app_nil_r.
    + apply requests_executed.
  - destruct (Hfail O) as (status & Hs & Ht); [lia |].
    rewrite Nat.add_0_r in Hs. rewrite Hs, Ht.
    destruct (Z.gtb_spec (attempt + 1) max_retries) as [Hgt | _]; [lia |].
    set (w1 := backed_off (attempt + 1) (executed r w)).
    assert (calls w1 = S (calls w)) as Hc by reflexivity.
    destruct (IH fuel (attempt + 1) w1) as (w' & Hrun & Hcalls & Hb & Hr).
    + lia.
    + lia.
    + intros i Hi. rewrite Hc.
      replace (S (calls w) + i)%nat with (calls w + S i)%nat by lia.
      apply Hfail. lia.
    + rewrite Hc. replace (S (calls w) + k)%nat with (calls w + S k)%nat by lia.
      exact Hok.
    + exists w'. repeat split.
      * exact Hrun.
      * rewrite Hcalls, Hc. lia.
      * rewrite Hb. unfold w1. rewrite backoffs_backed_off, <- app_assoc.
        f_equal. cbn [seq map app]. f_equal.
        rewrite <- (seq_shift k 1), map_map. apply map_ext. intro i.
        f_equal. lia.
      * rewrite Hr. unfold w1. rewrite requests_backed_off, <- app_assoc.
        reflexivity.
Qed.

(** Transient failures up to the ceiling: the last error is raised, after
    a backoff for each attempt but the last. *)
Lemma retry_loop_gives_up r max_retries : forall n fuel attempt w,
  (n < fuel)%nat ->
  attempt + Z.of_nat n = max_retries ->
  (forall i, (i <= n)%nat ->
     exists status, _youtube self (calls w + i)%nat r = HttpFailure status /\
                    transient status = true) ->
  exists w' status,
    retry_loop self r max_retries fuel attempt w
    = (Raise (HttpError status), w') /\
    _youtube self (calls w + n)%nat r = HttpFailure status /\
    calls w' = (calls w + n + 1)%nat /\
    backoffs (trace w')
    = backoffs (trace w)
      ++ map (fun i => backoff_delay (attempt + Z.of_nat i)) (seq 1 n) /\
    requests (trace w') = requests (trace w) ++ repeat r (S n).
Proof.
  induction n as [| n IH]; intros fuel attempt w Hfuel Hle Hfail;
    (destruct fuel as [| fuel]; [lia |]); rewrite retry_loop_step;
    destruct (Hfail O) as (status & Hs & Ht); try lia;
    pose proof Hs as Hs0; rewrite Nat.add_0_r in Hs0; rewrite Hs0.
  - destruct (Z.gtb_spec (attempt + 1) max_retries) as [_ | Hgt]; [| lia].
    exists (executed r w), status. repeat split.
    + exact Hs.
    + simpl. lia.
    + rewrite backoffs_executed. simpl. symmetry. apply app_nil_r.
    + apply requests_executed.
  - rewrite Ht.
    destruct (Z.gtb_spec (attempt + 1) max_retries) as [Hgt | _]; [lia |].
    set (w1 := backed_off (attempt + 1) (executed r w)).
    assert (calls w1 = S (calls w)) as Hc by reflexivity.
    destruct (IH fuel (attempt + 1) w1) as (w' & st & Hrun & Hlast & Hcalls & Hb & Hr).
    + lia.
    + lia.
    + intros i Hi. rewrite Hc.
      replace (S (calls w) + i)%nat with (calls w + S i)%nat by lia.
      apply Hfail. lia.
    + exists w', st. repeat split.
      * exact Hrun.
      * rewrite Hc in Hlast.
        replace (calls w + S n)%nat with (S (calls w) + n)%nat by lia.
        exact Hlast.
      * rewrite Hcalls, Hc. lia.
      * rewrite Hb. unfold w1. rewrite backoffs_backed_off, <- app_assoc.
        f_equal. cbn [seq map app]. f_equal.
        rewrite <- (seq_shift n 1), map_map. apply map_ext. intro i.
        f_equal. lia.
      * rewrite Hr. unfold w1. rewrite requests_backed_off, <- app_assoc.
        reflexivity.
Qed.

Lemma execute_with_retry_step r w :
  _execute_with_retry self r w =
  match _youtube self (calls w) r with
  | Success resp => (Ok resp, executed r w)
  | OtherFailure msg => (Raise (OtherError msg), executed r w)
  | HttpFailure status =>
      if transient status
      then retry_loop self r 5 5 1 (backed_off 1 (executed r w))
      else (Raise (HttpError status), executed r w)
  end.
Proof.
  unfold _execute_with_retry, _execute_with_retry_max.
  rewrite retry_loop_step. reflexivity.
Qed.

Lemma execute_with_retry_success r w resp :
  _youtube self (calls w) r = Success resp ->
  _execute_with_retry self r w = (Ok resp, executed r w).
Proof. intro H. rewrite execute_with_retry_step, H. reflexivity. Qed.

Lemma transient_not_access status :
  transient status = true -> (status =? 403) || (status =? 404) = false.
Proof.
  unfold transient. intro H.
  destruct (Z.eqb_spec status 403) as [-> | _]; [discriminate |].
  destruct (Z.eqb_spec status 404) as [-> | _]; [discriminate | reflexivity].
Qed.

Lemma access_not_transient status :
  status = 403 \/ status = 404 -> transient status = false.
Proof. intros [-> | ->]; reflexivity. Qed.

(** *** [_fetch_top_level_comments] *)

Section WithDigest.
Variable sha256_hexdigest : text -> text.

(** One turn of the [while fetched < limit] loop. *)
Lemma comments_loop_step video_id video_title limit fuel page_token
                         fetched yielded w :
  fetched < limit ->
  comments_loop self sha256_hexdigest video_id video_title limit (S fuel)
                page_token fetched yielded w =
  match _execute_with_retry self
          (CommentThreadsList video_id (Z.min 100 (limit - fetched))
                              page_token) w with
  | (Ok response, w') =>
      match yield_items sha256_hexdigest video_title limit (items response)
                        fetched yielded with
      | Return (_, yielded) => (Ok yielded, w')
      | Continue (fetched, yielded) =>
          if token_present (nextPageToken response)
          then comments_loop self sha256_hexdigest video_id video_title
                             limit fuel (nextPageToken response)
                             fetched yielded w'
          else (Ok yielded, w')
      end
  | (Raise (HttpError status), w') =>
      if (status =? 403) || (status =? 404) then (Ok yielded, w')
      else (Raise (HttpError status), w')
  | (Raise e, w') => (Raise e, w')
  | (Diverged, w') => (Diverged, w')
  end.
Proof.
  intro Hlt. cbn [comments_loop].
  destruct (Z.ltb_spec fetched limit) as [_ | Hge]; [| lia].
  unfold bind, try_http, ret, raise.
  destruct (_execute_with_retry self _ w) as [[response | e |] w'].
  - destruct (yield_items _ _ _ _ _ _) as [[f y] | [f y]]; [reflexivity |].
    destruct (token_present _); reflexivity.
  - destruct e; try reflexivity.
    destruct ((status_code =? 403) || (status_code =? 404)); reflexivity.
  - reflexivity.
Qed.

(** C3: a request that fails with a transient error (429, 500 or 503)
    twice and then succeeds gives the response of the success after exactly
    two backoff waits, of 2 and of 4; after [k] transient failures the
    waits are [min(2 ** attempt, 30)] for the attempts 1 to [k]; when the
    request keeps failing, the sixth failure is raised after five retries,
    with waits 2, 4, 8, 16 and 30, and ends the retrieval of the comments
    of that video with the error; and whatever the service answers, the
    call ends after at most six requests and five waits. *)
Theorem retry_with_backoff (r : request) (w : world) :
  (forall s1 s2 resp,
     _youtube self (calls w) r = HttpFailure s1 -> transient s1 = true ->
     _youtube self (S (calls w)) r = HttpFailure s2 -> transient s2 = true ->
     _youtube self (S (S (calls w))) r = Success resp ->
     exists w',
       _execute_with_retry self r w = (Ok resp, w') /\
       backoffs (trace w') = backoffs (trace w) ++ [2; 4] /\
       requests (trace w') = requests (trace w) ++ [r; r; r]) /\
  (forall k resp,
     (k <= 5)%nat ->
     (forall i, (i < k)%nat ->
        exists status, _youtube self (calls w + i)%nat r = HttpFailure status /\
                       transient status = true) ->
     _youtube self (calls w + k)%nat r = Success resp ->
     exists w',
       _execute_with_retry self r w = (Ok resp, w') /\
       backoffs (trace w')
       = backoffs (trace w)
         ++ map (fun attempt => Z.min (2 ^ Z.of_nat attempt) 30) (seq 1 k) /\
       requests (trace w') = requests (trace w) ++ repeat r (S k)) /\
  ((forall i, (i <= 5)%nat ->
      exists status, _youtube self (calls w + i)%nat r = HttpFailure status /\
                     transient status = true) ->
   exists w' status,
     _execute_with_retry self r w = (Raise (HttpError status), w') /\
     _youtube self (calls w + 5)%nat r = HttpFailure status /\
     backoffs (trace w') = backoffs (trace w) ++ [2; 4; 8; 16; 30] /\
     requests (trace w') = requests (trace w) ++ repeat r 6 /\
     forall video_id video_title limit fuel page_token fetched yielded,
       r = CommentThreadsList video_id (Z.min 100 (limit - fetched))
                              page_token ->
       fetched < limit ->
       comments_loop self sha256_hexdigest video_id video_title limit
                     (S fuel) page_token fetched yielded w
       = (Raise (HttpError status), w')) /\
  (let out := _execute_with_retry self r w in
   fst out <> Diverged /\
   (List.length (requests (trace (snd out)))
    <= List.length (requests (trace w)) + 6)%nat /\
   (List.length (backoffs (trace (snd out)))
    <= List.length (backoffs (trace w)) + 5)%nat).
Proof.
  assert (Hgen : forall k resp,
     (k <= 5)%nat ->
     (forall i, (i < k)%nat ->
        exists status, _youtube self (calls w + i)%nat r = HttpFailure status /\
                       transient status = true) ->
     _youtube self (calls w + k)%nat r = Success resp ->
     exists w',
       _execute_with_retry self r w = (Ok resp, w') /\
       backoffs (trace w')
       = backoffs (trace w)
         ++ map (fun attempt => Z.min (2 ^ Z.of_nat attempt) 30) (seq 1 k) /\
       requests (trace w') = requests (trace w) ++ repeat r (S k)).
  { intros k resp Hk Hfail Hok.
    destruct (retry_loop_recovers r 5 resp k 6%nat 0 w)
      as (w' & Hrun & _ & Hb & Hr); [lia | lia | exact Hfail | exact Hok |].
    exists w'. repeat split; [exact Hrun | exact Hb | exact Hr]. }
  split; [| split; [exact Hgen | split]].
  - intros s1 s2 resp H1 T1 H2 T2 H3.
    apply (Hgen 2%nat resp); [lia | |].
    + intros i Hi. destruct i as [| [| i]]; [| | lia].
      * exists s1. rewrite Nat.add_0_r. auto.
      * exists s2. rewrite Nat.add_1_r. auto.
    + replace (calls w + 2)%nat with (S (S (calls w))) by lia. exact H3.
  - intro Hfail.
    destruct (retry_loop_gives_up r 5 5%nat 6%nat 0 w)
      as (w' & status & Hrun & Hlast & _ & Hb & Hr);
      [lia | reflexivity | exact Hfail |].
    exists w', status. repeat split; [exact Hrun | exact Hlast | exact Hb | exact Hr |].
    intros video_id video_title limit fuel page_token fetched yielded -> Hlt.
    rewrite comments_loop_step by exact Hlt.
    unfold _execute_with_retry, _execute_with_retry_max.
    change (S (Z.to_nat 5)) with 6%nat. rewrite Hrun.
    destruct (Hfail 5%nat) as (st & Hst & Ht); [lia |].
    rewrite Hlast in Hst. injection Hst as <-.
    rewrite (transient_not_access _ Ht). reflexivity.
  - apply (retry_loop_bounded r 5 6%nat 0 w). simpl. lia.
Qed.

(** C4: when the request for a page of comments is answered with 403 or
    404, it is executed once and not retried, no backoff is slept, and the
    retrieval for the video ends with the records yielded so far and without
    an exception; on the first page that is the empty list.  The same holds
    for whatever way [_execute_with_retry] comes to raise a 403 or 404. *)
Theorem access_error_keeps_partial
    (video_id video_title : text) (limit : Z) (fuel : nat)
    (page_token : option text) (fetched : Z) (yielded : list CommentRecord)
    (w : world) (status : Z) :
  let r := CommentThreadsList video_id (Z.min 100 (limit - fetched))
                              page_token in
  fetched < limit ->
  status = 403 \/ status = 404 ->
  (_youtube self (calls w) r = HttpFailure status ->
   _execute_with_retry self r w = (Raise (HttpError status), executed r w) /\
   comments_loop self sha256_hexdigest video_id video_title limit (S fuel)
                 page_token fetched yielded w
   = (Ok yielded, executed r w) /\
   requests (trace (executed r w)) = requests (trace w) ++ [r] /\
   backoffs (trace (executed r w)) = backoffs (trace w)) /\
  (forall w',
     _execute_with_retry self r w = (Raise (HttpError status), w') ->
     comments_loop self sha256_hexdigest video_id video_title limit (S fuel)
                   page_token fetched yielded w
     = (Ok yielded, w')) /\
  (fetched = 0 -> page_token = None -> yielded = [] ->
   _youtube self (calls w) r = HttpFailure status ->
   _fetch_top_level_comments self sha256_hexdigest (S fuel) video_id
                             video_title limit w
   = (Ok [], executed r w)).
Proof.
  intros r Hlt Hst.
  assert (Hcatch : forall w',
     _execute_with_retry self r w = (Raise (HttpError status), w') ->
     comments_loop self sha256_hexdigest video_id video_title limit (S fuel)
                   page_token fetched yielded w
     = (Ok yielded, w')).
  { intros w' Hrun. rewrite comments_loop_step by exact Hlt.
    fold r. rewrite Hrun.
    destruct Hst as [-> | ->]; reflexivity. }
  assert (Hraise : _youtube self (calls w) r = HttpFailure status ->
     _execute_with_retry self r w = (Raise (HttpError status), executed r w)).
  { intro H. rewrite execute_with_retry_step, H.
    rewrite (access_not_transient _ Hst). reflexivity. }
  split; [| split].
  - intro H. repeat split.
    + exact (Hraise H).
    + exact (Hcatch _ (Hraise H)).
    + apply requests_executed.
    + apply backoffs_executed.
  - exact Hcatch.
  - intros Hf Hp Hy H. unfold _fetch_top_level_comments.
    rewrite <- Hf, <- Hp, <- Hy. exact (Hcatch _ (Hraise H)).
Qed.

(** *** [fetch_comments_for_videos] *)

Lemma retry_loop_remote r max_retries : forall fuel attempt w,
  remote_only (fst (retry_loop self r max_retries fuel attempt w)).
Proof.
  induction fuel as [| fuel IH]; intros attempt w; [exact I |].
  rewrite retry_loop_step.
  destruct (_youtube self (calls w) r); try exact I.
  destruct (attempt + 1 >? max_retries); [exact I |].
  destruct (transient status); [apply IH | exact I].
Qed.

Lemma execute_with_retry_remote r w :
  remote_only (fst (_execute_with_retry self r w)).
Proof. apply retry_loop_remote. Qed.

Lemma get_video_title_remote video_id w :
  remote_only (fst (_get_video_title self video_id w)).
Proof.
  unfold _get_video_title, bind.
  pose proof (execute_with_retry_remote (VideosList video_id) w) as H.
  destruct (_execute_with_retry self _ w) as [[response | e |] w'];
    cbn [fst] in *; try exact H.
  destruct (items response); exact I.
Qed.

Lemma comments_loop_remote video_id video_title limit :
  forall fuel page_token fetched yielded w,
    remote_only (fst (comments_loop self sha256_hexdigest video_id
                                    video_title limit fuel page_token
                                    fetched yielded w)).
Proof.
  induction fuel as [| fuel IH]; intros page_token fetched yielded w.
  - cbn [comments_loop]. destruct (fetched <? limit); exact I.
  - destruct (Z.ltb_spec fetched limit) as [Hlt | Hge].
    + rewrite comments_loop_step by exact Hlt.
      pose proof (execute_with_retry_remote
                    (CommentThreadsList video_id
                       (Z.min 100 (limit - fetched)) page_token) w) as H.
      destruct (_execute_with_retry self _ w) as [[response | e |] w'];
        cbn [fst] in H.
      * destruct (yield_items _ _ _ _ _ _) as [[f y] | [f y]]; [exact I |].
        destruct (token_present _); [apply IH | exact I].
      * destruct e; try contradiction; [| exact I].
        destruct ((status_code =? 403) || (status_code =? 404)); exact I.
      * exact I.
    + cbn [comments_loop].
      destruct (Z.ltb_spec fetched limit) as [Hlt | _]; [lia | exact I].
Qed.

Lemma videos_loop_remote fuel per_video_limit :
  forall video_ids all_records w,
    remote_only (fst (videos_loop self sha256_hexdigest fuel per_video_limit
                                  video_ids all_records w)).
Proof.
  induction video_ids as [| video_id rest IH]; intros all_records w;
    [exact I |].
  cbn [videos_loop]. unfold bind at 1.
  pose proof (get_video_title_remote video_id w) as Ht.
  destruct (_get_video_title self video_id w) as [[title | e |] w1];
    cbn [fst] in Ht; [| exact Ht | exact I].
  unfold bind at 1. unfold _fetch_top_level_comments.
  pose proof (comments_loop_remote video_id title per_video_limit fuel
                                   None 0 [] w1) as Hc.
  destruct (comments_loop _ _ _ _ _ _ _ _ _ w1) as [[records | e |] w2];
    cbn [fst] in Hc; [apply IH | exact Hc | exact I].
Qed.

(** C5: with a per-video limit below 100 or above 500,
    [fetch_comments_for_videos] raises the [ValueError] and leaves the world
    as it was, so no request has been made; with a limit from 100 to 500,
    the two ends included, no [ValueError] comes out of it. *)
Theorem per_video_limit_validated
    (fuel : nat) (video_ids : list text) (per_video_limit : Z) (w : world) :
  (per_video_limit < 100 \/ per_video_limit > 500 ->
   fetch_comments_for_videos self sha256_hexdigest fuel video_ids
                             per_video_limit w
   = (Raise (ValueError "per_video_limit must be between 100 and 500"), w)) /\
  (100 <= per_video_limit <= 500 ->
   forall msg,
     fst (fetch_comments_for_videos self sha256_hexdigest fuel video_ids
                                    per_video_limit w)
     <> Raise (ValueError msg)).
Proof.
  unfold fetch_comments_for_videos. split.
  - intro H.
    destruct (Z.ltb_spec per_video_limit 100) as [_ | H1]; [reflexivity |].
    destruct (Z.gtb_spec per_video_limit 500) as [_ | H2]; [reflexivity | lia].
  - intros H msg.
    destruct (Z.ltb_spec per_video_limit 100) as [H1 | _]; [lia |].
    destruct (Z.gtb_spec per_video_limit 500) as [H2 | _]; [lia |].
    cbn [orb].
    pose proof (videos_loop_remote fuel per_video_limit video_ids [] w) as Hr.
    intro Heq. rewrite Heq in Hr. exact Hr.
Qed.

(** *** [fetch_video_ids_from_channel] *)

Lemma firstn_plus {A} (l : list A) : forall a b,
  firstn (a + b) l = firstn a l ++ firstn b (skipn a l).
Proof.
  induction l as [| x l IH]; intros a b.
  - rewrite skipn_nil, !firstn_nil. reflexivity.
  - destruct a as [| a]; [reflexivity |]. simpl. rewrite IH. reflexivity.
Qed.

Lemma Forall_slice {A} (P : A -> Prop) (l : list A) n offset :
  Forall P l -> Forall P (firstn n (skipn offset l)).
Proof.
  intro H. rewrite <- (firstn_skipn offset l) in H.
  apply Forall_app in H. destruct H as [_ H].
  rewrite <- (firstn_skipn n (skipn offset l)) in H.
  apply Forall_app in H. tauto.
Qed.


(** The [for] loop over one page whose items all carry a video
    identifier. *)
Lemma collect_video_ids_page (K : nat) : forall l video_ids,
  Collaborator.all_truthy l ->
  (List.length video_ids < K)%nat ->
  collect_video_ids (Some (Z.of_nat K)) (map Collaborator.video_item l)
                    video_ids
  = if (List.length video_ids + List.length l <? K)%nat
    then Continue (video_ids ++ l)
    else Return (video_ids ++ firstn (K - List.length video_ids) l).
Proof.
  induction l as [| v l IH]; intros video_ids Hl Hlen.
  - cbn [map collect_video_ids List.length]. rewrite Nat.add_0_r.
    destruct (Nat.ltb_spec (List.length video_ids) K); [| lia].
    rewrite app_nil_r. reflexivity.
  - inversion Hl as [| ? ? Hv Hl']; subst.
    cbn [map collect_video_ids Collaborator.video_item videoId].
    rewrite Hv. unfold cap_reached. rewrite length_app. cbn [List.length].
    destruct (Z.geb_spec (Z.of_nat (List.length video_ids + 1)) (Z.of_nat K))
      as [Hge | Hlt].
    + destruct (Nat.ltb_spec (List.length video_ids + S (List.length l)) K);
        [lia |].
      replace (K - List.length video_ids)%nat with 1%nat by lia.
      reflexivity.
    + rewrite IH; [| exact Hl' | rewrite length_app; simpl; lia].
      rewrite length_app. cbn [List.length].
      replace (List.length video_ids + 1 + List.length l)%nat
        with (List.length video_ids + S (List.length l))%nat by lia.
      destruct (Nat.ltb_spec (List.length video_ids + S (List.length l)) K).
      * rewrite <- app_assoc. reflexivity.
      * replace (K - List.length video_ids)%nat
          with (S (K - (List.length video_ids + 1)))%nat by lia.
        rewrite <- app_assoc. reflexivity.
Qed.

Section Uploads.
Variable playlist : text.
Variable ids : list text.
Variable tok : nat -> text.
Hypothesis served : Collaborator.serves_uploads (_youtube self) playlist ids tok.
Hypothesis tokens : forall offset, truthy (tok offset) = true.
Hypothesis identifiers : Collaborator.all_truthy ids.

Local Abbreviation uploads_request :=
  (Collaborator.uploads_request playlist tok).


(** From the page that starts at [offset], with a cap [K] above [offset]
    and below the number of uploads: [pages] more requests reach the cap. *)
Lemma playlist_loop_capped (K : nat) : forall pages offset fuel w,
  (offset < K)%nat -> (K < List.length ids)%nat ->
  (K <= offset + 50 * S pages)%nat -> (offset + 50 * pages < K)%nat ->
  (pages < fuel)%nat ->
  exists w',
    playlist_loop self playlist (Some (Z.of_nat K)) fuel
                  (firstn offset ids) (Collaborator.page_token tok offset) w
    = (Ok (firstn K ids), w') /\
    requests (trace w')
    = requests (trace w)
      ++ map (fun j => uploads_request (offset + 50 * j)) (seq 0 (S pages)).
Proof.
  induction pages as [| pages IH]; intros offset fuel w Ho HK Hhi Hlo Hfuel;
    (destruct fuel as [| fuel]; [lia |]);
    cbn [playlist_loop]; unfold bind at 1;
    rewrite (execute_with_retry_success _ _ _ (served (calls w) 50 offset));
    unfold Collaborator.page; cbn [items nextPageToken];
    change (Z.to_nat 50) with 50%nat;
    (rewrite collect_video_ids_page;
       [| apply Forall_slice, identifiers
        | rewrite length_firstn; lia]);
    rewrite !length_firstn, length_skipn.
  - destruct (Nat.ltb_spec
                (Nat.min offset (List.length ids)
                 + Nat.min 50 (List.length ids - offset)) K); [lia |].
    exists (executed (uploads_request offset) w). split.
    + unfold ret. f_equal. f_equal.
      replace (Nat.min offset (List.length ids)) with offset by lia.
      rewrite firstn_firstn.
      replace (Nat.min (K - offset) 50) with (K - offset)%nat by lia.
      rewrite <- firstn_plus. f_equal. lia.
    + rewrite requests_executed. cbn [seq map].
      rewrite Nat.mul_0_r, Nat.add_0_r. reflexivity.
  - destruct (Nat.ltb_spec
                (Nat.min offset (List.length ids)
                 + Nat.min 50 (List.length ids - offset)) K); [| lia].
    destruct (Nat.ltb_spec (offset + 50) (List.length ids)); [| lia].
    cbn [token_present]. rewrite tokens.
    rewrite <- firstn_plus.
    destruct (IH (offset + 50)%nat fuel (executed (uploads_request offset) w))
      as (w' & Hrun & Hreq); try lia.
    exists w'. split.
    + replace (Collaborator.page_token tok (offset + 50))
        with (Some (tok (offset + 50)%nat)) in Hrun
        by (destruct offset; reflexivity).
      exact Hrun.
    + rewrite Hreq, requests_executed, <- app_assoc. f_equal.
      change (seq 0 (S (S pages))) with (0%nat :: seq 1 (S pages)).
      cbn [map app]. rewrite Nat.mul_0_r, Nat.add_0_r. f_equal.
      rewrite <- (seq_shift (S pages) 0), map_map. apply map_ext.
      intro j. f_equal. lia.
Qed.

(** With a cap [K] from 1 to below the number of uploads, the enumerator
    returns the first [K] identifiers, in the order of the collection, after
    the [K / 50] rounded up page requests for the offsets 0, 50, ... *)
Lemma capped_enumeration (K : nat) (channel_id : text) (fuel : nat)
                         (w w1 : world) :
  _get_uploads_playlist_id self channel_id w = (Ok playlist, w1) ->
  (1 <= K)%nat -> (K < List.length ids)%nat ->
  ((K + 49) / 50 <= fuel)%nat ->
  exists w',
    fetch_video_ids_from_channel self fuel channel_id (Some (Z.of_nat K)) w
    = (Ok (firstn K ids), w') /\
    List.length (firstn K ids) = K /\
    requests (trace w')
    = requests (trace w1)
      ++ map (fun j => uploads_request (50 * j)) (seq 0 ((K + 49) / 50)).
Proof.
  intros Hup H1 HK Hfuel.
  pose proof (Nat.div_mod_eq (K + 49) 50) as Hdiv.
  pose proof (Nat.mod_upper_bound (K + 49) 50) as Hmod.
  destruct ((K + 49) / 50)%nat as [| pages] eqn:Hq; [lia |].
  destruct (playlist_loop_capped K pages O fuel w1) as (w' & Hrun & Hreq);
    try lia.
  exists w'. repeat split.
  - unfold fetch_video_ids_from_channel, bind. rewrite Hup. exact Hrun.
  - rewrite length_firstn. lia.
  - exact Hreq.
Qed.

End Uploads.

(** *** [_fetch_top_level_comments] on a video with few comments *)

Section Comments.
Variable video_id video_title : text.
Variable cs : list comment_snippet.
Variable tok : nat -> text.
Variable limit : Z.
Hypothesis served :
  Collaborator.serves_comments (_youtube self) video_id cs tok.
Hypothesis tokens : forall offset, truthy (tok offset) = true.
Hypothesis few : Z.of_nat (List.length cs) <= limit.

Local Abbreviation comments_request :=
  (Collaborator.comments_request video_id tok limit).
Local Abbreviation comments_response :=
  (Collaborator.comments_response cs tok limit).
Local Abbreviation record_of :=
  (fun c => to_record sha256_hexdigest video_title (Collaborator.comment_item c)).

(** The [for] loop over one page that does not go beyond the limit: every
    item is yielded. *)
Lemma yield_items_page : forall l fetched yielded,
  fetched + Z.of_nat (List.length l) <= limit ->
  yield_items sha256_hexdigest video_title limit
              (map Collaborator.comment_item l) fetched yielded
  = Continue (fetched + Z.of_nat (List.length l), yielded ++ map record_of l)
  \/
  (yield_items sha256_hexdigest video_title limit
               (map Collaborator.comment_item l) fetched yielded
   = Return (fetched + Z.of_nat (List.length l), yielded ++ map record_of l)
   /\ fetched + Z.of_nat (List.length l) = limit).
Proof.
  induction l as [| c l IH]; intros fetched yielded Hle.
  - left. cbn [map yield_items List.length]. rewrite app_nil_r.
    change (Z.of_nat 0) with 0. rewrite Z.add_0_r. reflexivity.
  - cbn [map yield_items]. cbn [List.length] in *.
    destruct (Z.geb_spec (fetched + 1) limit) as [Hge | Hlt].
    + right. destruct l as [| c' l]; [| cbn [List.length] in Hle; lia].
      split; [reflexivity | simpl; lia].
    + destruct (IH (fetched + 1)
                   (yielded ++ [to_record sha256_hexdigest video_title
                                          (Collaborator.comment_item c)]))
        as [Hc | [Hr Heq]]; [lia | |].
      * left. rewrite Hc. rewrite <- app_assoc.
        replace (fetched + 1 + Z.of_nat (List.length l))
          with (fetched + Z.of_nat (S (List.length l))) by lia.
        reflexivity.
      * right. rewrite Hr. rewrite <- app_assoc.
        replace (fetched + 1 + Z.of_nat (List.length l))
          with (fetched + Z.of_nat (S (List.length l))) by lia.
        split; [reflexivity | lia].
Qed.



(** From the page that starts at [offset]: [pages] more requests after
    this one yield all the comments. *)
Lemma comments_loop_all : forall pages offset fuel w,
  (offset <= List.length cs)%nat ->
  Z.of_nat offset < limit ->
  (List.length cs <= offset + 100 * S pages)%nat ->
  (pages = O \/ offset + 100 * pages < List.length cs)%nat ->
  (pages < fuel)%nat ->
  exists w',
    comments_loop self sha256_hexdigest video_id video_title limit fuel
                  (Collaborator.page_token tok offset) (Z.of_nat offset)
                  (map record_of (firstn offset cs)) w
    = (Ok (map record_of cs), w') /\
    requests (trace w')
    = requests (trace w)
      ++ map (fun j => comments_request (offset + 100 * j)) (seq 0 (S pages)).
Proof.
  induction pages as [| pages IH]; intros offset fuel w Ho Hlim Hhi Hlo Hfuel;
    (destruct fuel as [| fuel]; [lia |]);
    rewrite comments_loop_step by exact Hlim;
    rewrite (execute_with_retry_success _ _ _
               (served (calls w) (Z.min 100 (limit - Z.of_nat offset)) offset));
    fold (comments_request offset);
    unfold Collaborator.page; cbn [items nextPageToken];
    set (size := Z.to_nat (Z.min 100 (limit - Z.of_nat offset)));
    assert (Hsize : size = Nat.min 100 (Z.to_nat limit - offset)) by lia;
    assert (Hpage : List.length (firstn size (skipn offset cs))
                    = Nat.min 100 (List.length cs - offset))
      by (rewrite length_firstn, length_skipn; lia);
    destruct (yield_items_page (firstn size (skipn offset cs))
                (Z.of_nat offset) (map record_of (firstn offset cs)))
      as [Hy | [Hy Hfull]]; try (rewrite Hpage; lia); rewrite Hy;
    rewrite <- map_app, <- firstn_plus.
  - (* the last page, below the limit *)
    destruct (Nat.ltb_spec (offset + size) (List.length cs)); [lia |].
    cbn [token_present].
    exists (executed (comments_request offset) w). split.
    + rewrite firstn_all2 by lia. reflexivity.
    + rewrite requests_executed. cbn [seq map].
      rewrite Nat.mul_0_r, Nat.add_0_r. reflexivity.
  - (* the last page, reaching the limit *)
    exists (executed (comments_request offset) w). split.
    + rewrite firstn_all2 by lia. reflexivity.
    + rewrite requests_executed. cbn [seq map].
      rewrite Nat.mul_0_r, Nat.add_0_r. reflexivity.
  - (* a page with more to come *)
    destruct (Nat.ltb_spec (offset + size) (List.length cs)); [| lia].
    cbn [token_present]. rewrite tokens.
    rewrite Hpage.
    replace (Z.of_nat offset + Z.of_nat (Nat.min 100 (List.length cs - offset)))
      with (Z.of_nat (offset + 100)) by lia.
    replace size with 100%nat by lia.
    destruct (IH (offset + 100)%nat fuel (executed (comments_request offset) w))
      as (w' & Hrun & Hreq); try lia.
    exists w'. split.
    + replace (Collaborator.page_token tok (offset + 100))
        with (Some (tok (offset + 100)%nat)) in Hrun
        by (destruct offset; reflexivity).
      exact Hrun.
    + rewrite Hreq, requests_executed, <- app_assoc. f_equal.
      change (seq 0 (S (S pages))) with (0%nat :: seq 1 (S pages)).
      cbn [map app]. rewrite Nat.mul_0_r, Nat.add_0_r. f_equal.
      rewrite <- (seq_shift (S pages) 0), map_map. apply map_ext.
      intro j. f_equal. lia.
  - (* the limit cannot be reached while comments remain *)
    lia.
Qed.


End Comments.
End WithDigest.
End WithSelf.

(** *** The simulated collaborators *)

Lemma sim_offset_page_token offset :
  Collaborator.sim_offset (Collaborator.page_token Collaborator.sim_tok offset)
  = offset.
Proof.
  destruct offset as [| offset]; [reflexivity |].
  unfold Collaborator.page_token, Collaborator.sim_tok, Collaborator.sim_offset.
  apply Nat2N.id.
Qed.

Lemma simulated_serves_uploads ids cs playlist :
  Collaborator.serves_uploads (Collaborator.simulated ids cs) playlist ids
                              Collaborator.sim_tok.
Proof.
  intros n size offset. unfold Collaborator.simulated.
  rewrite sim_offset_page_token. reflexivity.
Qed.

Lemma simulated_serves_comments ids cs video :
  Collaborator.serves_comments (Collaborator.simulated ids cs) video cs
                               Collaborator.sim_tok.
Proof.
  intros n size offset. unfold Collaborator.simulated.
  rewrite sim_offset_page_token. reflexivity.
Qed.

Lemma retry_with_backoff_witness :
  let resp := {| items := [Collaborator.video_item (lit "v")];
                 nextPageToken := None |} in
  let self := {| _youtube := Collaborator.scripted
                               [HttpFailure 503; HttpFailure 429; Success resp];
                 _sleep_seconds := 0.1%Q |} in
  exists w',
    _execute_with_retry self (VideosList (lit "v")) Collaborator.fresh
    = (Ok resp, w') /\
    backoffs (trace w') = [2; 4] /\
    requests (trace w')
    = [VideosList (lit "v"); VideosList (lit "v"); VideosList (lit "v")].
Proof.
  intros resp self.
  destruct (retry_with_backoff self (fun name => name) (VideosList (lit "v"))
                               Collaborator.fresh) as (Htwo & _).
  apply (Htwo 503 429 resp); reflexivity.
Defined.

Lemma access_error_keeps_partial_witness :
  let self := {| _youtube := Collaborator.scripted [HttpFailure 403];
                 _sleep_seconds := 0%Q |} in
  _fetch_top_level_comments self (fun name => name) 1 (lit "v") (lit "t") 200
                            Collaborator.fresh
  = (Ok [],
     {| calls := 1;
        trace := [Execute (CommentThreadsList (lit "v") 100 None)] |}).
Proof.
  intro self.
  destruct (access_error_keeps_partial self (fun name => name) (lit "v")
              (lit "t") 200 0 None 0 [] Collaborator.fresh 403)
    as (_ & _ & Hfirst); [lia | left; reflexivity |].
  apply Hfirst; reflexivity.
Defined.

Lemma per_video_limit_validated_witness :
  let self := {| _youtube := Collaborator.simulated [] [];
                 _sleep_seconds := 0%Q |} in
  fetch_comments_for_videos self (fun name => name) 1 [lit "v"] 99
                            Collaborator.fresh
  = (Raise (ValueError "per_video_limit must be between 100 and 500"),
     Collaborator.fresh) /\
  fst (fetch_comments_for_videos self (fun name => name) 1 [lit "v"] 500
                                 Collaborator.fresh)
  <> Raise (ValueError "per_video_limit must be between 100 and 500").
Proof.
  intro self. split.
  - apply (per_video_limit_validated self (fun name => name) 1 [lit "v"] 99
                                     Collaborator.fresh).
    left. lia.
  - apply (per_video_limit_validated self (fun name => name) 1 [lit "v"] 500
                                     Collaborator.fresh).
    lia.
Defined.


(** C6 at a cap of 0 on a channel with two uploads: one identifier comes
    back, not none, after one page request, not none. *)
Theorem cap_zero_returns_one_video :
  let ids := [lit "v1"; lit "v2"] in
  let self := {| _youtube := Collaborator.simulated ids [];
                 _sleep_seconds := 0%Q |} in
  fetch_video_ids_from_channel self 5 (lit "UCx") (Some 0) Collaborator.fresh
  = (Ok [lit "v1"],
     {| calls := 2;
        trace := [Execute (ChannelsListById (lit "UCx"));
                  Execute (PlaylistItemsList (lit "UU") 50 None)] |}).
Proof. vm_compute. reflexivity. Qed.

(** The sibling loop asks before it fetches: with a limit of 0 the comment
    fetcher makes no request and returns nothing. *)
Lemma limit_zero_fetches_nothing self sha256_hexdigest fuel video_id
                                 video_title w :
  _fetch_top_level_comments self sha256_hexdigest fuel video_id video_title 0 w
  = (Ok [], w).
Proof. destruct fuel; reflexivity. Qed.

Lemma capped_enumeration_example :
  let ids := map (fun n => [(N.of_nat n + 65)%N]) (seq 0 120) in
  let self := {| _youtube := Collaborator.simulated ids [];
                 _sleep_seconds := 0%Q |} in
  exists w',
    fetch_video_ids_from_channel self 2 (lit "UCx") (Some 51)
                                 Collaborator.fresh
    = (Ok (firstn 51 ids), w') /\
    List.length (requests (trace w')) = 3%nat.
Proof.
  intros ids self.
  destruct (capped_enumeration self (lit "UU") ids Collaborator.sim_tok
              (simulated_serves_uploads ids [] (lit "UU"))
              (fun offset => eq_refl)
              ltac:(repeat constructor) 51%nat (lit "UCx") 2%nat
              Collaborator.fresh
              (executed self (ChannelsListById (lit "UCx")) Collaborator.fresh)
              eq_refl ltac:(lia) ltac:(simpl; lia) ltac:(simpl; lia))
    as (w' & Hrun & _ & Hreq).
  exists w'. split; [exact Hrun | rewrite Hreq; reflexivity].
Qed.

(** *** [resolve_channel_id] *)

Lemma re_search_found {A} (matcher : text -> option A) : forall s g,
  re_search matcher s = Some g ->
  exists before rest, s = before ++ rest /\ matcher rest = Some g.
Proof.
  induction s as [| c s IH]; intros g H; cbn [re_search] in H.
  - destruct (matcher []) eqn:E; [| discriminate].
    exists [], []. split; [reflexivity | congruence].
  - destruct (matcher (c :: s)) eqn:E.
    + exists [], (c :: s). split; [reflexivity | congruence].
    + destruct (IH g H) as (before & rest & -> & Hm).
      exists (c :: before), rest. split; [reflexivity | exact Hm].
Qed.

Lemma channel_url_truthy s g : channel_url s = Some g -> truthy g = true.
Proof.
  unfold channel_url.
  destruct (prefix_ci (lit "youtube.com/channel/") s) as [r |]; [| discriminate].
  destruct (prefix_ci (lit "UC") r) as [r' |] eqn:E; [| discriminate].
  destruct (20 <=? span id_char r')%nat; [| discriminate].
  intro H. injection H as <-.
  apply TextFacts.prefix_with_suffix in E. destruct E as (p & -> & Hp).
  destruct p as [| c p]; [discriminate | reflexivity].
Qed.

Lemma try_extract_channel_id_truthy raw g :
  _try_extract_channel_id raw = Some g ->
  truthy g = true /\ truthy raw = true.
Proof.
  unfold _try_extract_channel_id.
  destruct (re_search channel_url raw) as [m |] eqn:E.
  - intro H. injection H as <-.
    apply re_search_found in E. destruct E as (before & rest & -> & Hm).
    split; [eapply channel_url_truthy; eauto |].
    destruct before; [| reflexivity].
    destruct rest; [discriminate | reflexivity].
  - destruct raw as [| c raw]; [discriminate |].
    destruct (startswith (c :: raw) (lit "UC") && _); [| discriminate].
    intro H. injection H as <-. split; reflexivity.
Qed.

Lemma re_search_complete {A} (matcher : text -> option A) :
  forall before rest g,
    matcher rest = Some g ->
    exists g', re_search matcher (before ++ rest) = Some g'.
Proof.
  induction before as [| c before IH]; intros rest g H.
  - destruct rest; cbn [app re_search]; rewrite H; eauto.
  - cbn [app re_search]. destruct (matcher (c :: before ++ rest)); eauto.
Qed.

Lemma try_extract_handle_truthy raw handle :
  _try_extract_handle raw = Some handle -> truthy raw = true.
Proof. destruct raw; [vm_compute; discriminate | reflexivity]. Qed.




End ScraperFacts.

(** ** The [--all] batch *)

Module MainFacts.
Import Scraper Main Fixtures.
Local Open Scope world_scope.

Section Batch.
Variable lower : text -> text.
Variable sha256_hexdigest : text -> text.
Variable self : YouTubeCommentScraper.
Variable fuel : nat.
Variable per_video : Z.
Variable max_videos : option Z.

Local Abbreviation process :=
  (process_channel lower sha256_hexdigest self fuel per_video max_videos).
Local Abbreviation batch :=
  (batch_loop lower sha256_hexdigest self fuel per_video max_videos).
Local Abbreviation run :=
  (_run_for_channel lower sha256_hexdigest self fuel).

(** Once the channels of [before] are done, a channel that fails ends the
    loop with its error, whatever follows it in the list. *)
Lemma batch_loop_failure ch rest e w2 : forall before updated w done w1,
  batch before updated w = (Ok done, w1) ->
  process ch w1 = (Raise e, w2) ->
  batch (before ++ ch :: rest) updated w = (Raise e, w2).
Proof.
  induction before as [| a before IH]; intros updated w done w1 Hdone Hfail.
  - cbn [batch_loop] in Hdone. unfold ret in Hdone.
    injection Hdone as _ <-.
    cbn [app batch_loop]. unfold bind at 1. rewrite Hfail. reflexivity.
  - cbn [app batch_loop] in *. unfold bind at 1. unfold bind at 1 in Hdone.
    destruct (process a w) as [[d | e' |] w'];
      [| discriminate | discriminate].
    unfold bind at 1. unfold bind at 1 in Hdone.
    destruct (batch before (updated || snd d) w') as [[t | e' |] w''] eqn:Ht;
      [| discriminate | discriminate].
    rewrite (IH _ _ _ _ Ht); [reflexivity |].
    unfold ret in Hdone. injection Hdone as _ <-. exact Hfail.
Qed.

(** C1, as the code has it: the channels of a batch are processed in
    order, and the first channel that fails ends the run.  Its error leaves
    [main] (a failed resolution as [SystemExit], an error raised while its
    videos or comments are fetched as it is), and the world is left as it
    was at the failure: nothing is done for the channels after it. *)
Theorem first_failure_ends_batch
    (before : list channel) (ch : channel) (w : world)
    (done : list channel * bool) (w1 : world) :
  batch before false w = (Ok done, w1) ->
  (forall e w2,
     process ch w1 = (Raise e, w2) ->
     forall rest,
       main_all lower sha256_hexdigest self fuel per_video max_videos
                (before ++ ch :: rest) w
       = (Raise e, w2)) /\
  (forall exc w2,
     truthy (strip (channel_id ch)) = false ->
     resolve_channel_id self (Some (strip (name ch))) w1 = (Raise exc, w2) ->
     (forall n cause, exc <> SystemExit n cause) ->
     process ch w1 = (Raise (SystemExit (strip (name ch)) exc), w2)) /\
  (forall e w2,
     truthy (strip (channel_id ch)) = true ->
     run (strip (name ch)) (Some (strip (channel_id ch))) None per_video
         max_videos w1
     = (Raise e, w2) ->
     process ch w1 = (Raise e, w2)).
Proof.
  intro Hdone. split; [| split].
  - intros e w2 Hfail rest. unfold main_all, bind.
    rewrite (batch_loop_failure ch rest e w2 _ _ _ _ _ Hdone Hfail).
    reflexivity.
  - intros exc w2 Hblank Hres Hexc. unfold process_channel.
    rewrite Hblank. cbn [negb]. unfold bind, try_exception. rewrite Hres.
    destruct exc; try reflexivity.
    exfalso. eapply Hexc. reflexivity.
  - intros e w2 Hid Hrun. unfold process_channel.
    rewrite Hid. cbn [negb]. unfold bind at 1. unfold ret at 1.
    unfold bind at 1. rewrite Hrun. reflexivity.
Qed.
End Batch.


Lemma first_failure_ends_batch_witness :
  exists w',
    main_all Cleaning.ascii_lower digest service 5 100 None [gone; fine]
             Collaborator.fresh
    = (Raise (ValueError "Channel not found"), w') /\
    exports (trace w') = [].
Proof.
  destruct (first_failure_ends_batch Cleaning.ascii_lower digest service 5
              100%Z None [] gone Collaborator.fresh ([], false)
              Collaborator.fresh eq_refl) as (Habort & _).
  eexists. split.
  - apply (Habort (ValueError "Channel not found")). vm_compute. reflexivity.
  - reflexivity.
Defined.

(** C1 as the specification words it fails: [fine] is processed when it is
    alone in the batch, and is not when [gone] fails before it. *)
Lemma sibling_is_not_processed :
  (exists w',
     main_all Cleaning.ascii_lower digest service 5 100 None [fine]
              Collaborator.fresh
     = (Ok tt, w') /\
     exports (trace w') = [lit "Fine"]) /\
  (exists e w',
     main_all Cleaning.ascii_lower digest service 5 100 None [gone; fine]
              Collaborator.fresh
     = (Raise e, w') /\
     exports (trace w') = [] /\
     requests (trace w') = [ChannelsListById (lit "XCgone")]).
Proof.
  split.
  - eexists. split; vm_compute; reflexivity.
  - eexists. eexists. repeat split; vm_compute; reflexivity.
Qed.

End MainFacts.

(** ** The stored author digest *)

Module AnonymizationFacts.
Import Scraper.

(** Two comments by the same author display name get the same
    [username_hash], whatever the rest of the comments is. *)
Lemma username_hash_deterministic
    (sha256_hexdigest : text -> text) (title1 title2 : text) (it1 it2 : item) :
  authorDisplayName (topLevelComment it1)
  = authorDisplayName (topLevelComment it2) ->
  username_hash (to_record sha256_hexdigest title1 it1)
  = username_hash (to_record sha256_hexdigest title2 it2).
Proof. intro H. cbn [to_record username_hash]. rewrite H. reflexivity. Qed.

End AnonymizationFacts.

(** ** Pacing and the request counter *)

Module PacingFacts.
Import Scraper Run Pacing ScraperFacts.
Local Open Scope world_scope.

Section WithSelf.
Variable self : YouTubeCommentScraper.

Lemma well_paced_app_bounded b : forall n a,
  (List.length a <= n)%nat ->
  well_paced self a = true ->
  well_paced self (a ++ b) = well_paced self b.
Proof.
  induction n as [| n IH]; intros a Hn Ha.
  - destruct a; [reflexivity | simpl in Hn; lia].
  - destruct a as [| e a]; [reflexivity |].
    simpl in Hn.
    destruct e as [s | d | r | name rows | chs].
    + destruct a as [| e' a]; [discriminate |].
      destruct e'; try discriminate.
      cbn [well_paced app] in *.
      apply andb_true_iff in Ha. destruct Ha as [Hp Ha].
      rewrite Hp. cbn [andb]. apply IH; [simpl in Hn; lia | exact Ha].
    + cbn [well_paced app] in *. apply IH; [lia | exact Ha].
    + cbn [well_paced app] in *.
      apply andb_true_iff in Ha. destruct Ha as [Hp Ha].
      rewrite Hp. cbn [andb]. apply IH; [lia | exact Ha].
    + cbn [well_paced app] in *. apply IH; [lia | exact Ha].
    + cbn [well_paced app] in *. apply IH; [lia | exact Ha].
Qed.

Lemma well_paced_app a b :
  well_paced self a = true -> well_paced self b = true ->
  well_paced self (a ++ b) = true.
Proof.
  intros Ha Hb. rewrite (well_paced_app_bounded b (List.length a) a); auto.
Qed.

Lemma steps_refl w : steps self w w.
Proof.
  exists []. rewrite app_nil_r. repeat split. simpl. lia.
Qed.

Lemma steps_trans w1 w2 w3 :
  steps self w1 w2 -> steps self w2 w3 -> steps self w1 w3.
Proof.
  intros (a & Ha & Hpa & Hca) (b & Hb & Hpb & Hcb).
  exists (a ++ b). repeat split.
  - rewrite Hb, Ha. symmetry. apply app_assoc.
  - apply well_paced_app; assumption.
  - rewrite Hcb, Hca, requests_app, length_app. lia.
Qed.

Lemma steps_executed r w : steps self w (executed self r w).
Proof.
  unfold executed, paced, steps.
  destruct (Qle_bool (_sleep_seconds self) 0) eqn:E.
  - exists [Execute r]. cbn [trace calls]. repeat split.
    + cbn [well_paced]. unfold pacing_on. rewrite E. reflexivity.
    + simpl. lia.
  - exists [Pace (_sleep_seconds self); Execute r]. cbn [trace calls log].
    repeat split.
    + rewrite <- app_assoc. reflexivity.
    + cbn [well_paced]. unfold pacing_on. rewrite E.
      rewrite (proj2 (Qeq_bool_iff _ _) (Qeq_refl _)). reflexivity.
    + simpl. lia.
Qed.

Lemma steps_backed_off a w : steps self w (backed_off a w).
Proof.
  exists [Backoff (backoff_delay a)]. repeat split. simpl. lia.
Qed.

(** *** The combinators *)

Lemma keeps_ret {A} (a : A) : keeps self (ret a).
Proof. intro w. apply steps_refl. Qed.

Lemma keeps_raise {A} e : keeps self (@raise A e).
Proof. intro w. apply steps_refl. Qed.

Lemma keeps_diverge {A} : keeps self (@diverge A).
Proof. intro w. apply steps_refl. Qed.

Lemma keeps_bind {A B} (c : M A) (k : A -> M B) :
  keeps self c -> (forall a, keeps self (k a)) -> keeps self (bind c k).
Proof.
  intros Hc Hk w. unfold bind. specialize (Hc w).
  destruct (c w) as [[a | e |] w1]; cbn [snd] in *; try exact Hc.
  eapply steps_trans; [exact Hc | apply Hk].
Qed.

Lemma keeps_try_http {A} (c : M A) (h : Z -> M A) :
  keeps self c -> (forall status, keeps self (h status)) ->
  keeps self (try_http c h).
Proof.
  intros Hc Hh w. unfold try_http. specialize (Hc w).
  destruct (c w) as [[a | e |] w1]; cbn [snd] in *; try exact Hc.
  destruct e; try exact Hc.
  eapply steps_trans; [exact Hc | apply Hh].
Qed.

Lemma keeps_try_exception {A} (c : M A) (h : exn -> M A) :
  keeps self c -> (forall e, keeps self (h e)) ->
  keeps self (try_exception c h).
Proof.
  intros Hc Hh w. unfold try_exception. specialize (Hc w).
  destruct (c w) as [[a | e |] w1]; cbn [snd] in *; try exact Hc.
  destruct e; try exact Hc; (eapply steps_trans; [exact Hc | apply Hh]).
Qed.

(** *** The methods *)

Lemma keeps_retry_loop r max_retries : forall fuel attempt,
  keeps self (retry_loop self r max_retries fuel attempt).
Proof.
  induction fuel as [| fuel IH]; intros attempt w; [apply steps_refl |].
  rewrite retry_loop_step.
  destruct (_youtube self (calls w) r); cbn [snd];
    try apply steps_executed.
  destruct (Z.gtb (attempt + 1) max_retries); [apply steps_executed |].
  destruct (transient status); [| apply steps_executed].
  eapply steps_trans; [apply steps_executed |].
  eapply steps_trans; [apply steps_backed_off | apply IH].
Qed.

Lemma keeps_execute_with_retry r : keeps self (_execute_with_retry self r).
Proof. apply keeps_retry_loop. Qed.

Lemma keeps_get_uploads channel_id :
  keeps self (_get_uploads_playlist_id self channel_id).
Proof.
  unfold _get_uploads_playlist_id.
  apply keeps_bind; [apply keeps_execute_with_retry |].
  intro response. destruct (items response) as [| first rest];
    [apply keeps_raise |].
  destruct (uploads first) as [u |]; [| apply keeps_raise].
  destruct (truthy u); [apply keeps_ret | apply keeps_raise].
Qed.

Lemma keeps_playlist_loop playlist max_videos :
  forall fuel video_ids page_token,
    keeps self (playlist_loop self playlist max_videos fuel video_ids
                              page_token).
Proof.
  induction fuel as [| fuel IH]; intros video_ids page_token;
    [apply keeps_diverge |].
  cbn [playlist_loop].
  apply keeps_bind; [apply keeps_execute_with_retry |].
  intro response.
  destruct (collect_video_ids _ _ _); [apply keeps_ret |].
  destruct (token_present _); [apply IH | apply keeps_ret].
Qed.

Lemma keeps_get_video_title video_id :
  keeps self (_get_video_title self video_id).
Proof.
  unfold _get_video_title.
  apply keeps_bind; [apply keeps_execute_with_retry |].
  intro response. destruct (items response); apply keeps_ret.
Qed.

Lemma keeps_comments_loop sha256_hexdigest video_id video_title limit :
  forall fuel page_token fetched yielded,
    keeps self (comments_loop self sha256_hexdigest video_id video_title
                              limit fuel page_token fetched yielded).
Proof.
  induction fuel as [| fuel IH]; intros page_token fetched yielded;
    cbn [comments_loop]; destruct (Z.ltb fetched limit);
    try apply keeps_ret; try apply keeps_diverge.
  apply keeps_bind.
  - apply keeps_try_http.
    + apply keeps_bind; [apply keeps_execute_with_retry |].
      intro r. apply keeps_ret.
    + intro status. destruct (_ || _)%bool; [apply keeps_ret | apply keeps_raise].
  - intros [response |]; [| apply keeps_ret].
    destruct (yield_items _ _ _ _ _ _) as [[f y] | [f y]]; [apply keeps_ret |].
    destruct (token_present _); [apply IH | apply keeps_ret].
Qed.

Lemma keeps_videos_loop sha256_hexdigest fuel limit :
  forall video_ids all_records,
    keeps self (videos_loop self sha256_hexdigest fuel limit video_ids
                            all_records).
Proof.
  induction video_ids as [| v rest IH]; intro all_records;
    cbn [videos_loop]; [apply keeps_ret |].
  apply keeps_bind; [apply keeps_get_video_title |]. intro title.
  apply keeps_bind; [apply keeps_comments_loop |]. intro records.
  apply IH.
Qed.

Lemma keeps_resolve_from_handle handle :
  keeps self (_resolve_channel_id_from_handle self handle).
Proof.
  unfold _resolve_channel_id_from_handle.
  destruct (negb _); [apply keeps_ret |].
  apply keeps_bind; [apply keeps_execute_with_retry |].
  intro response. destruct (items response); apply keeps_ret.
Qed.

Lemma keeps_resolve_from_search query :
  keeps self (_resolve_channel_id_from_search self query).
Proof.
  unfold _resolve_channel_id_from_search.
  apply keeps_bind; [apply keeps_execute_with_retry |].
  intro response. destruct (items response) as [| first rest];
    [apply keeps_ret |].
  destruct (channelId first) as [c |]; [| apply keeps_ret].
  destruct (truthy c); apply keeps_ret.
Qed.

Lemma keeps_resolve value : keeps self (resolve_channel_id self value).
Proof.
  unfold resolve_channel_id.
  destruct (negb _); [apply keeps_raise |].
  destruct (some_truthy (_try_extract_channel_id _)); [apply keeps_ret |].
  apply keeps_bind.
  - destruct (some_truthy (_try_extract_handle _));
      [apply keeps_resolve_from_handle | apply keeps_ret].
  - intro channel_id. destruct (some_truthy channel_id); [apply keeps_ret |].
    apply keeps_bind; [apply keeps_resolve_from_search |].
    intro found. destruct (some_truthy found);
      [apply keeps_ret | apply keeps_raise].
Qed.

(** X1: whatever the service answers, [resolve_channel_id],
    [fetch_video_ids_from_channel] and [fetch_comments_for_videos] only add
    to the trace; every request they make comes right after a pacing sleep
    of [_sleep_seconds] when that is positive (and no pacing sleep is made
    when it is not); and [calls] advances by the number of requests. *)
Theorem every_request_is_paced
    (sha256_hexdigest : text -> text) (fuel : nat) (w : world) :
  (forall value, steps self w (snd (resolve_channel_id self value w))) /\
  (forall channel_id max_videos,
     steps self w
       (snd (fetch_video_ids_from_channel self fuel channel_id max_videos w)))
  /\
  (forall video_ids per_video_limit,
     steps self w
       (snd (fetch_comments_for_videos self sha256_hexdigest fuel video_ids
                                       per_video_limit w))).
Proof.
  split; [| split].
  - intro value. apply keeps_resolve.
  - intros channel_id max_videos. unfold fetch_video_ids_from_channel.
    apply keeps_bind; [apply keeps_get_uploads |].
    intro playlist. apply keeps_playlist_loop.
  - intros video_ids limit. unfold fetch_comments_for_videos.
    destruct (_ || _)%bool; [apply keeps_raise | apply keeps_videos_loop].
Qed.

End WithSelf.

End PacingFacts.

(** ** Bounds that hold whatever the service answers *)

Module BoundFacts.
Import Scraper Run Bounds ScraperFacts.
Local Open Scope world_scope.
Local Open Scope Z_scope.

Section WithSelf.
Variable self : YouTubeCommentScraper.
Variable sha256_hexdigest : text -> text.

Section OneVideo.
Variable video_id video_title : text.
Variable limit : Z.

Local Abbreviation titled :=
  (Forall (fun r : CommentRecord => Scraper.video_title r = video_title)).

Lemma yield_items_bounded : forall its fetched yielded,
  fetched < limit ->
  fetched = Z.of_nat (List.length yielded) ->
  titled yielded ->
  let out := match yield_items sha256_hexdigest video_title limit its
                               fetched yielded with
             | Return p => p
             | Continue p => p
             end in
  fst out = Z.of_nat (List.length (snd out)) /\
  fst out <= limit /\
  titled (snd out).
Proof.
  induction its as [| it its IH]; intros fetched yielded Hlt Hlen Ht.
  - cbn. repeat split; [exact Hlen | lia | exact Ht].
  - cbn [yield_items].
    assert (Hlen' : fetched + 1
                    = Z.of_nat (List.length
                        (yielded ++ [to_record sha256_hexdigest video_title it])))
      by (rewrite length_app; simpl; lia).
    assert (Ht' : titled (yielded ++ [to_record sha256_hexdigest video_title it]))
      by (apply Forall_app; split; [exact Ht | repeat constructor]).
    destruct (Z.geb_spec (fetched + 1) limit) as [Hge | Hlt'].
    + cbn. repeat split; [exact Hlen' | lia | exact Ht'].
    + apply IH; assumption.
Qed.

Lemma comments_loop_bounded : forall fuel page_token fetched yielded w l w',
  fetched = Z.of_nat (List.length yielded) ->
  titled yielded ->
  comments_loop self sha256_hexdigest video_id video_title limit fuel
                page_token fetched yielded w = (Ok l, w') ->
  Z.of_nat (List.length l) <= Z.max fetched limit /\ titled l.
Proof.
  induction fuel as [| fuel IH];
    intros page_token fetched yielded w l w' Hlen Ht Hrun.
  - cbn [comments_loop] in Hrun.
    destruct (Z.ltb_spec fetched limit); [discriminate |].
    injection Hrun as <- _. split; [lia | exact Ht].
  - destruct (Z.ltb_spec fetched limit) as [Hlt | Hge].
    + rewrite comments_loop_step in Hrun by exact Hlt.
      destruct (_execute_with_retry self _ w) as [[response | e |] w1];
        [| | discriminate].
      * pose proof (yield_items_bounded (items response) fetched yielded
                      Hlt Hlen Ht) as Hy.
        cbv zeta in Hy.
        destruct (yield_items _ _ _ _ _ _) as [[f y] | [f y]];
          cbn [fst snd] in Hy; destruct Hy as (Hf & Hle & Hty).
        -- injection Hrun as <- _. split; [lia | exact Hty].
        -- destruct (token_present _).
           ++ destruct (IH _ _ _ _ _ _ Hf Hty Hrun) as [Hb Htl].
              split; [lia | exact Htl].
           ++ injection Hrun as <- _. split; [lia | exact Hty].
      * destruct e; try discriminate.
        destruct ((status_code =? 403) || (status_code =? 404))%bool;
          [| discriminate].
        injection Hrun as <- _. split; [lia | exact Ht].
    + cbn [comments_loop] in Hrun.
      destruct (Z.ltb_spec fetched limit); [lia |].
      injection Hrun as <- _. split; [lia | exact Ht].
Qed.

(** X2: whatever the service answers (pages larger than asked for, tokens
    that never end, errors), the list of records that
    [_fetch_top_level_comments] returns for a video has at most [limit]
    entries (none for a limit below 1), and each entry carries the title
    that was passed in. *)
Theorem comments_never_exceed_limit (fuel : nat) (w w' : world)
                                    (l : list CommentRecord) :
  _fetch_top_level_comments self sha256_hexdigest fuel video_id video_title
                            limit w = (Ok l, w') ->
  Z.of_nat (List.length l) <= Z.max 0 limit /\
  Forall (fun r => Scraper.video_title r = video_title) l.
Proof.
  intro Hrun.
  apply (comments_loop_bounded fuel None 0 [] w l w');
    [reflexivity | constructor | exact Hrun].
Qed.
End OneVideo.

Lemma videos_loop_bounded fuel limit : forall video_ids all_records w l w',
  videos_loop self sha256_hexdigest fuel limit video_ids all_records w
  = (Ok l, w') ->
  Z.of_nat (List.length l)
  <= Z.of_nat (List.length all_records)
     + Z.max 0 limit * Z.of_nat (List.length video_ids).
Proof.
  induction video_ids as [| v rest IH]; intros all_records w l w' Hrun.
  - cbn in Hrun. injection Hrun as <- _. lia.
  - cbn [videos_loop] in Hrun. unfold bind at 1 in Hrun.
    destruct (_get_video_title self v w) as [[title | e |] w1];
      [| discriminate | discriminate].
    unfold bind at 1 in Hrun.
    destruct (_fetch_top_level_comments self sha256_hexdigest fuel v title
                                        limit w1)
      as [[records | e |] w2] eqn:Hv; [| discriminate | discriminate].
    apply IH in Hrun.
    unfold _fetch_top_level_comments in Hv.
    destruct (comments_loop_bounded v title limit fuel None 0 [] w1 records w2
                eq_refl (Forall_nil _) Hv) as [Hb _].
    rewrite length_app in Hrun. cbn [List.length].
    rewrite Nat2Z.inj_succ, Z.mul_succ_r. lia.
Qed.

(** X3: when [fetch_comments_for_videos] returns, the per-video limit was
    between 100 and 500 and the number of records is at most the limit times
    the number of videos, whatever the service answered. *)
Theorem total_records_bounded (fuel : nat) (video_ids : list text)
                              (per_video_limit : Z) (w w' : world)
                              (l : list CommentRecord) :
  fetch_comments_for_videos self sha256_hexdigest fuel video_ids
                            per_video_limit w = (Ok l, w') ->
  100 <= per_video_limit <= 500 /\
  Z.of_nat (List.length l)
  <= per_video_limit * Z.of_nat (List.length video_ids).
Proof.
  unfold fetch_comments_for_videos.
  destruct (Z.ltb_spec per_video_limit 100); [discriminate |].
  destruct (Z.gtb_spec per_video_limit 500); [discriminate |].
  cbn [orb]. intro Hrun. split; [lia |].
  apply videos_loop_bounded in Hrun. cbn [List.length] in Hrun.
  rewrite Z.max_r in Hrun by lia. lia.
Qed.

(** *** Video identifiers *)

Lemma collect_video_ids_bounded max_videos : forall its video_ids,
  Collaborator.all_truthy video_ids ->
  within_cap max_videos true video_ids ->
  match collect_video_ids max_videos its video_ids with
  | Return l => Collaborator.all_truthy l /\ within_cap max_videos false l
  | Continue l => Collaborator.all_truthy l /\ within_cap max_videos true l
  end.
Proof.
  induction its as [| it its IH]; intros video_ids Ht Hc.
  - cbn. split; assumption.
  - cbn [collect_video_ids].
    destruct (videoId it) as [vid |]; [| apply IH; assumption].
    destruct (truthy vid) eqn:Hv; [| apply IH; assumption].
    assert (Ht' : Collaborator.all_truthy (video_ids ++ [vid]))
      by (apply Forall_app; split; [exact Ht | repeat constructor; exact Hv]).
    destruct (cap_reached max_videos (video_ids ++ [vid])) eqn:Hcap.
    + split; [exact Ht' |]. intros m Hm H1. specialize (Hc m Hm H1).
      cbn in Hc. rewrite length_app. simpl. lia.
    + apply IH; [exact Ht' |]. intros m Hm H1. subst max_videos.
      cbn [cap_reached] in Hcap.
      destruct (Z.geb_spec (Z.of_nat (List.length (video_ids ++ [vid]))) m);
        [discriminate | assumption].
Qed.

Lemma playlist_loop_bounded playlist max_videos :
  forall fuel video_ids page_token w l w',
    Collaborator.all_truthy video_ids ->
    within_cap max_videos true video_ids ->
    playlist_loop self playlist max_videos fuel video_ids page_token w
    = (Ok l, w') ->
    Collaborator.all_truthy l /\ within_cap max_videos false l.
Proof.
  induction fuel as [| fuel IH]; intros video_ids page_token w l w' Ht Hc Hrun;
    [discriminate |].
  cbn [playlist_loop] in Hrun. unfold bind at 1 in Hrun.
  destruct (_execute_with_retry self _ w) as [[response | e |] w1];
    [| discriminate | discriminate].
  pose proof (collect_video_ids_bounded max_videos (items response) video_ids
                Ht Hc) as Hcol.
  destruct (collect_video_ids _ _ _) as [ids | ids]; destruct Hcol as [Ht' Hc'].
  - injection Hrun as <- _. split; assumption.
  - destruct (token_present _).
    + eapply IH; eauto.
    + injection Hrun as <- _. split; [exact Ht' |].
      intros m Hm H1. specialize (Hc' m Hm H1). cbn in *. lia.
Qed.

(** X4: whatever the service answers, every identifier that
    [fetch_video_ids_from_channel] returns is a non-empty string, and with a
    cap of at least 1 it returns at most that many. *)
Theorem video_ids_within_cap (fuel : nat) (channel_id : text)
                             (max_videos : option Z) (w w' : world)
                             (l : list text) :
  fetch_video_ids_from_channel self fuel channel_id max_videos w = (Ok l, w') ->
  Forall (fun v => truthy v = true) l /\
  (forall m, max_videos = Some m -> 1 <= m -> Z.of_nat (List.length l) <= m).
Proof.
  unfold fetch_video_ids_from_channel, bind. intro Hrun.
  destruct (_get_uploads_playlist_id self channel_id w) as [[p | e |] w1];
    [| discriminate | discriminate].
  apply (playlist_loop_bounded p max_videos fuel [] None w1 l w');
    [constructor | | exact Hrun].
  intros m Hm H1. cbn. lia.
Qed.

End WithSelf.

Lemma comments_never_exceed_limit_witness :
  let cs := repeat Collaborator.blank_snippet 3 in
  let self := {| _youtube := Collaborator.simulated [] cs;
                 _sleep_seconds := 0%Q |} in
  let out := _fetch_top_level_comments self (fun name => name) 1 (lit "v")
                                       (lit "t") 2 Collaborator.fresh in
  exists l, fst out = Ok l /\ List.length l = 2%nat /\
            Z.of_nat (List.length l) <= Z.max 0 2.
Proof.
  intros cs self out.
  destruct out as [[l | e |] w'] eqn:E; try (vm_compute in E; discriminate).
  exists l. split; [reflexivity |]. split.
  - vm_compute in E. injection E as <- _. reflexivity.
  - apply (comments_never_exceed_limit self (fun name => name) (lit "v")
             (lit "t") 2 1%nat Collaborator.fresh w' l E).
Defined.

Lemma total_records_bounded_witness :
  let cs := repeat Collaborator.blank_snippet 3 in
  let self := {| _youtube := Collaborator.simulated [] cs;
                 _sleep_seconds := 0%Q |} in
  let out := fetch_comments_for_videos self (fun name => name) 1
               [lit "a"; lit "b"] 100 Collaborator.fresh in
  exists l, fst out = Ok l /\
            Z.of_nat (List.length l) <= 100 * 2.
Proof.
  intros cs self out.
  destruct out as [[l | e |] w'] eqn:E; try (vm_compute in E; discriminate).
  exists l. split; [reflexivity |].
  apply (total_records_bounded self (fun name => name) 1%nat
           [lit "a"; lit "b"] 100 Collaborator.fresh w' l E).
Defined.

Lemma video_ids_within_cap_witness :
  let ids := [lit "v1"; lit "v2"; lit "v3"] in
  let self := {| _youtube := Collaborator.simulated ids [];
                 _sleep_seconds := 0%Q |} in
  let out := fetch_video_ids_from_channel self 2 (lit "UCx") (Some 2)
                                          Collaborator.fresh in
  exists l, fst out = Ok l /\ Z.of_nat (List.length l) <= 2.
Proof.
  intros ids self out.
  destruct out as [[l | e |] w'] eqn:E; try (vm_compute in E; discriminate).
  exists l. split; [reflexivity |].
  destruct (video_ids_within_cap self 2%nat (lit "UCx") (Some 2)
              Collaborator.fresh w' l E) as [_ Hcap].
  apply (Hcap 2); [reflexivity | lia].
Defined.

End BoundFacts.

(** ** How the fetchers compose, and their other paths *)

Module FetchFacts.
Import Scraper Run ScraperFacts.
Local Open Scope world_scope.
Local Open Scope Z_scope.

Section WithSelf.
Variable self : YouTubeCommentScraper.
Variable sha256_hexdigest : text -> text.

Local Abbreviation fetch := (fetch_comments_for_videos self sha256_hexdigest).
Local Abbreviation loop := (videos_loop self sha256_hexdigest).

Lemma videos_loop_acc fuel limit : forall video_ids all_records w,
  loop fuel limit video_ids all_records w =
  match loop fuel limit video_ids [] w with
  | (Ok records, w') => (Ok (all_records ++ records), w')
  | other => other
  end.
Proof.
  induction video_ids as [| v rest IH]; intros all_records w.
  - cbn. rewrite app_nil_r. reflexivity.
  - cbn [videos_loop]. unfold bind at 1 3.
    destruct (_get_video_title self v w) as [[title | e |] w1];
      [| reflexivity | reflexivity].
    unfold bind at 1 2.
    destruct (_fetch_top_level_comments self sha256_hexdigest fuel v title
                                        limit w1)
      as [[records | e |] w2]; [| reflexivity | reflexivity].
    rewrite (IH (all_records ++ records)), (IH ([] ++ records)).
    destruct (loop fuel limit rest [] w2) as [[r | e |] w3];
      [| reflexivity | reflexivity].
    cbn [app]. rewrite app_assoc. reflexivity.
Qed.

Lemma videos_loop_app fuel limit b : forall a all_records w,
  loop fuel limit (a ++ b) all_records w =
  match loop fuel limit a all_records w with
  | (Ok records, w') => loop fuel limit b records w'
  | other => other
  end.
Proof.
  induction a as [| v rest IH]; intros all_records w; [reflexivity |].
  cbn [app videos_loop]. unfold bind at 1 3.
  destruct (_get_video_title self v w) as [[title | e |] w1];
    [| reflexivity | reflexivity].
  unfold bind at 1 2.
  destruct (_fetch_top_level_comments self sha256_hexdigest fuel v title
                                      limit w1)
    as [[records | e |] w2]; [| reflexivity | reflexivity].
  apply IH.
Qed.

(** X5: the records of a list of videos are those of its parts, in the
    order of the list: fetching [a ++ b] is fetching [a], then [b] in the
    world that leaves, and appending; when either part raises or does not
    finish, so does the whole, in the same world, and no record is
    returned. *)
Theorem fetch_concatenates (fuel : nat) (a b : list text)
                           (per_video_limit : Z) (w : world) :
  fetch fuel (a ++ b) per_video_limit w =
  match fetch fuel a per_video_limit w with
  | (Ok records_a, w1) =>
      match fetch fuel b per_video_limit w1 with
      | (Ok records_b, w2) => (Ok (records_a ++ records_b), w2)
      | other => other
      end
  | other => other
  end.
Proof.
  unfold fetch_comments_for_videos.
  destruct ((per_video_limit <? 100) || (per_video_limit >? 500))%bool;
    [reflexivity |].
  rewrite videos_loop_app.
  destruct (loop fuel per_video_limit a [] w) as [[ra | e |] w1];
    [| reflexivity | reflexivity].
  apply videos_loop_acc.
Qed.

(** X6: a video whose first page of comments is refused with 403 or 404
    contributes no record and does not stop the run: the videos after it
    are fetched as if the list had started with them. *)
Theorem access_error_skips_video
    (fuel : nat) (video_id : text) (rest : list text) (per_video_limit : Z)
    (w w1 : world) (title : text) (status : Z) :
  100 <= per_video_limit <= 500 ->
  _get_video_title self video_id w = (Ok title, w1) ->
  _youtube self (calls w1) (CommentThreadsList video_id 100 None)
  = HttpFailure status ->
  status = 403 \/ status = 404 ->
  fetch (S fuel) (video_id :: rest) per_video_limit w
  = fetch (S fuel) rest per_video_limit
          (executed self (CommentThreadsList video_id 100 None) w1).
Proof.
  intros Hrange Htitle Hfail Hst. unfold fetch_comments_for_videos.
  destruct (Z.ltb_spec per_video_limit 100); [lia |].
  destruct (Z.gtb_spec per_video_limit 500); [lia |].
  cbn [orb videos_loop]. unfold bind at 1. rewrite Htitle.
  unfold bind at 1. unfold _fetch_top_level_comments.
  rewrite comments_loop_step by lia.
  replace (Z.min 100 (per_video_limit - 0)) with 100 by lia.
  rewrite execute_with_retry_step, Hfail, (access_not_transient _ Hst).
  destruct Hst as [-> | ->]; reflexivity.
Qed.

(** X7: an answer that is not a transient [HttpError] is final: a success,
    an exception that is not [HttpError], or a status other than 429, 500
    and 503 ends [_execute_with_retry] after one request and no backoff,
    with that response or that exception. *)
Theorem only_transient_errors_are_retried (r : request) (w : world) :
  (forall status,
     _youtube self (calls w) r = HttpFailure status ->
     transient status = false) ->
  _execute_with_retry self r w
  = (raised (_youtube self (calls w) r), executed self r w) /\
  requests (trace (executed self r w)) = requests (trace w) ++ [r] /\
  backoffs (trace (executed self r w)) = backoffs (trace w).
Proof.
  intro Hfinal. split; [| split].
  - rewrite execute_with_retry_step.
    destruct (_youtube self (calls w) r) as [resp | status | msg];
      try reflexivity.
    rewrite (Hfinal status eq_refl). reflexivity.
  - apply requests_executed.
  - apply backoffs_executed.
Qed.

(** X8: a channel that the service does not know, or that has no uploads
    collection, ends [fetch_video_ids_from_channel] with a [ValueError]
    after the one lookup; no page is requested. *)
Theorem unusable_channel_is_rejected
    (fuel : nat) (channel_id : text) (max_videos : option Z) (w : world)
    (resp : response) :
  _youtube self (calls w) (ChannelsListById channel_id) = Success resp ->
  (items resp = [] ->
   fetch_video_ids_from_channel self fuel channel_id max_videos w
   = (Raise (ValueError "Channel not found"),
      executed self (ChannelsListById channel_id) w)) /\
  (forall first others,
     items resp = first :: others ->
     uploads first = None \/ uploads first = Some [] ->
     fetch_video_ids_from_channel self fuel channel_id max_videos w
     = (Raise (ValueError "Uploads playlist not available for channel"),
        executed self (ChannelsListById channel_id) w)).
Proof.
  intro Hresp. unfold fetch_video_ids_from_channel, _get_uploads_playlist_id.
  unfold bind. rewrite (execute_with_retry_success _ _ _ _ Hresp).
  split.
  - intros ->. reflexivity.
  - intros first others -> [-> | ->]; reflexivity.
Qed.

End WithSelf.

(** *** The whole uploads collection *)

Section AllUploads.
Variable self : YouTubeCommentScraper.
Variable playlist : text.
Variable ids : list text.
Variable tok : nat -> text.
Variable max_videos : option Z.
Hypothesis served :
  Collaborator.serves_uploads (_youtube self) playlist ids tok.
Hypothesis tokens : forall offset, truthy (tok offset) = true.
Hypothesis identifiers : Collaborator.all_truthy ids.
Hypothesis above :
  forall m, max_videos = Some m -> Z.of_nat (List.length ids) < m.

Local Abbreviation uploads_request :=
  (Collaborator.uploads_request playlist tok).

Lemma cap_not_reached (l : list text) :
  (List.length l <= List.length ids)%nat -> cap_reached max_videos l = false.
Proof.
  intro Hl. unfold cap_reached. destruct max_videos as [m |]; [| reflexivity].
  specialize (above m eq_refl).
  destruct (Z.geb_spec (Z.of_nat (List.length l)) m); [lia | reflexivity].
Qed.

Lemma collect_video_ids_uncapped : forall l video_ids,
  Collaborator.all_truthy l ->
  (List.length video_ids + List.length l <= List.length ids)%nat ->
  collect_video_ids max_videos (map Collaborator.video_item l) video_ids
  = Continue (video_ids ++ l).
Proof.
  induction l as [| v l IH]; intros video_ids Hl Hlen.
  - cbn. rewrite app_nil_r. reflexivity.
  - inversion Hl as [| ? ? Hv Hl']; subst.
    cbn [map collect_video_ids Collaborator.video_item videoId].
    cbn [List.length] in Hlen.
    rewrite Hv, cap_not_reached by (rewrite length_app; simpl; lia).
    rewrite IH; [| exact Hl' | rewrite length_app; simpl; lia].
    rewrite <- app_assoc. reflexivity.
Qed.

Lemma playlist_loop_exhausts : forall pages offset fuel w,
  (offset <= List.length ids)%nat ->
  (List.length ids <= offset + 50 * S pages)%nat ->
  (pages = O \/ offset + 50 * pages < List.length ids)%nat ->
  (pages < fuel)%nat ->
  exists w',
    playlist_loop self playlist max_videos fuel (firstn offset ids)
                  (Collaborator.page_token tok offset) w
    = (Ok ids, w') /\
    requests (trace w')
    = requests (trace w)
      ++ map (fun j => uploads_request (offset + 50 * j)) (seq 0 (S pages)).
Proof.
  induction pages as [| pages IH]; intros offset fuel w Ho Hhi Hlo Hfuel;
    (destruct fuel as [| fuel]; [lia |]);
    cbn [playlist_loop]; unfold bind at 1;
    rewrite (execute_with_retry_success _ _ _ _ (served (calls w) 50 offset));
    unfold Collaborator.page; cbn [items nextPageToken];
    change (Z.to_nat 50) with 50%nat;
    (rewrite collect_video_ids_uncapped;
       [| apply Forall_slice, identifiers
        | rewrite !length_firstn, length_skipn; lia]);
    rewrite <- firstn_plus.
  - destruct (Nat.ltb_spec (offset + 50) (List.length ids)); [lia |].
    cbn [token_present].
    exists (executed self (uploads_request offset) w). split.
    + rewrite firstn_all2 by lia. reflexivity.
    + rewrite requests_executed. cbn [seq map].
      rewrite Nat.mul_0_r, Nat.add_0_r. reflexivity.
  - destruct (Nat.ltb_spec (offset + 50) (List.length ids)); [| lia].
    cbn [token_present]. rewrite tokens.
    destruct (IH (offset + 50)%nat fuel
                 (executed self (uploads_request offset) w))
      as (w' & Hrun & Hreq); try lia.
    exists w'. split.
    + replace (Collaborator.page_token tok (offset + 50))
        with (Some (tok (offset + 50)%nat)) in Hrun
        by (destruct offset; reflexivity).
      exact Hrun.
    + rewrite Hreq, requests_executed, <- app_assoc. f_equal.
      change (seq 0 (S (S pages))) with (0%nat :: seq 1 (S pages)).
      cbn [map app]. rewrite Nat.mul_0_r, Nat.add_0_r. f_equal.
      rewrite <- (seq_shift (S pages) 0), map_map. apply map_ext.
      intro j. f_equal. lia.
Qed.

(** X9: without a cap, or with a cap above the number of uploads, the
    enumerator returns every identifier of the collection, in its order,
    and stops at the page that carries no continuation token: it asks for
    the pages at the offsets 0, 50, ..., one page even for an empty
    collection. *)
Theorem uploads_exhausted (channel_id : text) (fuel : nat) (w w1 : world) :
  _get_uploads_playlist_id self channel_id w = (Ok playlist, w1) ->
  let pages := Nat.max 1 ((List.length ids + 49) / 50) in
  (pages <= fuel)%nat ->
  exists w',
    fetch_video_ids_from_channel self fuel channel_id max_videos w
    = (Ok ids, w') /\
    requests (trace w')
    = requests (trace w1)
      ++ map (fun j => uploads_request (50 * j)) (seq 0 pages).
Proof.
  intros Hup pages Hfuel. subst pages.
  pose proof (Nat.div_mod_eq (List.length ids + 49) 50) as Hdiv.
  pose proof (Nat.mod_upper_bound (List.length ids + 49) 50) as Hmod.
  set (q := ((List.length ids + 49) / 50)%nat) in *.
  destruct (Nat.max 1 q) as [| pages] eqn:Hq; [lia |].
  destruct (playlist_loop_exhausts pages O fuel w1) as (w' & Hrun & Hreq);
    try lia.
  exists w'. split; [| exact Hreq].
  unfold fetch_video_ids_from_channel, bind. rewrite Hup. exact Hrun.
Qed.
End AllUploads.

(** *** A video with more comments than the limit *)

Section ManyComments.
Variable self : YouTubeCommentScraper.
Variable sha256_hexdigest : text -> text.
Variable video_id video_title : text.
Variable cs : list comment_snippet.
Variable tok : nat -> text.
Variable limit : Z.
Hypothesis served :
  Collaborator.serves_comments (_youtube self) video_id cs tok.
Hypothesis tokens : forall offset, truthy (tok offset) = true.
Hypothesis positive : 0 < limit.
Hypothesis many : limit < Z.of_nat (List.length cs).

Local Abbreviation comments_request :=
  (Collaborator.comments_request video_id tok limit).
Local Abbreviation record_of :=
  (fun c => to_record sha256_hexdigest video_title (Collaborator.comment_item c)).

Lemma comments_loop_done fuel page_token fetched yielded w :
  limit <= fetched ->
  comments_loop self sha256_hexdigest video_id video_title limit fuel
                page_token fetched yielded w = (Ok yielded, w).
Proof.
  intro Hge. destruct fuel; cbn [comments_loop];
    (destruct (Z.ltb_spec fetched limit); [lia | reflexivity]).
Qed.

Lemma comments_loop_capped : forall pages offset fuel w,
  Z.of_nat offset < limit ->
  limit <= Z.of_nat (offset + 100 * S pages) ->
  Z.of_nat (offset + 100 * pages) < limit ->
  (pages < fuel)%nat ->
  exists w',
    comments_loop self sha256_hexdigest video_id video_title limit fuel
                  (Collaborator.page_token tok offset) (Z.of_nat offset)
                  (map record_of (firstn offset cs)) w
    = (Ok (map record_of (firstn (Z.to_nat limit) cs)), w') /\
    requests (trace w')
    = requests (trace w)
      ++ map (fun j => comments_request (offset + 100 * j)) (seq 0 (S pages)).
Proof.
  induction pages as [| pages IH]; intros offset fuel w Hlim Hhi Hlo Hfuel;
    (destruct fuel as [| fuel]; [lia |]);
    rewrite comments_loop_step by exact Hlim;
    rewrite (execute_with_retry_success _ _ _ _
               (served (calls w) (Z.min 100 (limit - Z.of_nat offset)) offset));
    fold (Collaborator.comments_request video_id tok limit offset);
    unfold Collaborator.page; cbn [items nextPageToken];
    set (size := Z.to_nat (Z.min 100 (limit - Z.of_nat offset)));
    assert (Hpage : List.length (firstn size (skipn offset cs)) = size)
      by (rewrite length_firstn, length_skipn; lia);
    destruct (yield_items_page sha256_hexdigest video_title cs limit
                (firstn size (skipn offset cs))
                (Z.of_nat offset) (map record_of (firstn offset cs)))
      as [Hy | [Hy Hfull]]; try (rewrite Hpage; lia); rewrite Hy;
    rewrite <- map_app, <- firstn_plus, ?Hpage.
  - (* the last page, left by the test of the loop *)
    destruct (Nat.ltb_spec (offset + size) (List.length cs)); [| lia].
    cbn [token_present]. rewrite tokens.
    rewrite comments_loop_done by lia.
    exists (executed self (comments_request offset) w). split.
    + replace (offset + size)%nat with (Z.to_nat limit) by lia. reflexivity.
    + rewrite requests_executed. cbn [seq map].
      rewrite Nat.mul_0_r, Nat.add_0_r. reflexivity.
  - (* the last page, left by the return in the for loop *)
    exists (executed self (comments_request offset) w). split.
    + replace (offset + size)%nat with (Z.to_nat limit) by lia. reflexivity.
    + rewrite requests_executed. cbn [seq map].
      rewrite Nat.mul_0_r, Nat.add_0_r. reflexivity.
  - (* a full page below the limit *)
    destruct (Nat.ltb_spec (offset + size) (List.length cs)); [| lia].
    cbn [token_present]. rewrite tokens.
    replace size with 100%nat by lia.
    replace (Z.of_nat offset + Z.of_nat 100) with (Z.of_nat (offset + 100))
      by lia.
    destruct (IH (offset + 100)%nat fuel
                 (executed self (comments_request offset) w))
      as (w' & Hrun & Hreq); try lia.
    exists w'. split.
    + replace (Collaborator.page_token tok (offset + 100))
        with (Some (tok (offset + 100)%nat)) in Hrun
        by (destruct offset; reflexivity).
      exact Hrun.
    + rewrite Hreq, requests_executed, <- app_assoc. f_equal.
      change (seq 0 (S (S pages))) with (0%nat :: seq 1 (S pages)).
      cbn [map app]. rewrite Nat.mul_0_r, Nat.add_0_r. f_equal.
      rewrite <- (seq_shift (S pages) 0), map_map. apply map_ext.
      intro j. f_equal. lia.
  - lia.
Qed.

(** X10: for a video with more comments than the limit, served by pages, the
    fetcher returns the records of the first [limit] comments and makes
    [limit / 100] rounded up requests, each for [min(100, limit - fetched)]
    items; it does not ask for the page after the one that reaches the
    limit. *)
Theorem comments_capped_at_limit (fuel : nat) (w : world) :
  let pages := Z.to_nat ((limit + 99) / 100) in
  (pages <= fuel)%nat ->
  exists w',
    _fetch_top_level_comments self sha256_hexdigest fuel video_id
                              video_title limit w
    = (Ok (map record_of (firstn (Z.to_nat limit) cs)), w') /\
    List.length (map record_of (firstn (Z.to_nat limit) cs))
    = Z.to_nat limit /\
    requests (trace w')
    = requests (trace w)
      ++ map (fun j => comments_request (100 * j)) (seq 0 pages).
Proof.
  intros pages Hfuel. subst pages.
  pose proof (Z.div_mod (limit + 99) 100 ltac:(lia)) as Hdiv.
  pose proof (Z.mod_pos_bound (limit + 99) 100 ltac:(lia)) as Hmod.
  set (q := (limit + 99) / 100) in *.
  destruct (Z.to_nat q) as [| pages] eqn:Hq; [lia |].
  destruct (comments_loop_capped pages O fuel w) as (w' & Hrun & Hreq);
    try lia.
  exists w'. split; [exact Hrun |]. split; [| exact Hreq].
  rewrite length_map, length_firstn. lia.
Qed.
End ManyComments.

Lemma access_error_skips_video_witness :
  let page := {| items := [Collaborator.blank_item]; nextPageToken := None |} in
  let self := {| _youtube := Collaborator.scripted
                               [Success page; HttpFailure 403;
                                Success page; Success page];
                 _sleep_seconds := 0%Q |} in
  exists l w',
    fetch_comments_for_videos self (fun name => name) 1
                              [lit "a"; lit "b"] 100 Collaborator.fresh
    = (Ok l, w') /\ List.length l = 1%nat /\ calls w' = 4%nat.
Proof.
  intros page self.
  pose proof (access_error_skips_video self (fun name => name) 0 (lit "a")
                [lit "b"] 100 Collaborator.fresh
                (executed self (VideosList (lit "a")) Collaborator.fresh)
                [] 403 ltac:(lia) eq_refl eq_refl (or_introl eq_refl)) as H.
  eexists. eexists. split; [rewrite H; vm_compute; reflexivity |].
  split; reflexivity.
Defined.

Lemma only_transient_errors_are_retried_witness :
  let self := {| _youtube := Collaborator.scripted
                               [OtherFailure "timed out";
                                Success {| items := []; nextPageToken := None |}];
                 _sleep_seconds := 0%Q |} in
  _execute_with_retry self (VideosList (lit "v")) Collaborator.fresh
  = (Raise (OtherError "timed out"),
     {| calls := 1; trace := [Execute (VideosList (lit "v"))] |}).
Proof.
  intro self.
  destruct (only_transient_errors_are_retried self (VideosList (lit "v"))
              Collaborator.fresh) as (H & _).
  - intros status Hs. vm_compute in Hs. discriminate.
  - exact H.
Defined.

Lemma unusable_channel_is_rejected_witness :
  let self := {| _youtube := Collaborator.simulated_without 88 [] [];
                 _sleep_seconds := 0%Q |} in
  fetch_video_ids_from_channel self 3 (lit "XCgone") None Collaborator.fresh
  = (Raise (ValueError "Channel not found"),
     {| calls := 1; trace := [Execute (ChannelsListById (lit "XCgone"))] |}).
Proof.
  intro self.
  destruct (unusable_channel_is_rejected self 3%nat (lit "XCgone") None
              Collaborator.fresh {| items := []; nextPageToken := None |}
              eq_refl) as (H & _).
  apply H. reflexivity.
Defined.

Lemma uploads_exhausted_witness :
  let ids := [lit "v1"; lit "v2"; lit "v3"] in
  let self := {| _youtube := Collaborator.simulated ids [];
                 _sleep_seconds := 0%Q |} in
  exists w',
    fetch_video_ids_from_channel self 1 (lit "UCx") (Some 10)
                                 Collaborator.fresh
    = (Ok ids, w') /\
    List.length (requests (trace w')) = 2%nat.
Proof.
  intros ids self.
  destruct (uploads_exhausted self (lit "UU") ids Collaborator.sim_tok
              (Some 10)
              (simulated_serves_uploads ids [] (lit "UU"))
              (fun offset => eq_refl) ltac:(repeat constructor)
              ltac:(intros m Hm; injection Hm as <-; simpl; lia)
              (lit "UCx") 1%nat Collaborator.fresh
              (executed self (ChannelsListById (lit "UCx")) Collaborator.fresh)
              eq_refl ltac:(simpl; lia))
    as (w' & Hrun & Hreq).
  exists w'. split; [exact Hrun | rewrite Hreq; reflexivity].
Defined.

Lemma comments_capped_at_limit_witness :
  let cs := repeat Collaborator.blank_snippet 130 in
  let self := {| _youtube := Collaborator.simulated [] cs;
                 _sleep_seconds := 0%Q |} in
  exists l w',
    _fetch_top_level_comments self (fun name => name) 2 (lit "v") (lit "t")
                              120 Collaborator.fresh
    = (Ok l, w') /\
    List.length l = 120%nat /\
    requests (trace w')
    = [CommentThreadsList (lit "v") 100 None;
       CommentThreadsList (lit "v") 20 (Some (Collaborator.sim_tok 100))].
Proof.
  intros cs self.
  destruct (comments_capped_at_limit self (fun name => name) (lit "v")
              (lit "t") cs Collaborator.sim_tok 120
              (simulated_serves_comments [] cs (lit "v"))
              (fun offset => eq_refl) ltac:(lia) ltac:(simpl; lia)
              2%nat Collaborator.fresh ltac:(simpl; lia))
    as (w' & Hrun & Hlen & Hreq).
  eexists. exists w'. split; [exact Hrun |]. split; [exact Hlen | exact Hreq].
Defined.

End FetchFacts.

(** ** Channel resolution *)

Module ResolveFacts.
Import Scraper Run CleanForm TextFacts ScraperFacts.
Local Open Scope world_scope.

Lemma some_truthy_or_empty v : some_truthy v = true -> truthy (or_empty v) = true.
Proof. destruct v; [auto | discriminate]. Qed.

Lemma strip_clean s :
  leading_space (strip s) = false /\ trailing_space (strip s) = false.
Proof.
  unfold strip. split.
  - apply rstrip_leading, lstrip_leading.
  - apply rstrip_trailing.
Qed.

Lemma strip_or_none_clean s cid :
  strip_or_none s = Some cid ->
  truthy cid = true /\ leading_space cid = false /\ trailing_space cid = false.
Proof.
  unfold strip_or_none. destruct (truthy (strip s)) eqn:E; [| discriminate].
  intro H. injection H as <-. split; [exact E | apply strip_clean].
Qed.

(** X11: [resolve_channel_id] rejects a missing or blank value with a
    [ValueError] before any request, and an identifier it returns is never
    the empty string. *)
Theorem resolved_id_is_not_empty
    (self : YouTubeCommentScraper) (value : option text) (w : world) :
  (truthy (strip (or_empty value)) = false ->
   resolve_channel_id self value w
   = (Raise (ValueError "Missing channel identifier"), w)) /\
  (forall cid w',
     resolve_channel_id self value w = (Ok cid, w') -> truthy cid = true).
Proof.
  unfold resolve_channel_id. split.
  - intros ->. reflexivity.
  - intros cid w'.
    destruct (negb _); [discriminate |].
    destruct (some_truthy (_try_extract_channel_id _)) eqn:Hid.
    + intro H. injection H as <- _. apply some_truthy_or_empty. exact Hid.
    + unfold bind at 1.
      match goal with
      | |- context [(if ?c then ?a else ?b) w] =>
          destruct ((if c then a else b) w) as [[by_handle | e |] w1]
      end; [| discriminate | discriminate].
      destruct (some_truthy by_handle) eqn:Hh.
      * intro H. injection H as <- _. apply some_truthy_or_empty. exact Hh.
      * unfold bind at 1.
        destruct (_resolve_channel_id_from_search self _ w1)
          as [[by_search | e |] w2]; [| discriminate | discriminate].
        destruct (some_truthy by_search) eqn:Hs; [| discriminate].
        intro H. injection H as <- _. apply some_truthy_or_empty. exact Hs.
Qed.

Lemma resolved_id_is_not_empty_witness :
  let self := {| _youtube := Collaborator.simulated [] [];
                 _sleep_seconds := 0%Q |} in
  resolve_channel_id self (Some (lit "  ")) Collaborator.fresh
  = (Raise (ValueError "Missing channel identifier"), Collaborator.fresh) /\
  truthy (lit "UCabcdefghijklmnopqrst") = true.
Proof.
  intro self.
  destruct (resolved_id_is_not_empty self (Some (lit "  ")) Collaborator.fresh)
    as (Hblank & _).
  destruct (resolved_id_is_not_empty self (Some (lit "UCabcdefghijklmnopqrst"))
              Collaborator.fresh) as (_ & Hok).
  split.
  - apply Hblank. reflexivity.
  - apply (Hok _ Collaborator.fresh). vm_compute. reflexivity.
Defined.

(** X12: what the two remote lookups find is stripped and not empty.  The
    handle is looked up as [handle.lstrip("@").strip()]: when that is
    empty (an at-sign alone, at-signs followed by whitespace only), no
    request is made and nothing is found; when it is not, that text is what
    is looked up, also when it holds at-signs of its own (the handle
    [@ @] is looked up as [@]), and the first item of a successful answer
    decides what is found. *)
Theorem remote_lookups_are_stripped
    (self : YouTubeCommentScraper) (w : world) :
  (forall handle cid w',
     _resolve_channel_id_from_handle self handle w = (Ok (Some cid), w') ->
     truthy cid = true /\ leading_space cid = false /\
     trailing_space cid = false) /\
  (forall query cid w',
     _resolve_channel_id_from_search self query w = (Ok (Some cid), w') ->
     truthy cid = true /\ leading_space cid = false /\
     trailing_space cid = false) /\
  (forall handle,
     truthy (strip (lstrip_at handle)) = false ->
     _resolve_channel_id_from_handle self handle w = (Ok None, w)) /\
  (forall handle resp,
     truthy (strip (lstrip_at handle)) = true ->
     _youtube self (calls w)
              (ChannelsListForHandle (strip (lstrip_at handle)))
     = Success resp ->
     _resolve_channel_id_from_handle self handle w
     = (Ok match items resp with
           | [] => None
           | first :: _ => strip_or_none (or_empty (item_id first))
           end,
        executed self (ChannelsListForHandle (strip (lstrip_at handle))) w)).
Proof.
  split; [| split; [| split]].
  - intros handle cid w'. unfold _resolve_channel_id_from_handle.
    destruct (negb _); [discriminate |]. unfold bind.
    destruct (_execute_with_retry self _ w) as [[response | e |] w1];
      [| discriminate | discriminate].
    destruct (items response) as [| first rest]; [discriminate |].
    intro H. injection H as H _. eapply strip_or_none_clean; eauto.
  - intros query cid w'. unfold _resolve_channel_id_from_search, bind.
    destruct (_execute_with_retry self _ w) as [[response | e |] w1];
      [| discriminate | discriminate].
    destruct (items response) as [| first rest]; [discriminate |].
    destruct (channelId first) as [c |]; [| discriminate].
    destruct (truthy c); [| discriminate].
    intro H. injection H as H _. eapply strip_or_none_clean; eauto.
  - intros handle Hblank. unfold _resolve_channel_id_from_handle.
    rewrite Hblank. reflexivity.
  - intros handle resp Hh Hresp. unfold _resolve_channel_id_from_handle.
    rewrite Hh. cbn [negb]. unfold bind.
    rewrite (execute_with_retry_success _ _ _ _ Hresp).
    destruct (items resp); reflexivity.
Qed.

Lemma remote_lookups_are_stripped_witness :
  let found := {| item_id := Some (lit " UCfound "); videoId := None;
                  uploads := None; channelId := None; title := None;
                  topLevelComment := Collaborator.blank_snippet |} in
  let self := {| _youtube := Collaborator.scripted
                               [Success {| items := [found];
                                           nextPageToken := None |}];
                 _sleep_seconds := 0%Q |} in
  (exists w',
     _resolve_channel_id_from_handle self (lit "@nature") Collaborator.fresh
     = (Ok (Some (lit "UCfound")), w') /\
     leading_space (lit "UCfound") = false) /\
  _resolve_channel_id_from_handle self (lit "@@ ") Collaborator.fresh
  = (Ok None, Collaborator.fresh) /\
  _resolve_channel_id_from_handle self (lit "@ @") Collaborator.fresh
  = (Ok (Some (lit "UCfound")),
     {| calls := 1; trace := [Execute (ChannelsListForHandle (lit "@"))] |}).
Proof.
  intros found self.
  destruct (remote_lookups_are_stripped self Collaborator.fresh)
    as (Hh & _ & Hb & Hl).
  split; [| split].
  - eexists. split; [vm_compute; reflexivity |].
    eapply (Hh (lit "@nature")). vm_compute. reflexivity.
  - apply Hb. reflexivity.
  - apply (Hl (lit "@ @") {| items := [found]; nextPageToken := None |});
      reflexivity.
Defined.

(** X13: when no canonical identifier is extracted and the service finds
    nothing, the requests of the resolver are those of [Resolution.lookups]
    and no other: the lookup of [handle.lstrip("@").strip()] when a handle
    is extracted and that text is not empty (the input [@ @] is looked up
    as [@], the input [@@] is not looked up), then the search for the whole
    stripped input; and it ends with the [ValueError] of an unresolvable
    channel. *)
Theorem strategies_are_exhausted
    (self : YouTubeCommentScraper) (value : option text) (w : world) :
  (forall n r, _youtube self n r = Success Resolution.nothing) ->
  let raw := strip (or_empty value) in
  truthy raw = true ->
  _try_extract_channel_id raw = None ->
  exists w',
    resolve_channel_id self value w
    = (Raise (ValueError "Unable to resolve channel_id"), w') /\
    requests (trace w') = requests (trace w) ++ Resolution.lookups raw.
Proof.
  intros Hnothing raw Hraw Hid.
  unfold resolve_channel_id. fold raw. rewrite Hraw, Hid.
  cbn [negb some_truthy]. unfold Resolution.lookups.
  assert (Hsearch : forall w1,
            _resolve_channel_id_from_search self raw w1
            = (Ok None, executed self (SearchList raw) w1)).
  { intro w1. unfold _resolve_channel_id_from_search, bind.
    rewrite (execute_with_retry_success _ _ _ _ (Hnothing _ _)). reflexivity. }
  destruct (_try_extract_handle raw) as [handle |].
  - cbn [some_truthy or_empty]. destruct (truthy handle); cbn [andb].
    + unfold bind at 1. unfold _resolve_channel_id_from_handle.
      destruct (truthy (strip (lstrip_at handle))); cbn [negb].
      * unfold bind at 1.
        rewrite (execute_with_retry_success _ _ _ _ (Hnothing _ _)).
        cbn [Resolution.nothing items ret some_truthy].
        unfold bind. rewrite Hsearch. cbn [some_truthy].
        eexists. split; [reflexivity |].
        rewrite !requests_executed, <- app_assoc. reflexivity.
      * cbn [ret some_truthy]. unfold bind. rewrite Hsearch.
        cbn [some_truthy]. eexists. split; [reflexivity |].
        rewrite requests_executed. reflexivity.
    + unfold bind. cbn [ret some_truthy]. rewrite Hsearch. cbn [some_truthy].
      eexists. split; [reflexivity |].
      rewrite requests_executed. reflexivity.
  - cbn [some_truthy]. unfold bind. cbn [ret some_truthy]. rewrite Hsearch.
    cbn [some_truthy]. eexists. split; [reflexivity |].
    rewrite requests_executed. reflexivity.
Qed.

Lemma strategies_are_exhausted_witness :
  let self := {| _youtube := fun _ _ => Success Resolution.nothing;
                 _sleep_seconds := 0%Q |} in
  (exists w',
     resolve_channel_id self (Some (lit " @nature ")) Collaborator.fresh
     = (Raise (ValueError "Unable to resolve channel_id"), w') /\
     requests (trace w')
     = [ChannelsListForHandle (lit "nature"); SearchList (lit "@nature")]) /\
  (exists w',
     resolve_channel_id self (Some (lit "@ @")) Collaborator.fresh
     = (Raise (ValueError "Unable to resolve channel_id"), w') /\
     requests (trace w')
     = [ChannelsListForHandle (lit "@"); SearchList (lit "@ @")]) /\
  (exists w',
     resolve_channel_id self (Some (lit "@@")) Collaborator.fresh
     = (Raise (ValueError "Unable to resolve channel_id"), w') /\
     requests (trace w') = [SearchList (lit "@@")]).
Proof.
  intro self.
  split; [| split].
  - destruct (strategies_are_exhausted self (Some (lit " @nature "))
                Collaborator.fresh (fun _ _ => eq_refl) eq_refl eq_refl)
      as (w' & Hrun & Hreq).
    exists w'. split; [exact Hrun | exact Hreq].
  - destruct (strategies_are_exhausted self (Some (lit "@ @"))
                Collaborator.fresh (fun _ _ => eq_refl) eq_refl eq_refl)
      as (w' & Hrun & Hreq).
    exists w'. split; [exact Hrun | exact Hreq].
  - destruct (strategies_are_exhausted self (Some (lit "@@"))
                Collaborator.fresh (fun _ _ => eq_refl) eq_refl eq_refl)
      as (w' & Hrun & Hreq).
    exists w'. split; [exact Hrun | exact Hreq].
Defined.

(** *** The shape of what is extracted *)

Lemma span_le p : forall s, (span p s <= List.length s)%nat.
Proof.
  induction s as [| c s IH]; simpl; [lia |]. destruct (p c); simpl; lia.
Qed.

Lemma prefix_with_split eq pat : forall s r,
  prefix_with eq pat s = Some r ->
  exists p, s = p ++ r /\ List.length p = List.length pat /\
            forall x, prefix_with eq pat (p ++ x) = Some x.
Proof.
  induction pat as [| a pat IH]; intros s r H; simpl in H.
  - injection H as <-. exists []. auto.
  - destruct s as [| c s']; [discriminate |].
    destruct (eq a c) eqn:E; [| discriminate].
    destruct (IH _ _ H) as (p & -> & Hl & Hx).
    exists (c :: p). repeat split; [simpl; lia |].
    intro x. simpl. rewrite E. apply Hx.
Qed.

Lemma prefix_with_weaken (eq1 eq2 : N -> N -> bool) pat :
  (forall a c, eq1 a c = true -> eq2 a c = true) ->
  forall s r, prefix_with eq1 pat s = Some r -> prefix_with eq2 pat s = Some r.
Proof.
  intro Himp. induction pat as [| a pat IH]; intros s r H; simpl in *;
    [exact H |].
  destruct s as [| c s']; [discriminate |].
  destruct (eq1 a c) eqn:E; [| discriminate].
  rewrite (Himp _ _ E). apply IH. exact H.
Qed.

Lemma eqb_ci_eq a c : (a =? c)%N = true -> ci_eq a c = true.
Proof.
  intro H. apply N.eqb_eq in H. subst. unfold ci_eq. apply N.eqb_refl.
Qed.

Lemma ci_eq_at c : ci_eq 64 c = true -> c = 64%N.
Proof.
  unfold ci_eq, fold_case.
  change ((65 <=? 64)%N && (64 <=? 90)%N)%bool with false. cbn [orb].
  change ((64 =? 304)%N || (64 =? 305)%N)%bool with false.
  change (64 =? 383)%N with false. change (64 =? 8490)%N with false.
  cbv iota.
  destruct ((65 <=? c)%N && (c <=? 90)%N)%bool eqn:E1.
  - apply andb_true_iff in E1. destruct E1 as [E1 _].
    apply N.leb_le in E1. intro H. apply N.eqb_eq in H. lia.
  - destruct ((c =? 304)%N || (c =? 305)%N)%bool; [discriminate |].
    destruct (c =? 383)%N; [discriminate |].
    destruct (c =? 8490)%N; [discriminate |].
    intro H. apply N.eqb_eq in H. auto.
Qed.

Lemma firstn_cut {A} (l : list A) n :
  exists after, l = firstn n l ++ after.
Proof. exists (skipn n l). symmetry. apply firstn_skipn. Qed.

(** X14: what [_try_extract_channel_id] extracts has at least 20
    characters, starts with UC (in either case) and is a piece of the
    input; what [_try_extract_handle] extracts has at least 2 characters,
    starts with an at-sign and is a piece of the input. *)
Theorem extracted_tokens_are_pieces (raw : text) :
  (forall g,
     _try_extract_channel_id raw = Some g ->
     (20 <= List.length g)%nat /\
     (exists rest, prefix_ci (lit "UC") g = Some rest) /\
     exists before after, raw = before ++ g ++ after) /\
  (forall h,
     _try_extract_handle raw = Some h ->
     (2 <= List.length h)%nat /\
     startswith h (lit "@") = true /\
     exists before after, raw = before ++ h ++ after).
Proof.
  split.
  - intros g. unfold _try_extract_channel_id.
    destruct (re_search channel_url raw) as [m |] eqn:E.
    + intro H. injection H as ->.
      apply re_search_found in E. destruct E as (before & rest & -> & Hm).
      unfold channel_url in Hm.
      destruct (prefix_ci (lit "youtube.com/channel/") rest) as [r |] eqn:E1;
        [| discriminate].
      destruct (prefix_ci (lit "UC") r) as [r' |] eqn:E2; [| discriminate].
      destruct (Nat.leb_spec 20 (span id_char r')) as [Hn | Hn];
        [| discriminate].
      injection Hm as Hg0.
      change (firstn (2 + span id_char r') r = g) in Hg0. subst g.
      apply prefix_with_suffix in E1. destruct E1 as (p1 & -> & _).
      apply prefix_with_split in E2. destruct E2 as (p2 & -> & Hl & Hx).
      change (List.length (lit "UC")) with 2%nat in Hl.
      pose proof (span_le id_char r') as Hs.
      assert (Hg : firstn (2 + span id_char r') (p2 ++ r')
                   = p2 ++ firstn (span id_char r') r').
      { rewrite firstn_app, Hl, firstn_all2 by lia.
        do 2 f_equal. lia. }
      rewrite Hg. repeat split.
      * rewrite length_app, length_firstn. lia.
      * eexists. apply Hx.
      * destruct (firstn_cut r' (span id_char r')) as (after & Hafter).
        exists (before ++ p1), after.
        rewrite <- !app_assoc. do 3 f_equal. exact Hafter.
    + destruct (startswith raw (lit "UC")) eqn:Hs; [| discriminate].
      destruct (Nat.leb_spec 20 (List.length raw)) as [Hlen | Hlen];
        [| discriminate].
      intro H. injection H as <-. repeat split.
      * exact Hlen.
      * unfold startswith in Hs.
        destruct (prefix_with N.eqb (lit "UC") raw) as [rest |] eqn:Ep;
          [| discriminate].
        exists rest. apply (prefix_with_weaken N.eqb ci_eq _ eqb_ci_eq _ _ Ep).
      * exists [], []. rewrite app_nil_r. reflexivity.
  - intros h. unfold _try_extract_handle.
    destruct (re_search handle_url raw) as [m |] eqn:E.
    + intro H. injection H as ->.
      apply re_search_found in E. destruct E as (before & rest & -> & Hm).
      unfold handle_url in Hm.
      destruct (prefix_ci (lit "youtube.com/") rest) as [r |] eqn:E1;
        [| discriminate].
      destruct (prefix_ci (lit "@") r) as [r' |] eqn:E2; [| discriminate].
      destruct (Nat.leb_spec 1 (span handle_char r')) as [Hn | Hn];
        [| discriminate].
      injection Hm as Hh0.
      change (firstn (1 + span handle_char r') r = h) in Hh0. subst h.
      apply prefix_with_suffix in E1. destruct E1 as (p1 & -> & _).
      destruct r as [| c r0]; [discriminate |].
      change (lit "@") with [64%N] in E2. cbn [prefix_ci prefix_with] in E2.
      destruct (ci_eq 64 c) eqn:Ec; [| discriminate].
      injection E2 as ->. apply ci_eq_at in Ec. subst c.
      pose proof (span_le handle_char r') as Hs.
      cbn [Nat.add firstn]. repeat split.
      * cbn [List.length]. rewrite length_firstn. lia.
      * destruct (firstn_cut r' (span handle_char r')) as (after & Hafter).
        exists (before ++ p1), after.
        rewrite <- !app_assoc. do 2 f_equal. cbn [app]. f_equal.
        exact Hafter.
    + destruct (startswith raw (lit "@")) eqn:Hs; [| discriminate].
      destruct (Nat.ltb_spec 1 (List.length raw)) as [Hlen | Hlen];
        [| discriminate].
      intro H. injection H as <-. repeat split.
      * lia.
      * exact Hs.
      * exists [], []. rewrite app_nil_r. reflexivity.
Qed.

Lemma extracted_tokens_are_pieces_witness :
  let raw := lit "see https://www.youtube.com/channel/ucABCDEFGHIJ0123456789?x=1" in
  _try_extract_channel_id raw = Some (lit "ucABCDEFGHIJ0123456789") /\
  (20 <= List.length (lit "ucABCDEFGHIJ0123456789"))%nat.
Proof.
  intro raw.
  assert (H : _try_extract_channel_id raw = Some (lit "ucABCDEFGHIJ0123456789"))
    by (vm_compute; reflexivity).
  split; [exact H |].
  destruct (extracted_tokens_are_pieces raw) as (Hid & _).
  apply (Hid _ H).
Defined.

End ResolveFacts.

(** ** The events each method may add *)

Module DisciplineFacts.
Import Scraper Run Discipline ScraperFacts.
Local Open Scope world_scope.
Local Open Scope Z_scope.

Section WithPredicate.
Variable self : YouTubeCommentScraper.
Variable P : event -> Prop.
Hypothesis courteous : polite self P.

Lemma adds_refl w : adds P w w.
Proof. exists []. rewrite app_nil_r. split; [reflexivity | constructor]. Qed.

Lemma adds_trans w1 w2 w3 : adds P w1 w2 -> adds P w2 w3 -> adds P w1 w3.
Proof.
  intros (a & Ha & Hpa) (b & Hb & Hpb). exists (a ++ b). split.
  - rewrite Hb, Ha. symmetry. apply app_assoc.
  - apply Forall_app. split; assumption.
Qed.

Lemma adds_executed r w : P (Execute r) -> adds P w (executed self r w).
Proof.
  intro Hr. unfold executed, paced.
  destruct (Qle_bool (_sleep_seconds self) 0).
  - exists [Execute r]. split; [reflexivity | repeat constructor; exact Hr].
  - exists [Pace (_sleep_seconds self); Execute r]. cbn [trace log]. split.
    + rewrite <- app_assoc. reflexivity.
    + repeat constructor; [apply courteous | exact Hr].
Qed.

Lemma backoff_delay_range attempt :
  1 <= attempt -> 2 <= backoff_delay attempt <= 30.
Proof.
  intro H. unfold backoff_delay.
  assert (2 ^ 1 <= 2 ^ attempt) by (apply Z.pow_le_mono_r; lia).
  change (2 ^ 1) with 2 in *. lia.
Qed.

Lemma only_ret {A} (a : A) : only P (ret a).
Proof. intro w. apply adds_refl. Qed.

Lemma only_raise {A} e : only P (@raise A e).
Proof. intro w. apply adds_refl. Qed.

Lemma only_diverge {A} : only P (@diverge A).
Proof. intro w. apply adds_refl. Qed.

Lemma only_bind {A B} (c : M A) (k : A -> M B) :
  only P c -> (forall a, only P (k a)) -> only P (bind c k).
Proof.
  intros Hc Hk w. unfold bind. specialize (Hc w).
  destruct (c w) as [[a | e |] w1]; cbn [snd] in *; try exact Hc.
  eapply adds_trans; [exact Hc | apply Hk].
Qed.

Lemma only_try_http {A} (c : M A) (h : Z -> M A) :
  only P c -> (forall status, only P (h status)) -> only P (try_http c h).
Proof.
  intros Hc Hh w. unfold try_http. specialize (Hc w).
  destruct (c w) as [[a | e |] w1]; cbn [snd] in *; try exact Hc.
  destruct e; try exact Hc.
  eapply adds_trans; [exact Hc | apply Hh].
Qed.

Lemma only_try_exception {A} (c : M A) (h : exn -> M A) :
  only P c -> (forall e, only P (h e)) -> only P (try_exception c h).
Proof.
  intros Hc Hh w. unfold try_exception. specialize (Hc w).
  destruct (c w) as [[a | e |] w1]; cbn [snd] in *; try exact Hc.
  destruct e; try exact Hc; (eapply adds_trans; [exact Hc | apply Hh]).
Qed.

Lemma only_retry_loop r max_retries :
  P (Execute r) ->
  forall fuel attempt,
    0 <= attempt -> only P (retry_loop self r max_retries fuel attempt).
Proof.
  intro Hr. induction fuel as [| fuel IH]; intros attempt Ha w;
    [apply adds_refl |].
  rewrite retry_loop_step.
  destruct (_youtube self (calls w) r); cbn [snd];
    try (apply adds_executed; exact Hr).
  destruct (Z.gtb (attempt + 1) max_retries);
    [apply adds_executed; exact Hr |].
  destruct (transient status); [| apply adds_executed; exact Hr].
  eapply adds_trans; [apply adds_executed; exact Hr |].
  eapply adds_trans; [| apply IH; lia].
  exists [Backoff (backoff_delay (attempt + 1))]. split; [reflexivity |].
  repeat constructor. apply courteous. apply backoff_delay_range. lia.
Qed.

Lemma only_execute_with_retry r :
  P (Execute r) -> only P (_execute_with_retry self r).
Proof. intro Hr. apply only_retry_loop; [exact Hr | lia]. Qed.

Lemma only_get_video_title v :
  P (Execute (VideosList v)) -> only P (_get_video_title self v).
Proof.
  intro Hv. unfold _get_video_title.
  apply only_bind; [apply only_execute_with_retry; exact Hv |].
  intro response. destruct (items response); apply only_ret.
Qed.

Lemma only_comments_loop sha256_hexdigest v video_title limit :
  (forall size page_token,
     1 <= size <= 100 -> P (Execute (CommentThreadsList v size page_token))) ->
  forall fuel page_token fetched yielded,
    only P (comments_loop self sha256_hexdigest v video_title limit fuel
                          page_token fetched yielded).
Proof.
  intro Hv. induction fuel as [| fuel IH]; intros page_token fetched yielded;
    cbn [comments_loop]; destruct (Z.ltb_spec fetched limit);
    try apply only_ret; try apply only_diverge.
  apply only_bind.
  - apply only_try_http.
    + apply only_bind; [| intro r; apply only_ret].
      apply only_execute_with_retry. apply Hv. lia.
    + intro status. destruct (_ || _)%bool; [apply only_ret | apply only_raise].
  - intros [response |]; [| apply only_ret].
    destruct (yield_items _ _ _ _ _ _) as [[f y] | [f y]]; [apply only_ret |].
    destruct (token_present _); [apply IH | apply only_ret].
Qed.

Lemma only_videos_loop sha256_hexdigest fuel limit : forall video_ids,
  (forall v, In v video_ids ->
     P (Execute (VideosList v)) /\
     forall size page_token,
       1 <= size <= 100 -> P (Execute (CommentThreadsList v size page_token))) ->
  forall all_records,
    only P (videos_loop self sha256_hexdigest fuel limit video_ids
                        all_records).
Proof.
  induction video_ids as [| v rest IH]; intros Hv all_records;
    cbn [videos_loop]; [apply only_ret |].
  destruct (Hv v (or_introl eq_refl)) as [Ht Hc].
  apply only_bind; [apply only_get_video_title; exact Ht |]. intro title.
  apply only_bind; [apply only_comments_loop; exact Hc |]. intro records.
  apply IH. intros v' Hin. apply Hv. right. exact Hin.
Qed.

Lemma only_fetch_comments sha256_hexdigest fuel limit video_ids :
  (forall v, In v video_ids ->
     P (Execute (VideosList v)) /\
     forall size page_token,
       1 <= size <= 100 -> P (Execute (CommentThreadsList v size page_token))) ->
  only P (fetch_comments_for_videos self sha256_hexdigest fuel video_ids limit).
Proof.
  intro Hv. unfold fetch_comments_for_videos.
  destruct (_ || _)%bool; [apply only_raise | apply only_videos_loop; exact Hv].
Qed.

Lemma only_playlist_loop playlist max_videos :
  (forall page_token, P (Execute (PlaylistItemsList playlist 50 page_token))) ->
  forall fuel video_ids page_token,
    only P (playlist_loop self playlist max_videos fuel video_ids page_token).
Proof.
  intro Hp. induction fuel as [| fuel IH]; intros video_ids page_token;
    [apply only_diverge |].
  cbn [playlist_loop].
  apply only_bind; [apply only_execute_with_retry; apply Hp |].
  intro response.
  destruct (collect_video_ids _ _ _); [apply only_ret |].
  destruct (token_present _); [apply IH | apply only_ret].
Qed.

Lemma only_fetch_video_ids fuel channel_id max_videos :
  P (Execute (ChannelsListById channel_id)) ->
  (forall playlist page_token,
     P (Execute (PlaylistItemsList playlist 50 page_token))) ->
  only P (fetch_video_ids_from_channel self fuel channel_id max_videos).
Proof.
  intros Hc Hp. unfold fetch_video_ids_from_channel.
  apply only_bind.
  - unfold _get_uploads_playlist_id.
    apply only_bind; [apply only_execute_with_retry; exact Hc |].
    intro response. destruct (items response) as [| first rest];
      [apply only_raise |].
    destruct (uploads first) as [u |]; [| apply only_raise].
    destruct (truthy u); [apply only_ret | apply only_raise].
  - intro playlist. apply only_playlist_loop. apply Hp.
Qed.

Lemma only_resolve value :
  (forall r, P (Execute r)) -> only P (resolve_channel_id self value).
Proof.
  intro Hall. unfold resolve_channel_id.
  destruct (negb _); [apply only_raise |].
  destruct (some_truthy (_try_extract_channel_id _)); [apply only_ret |].
  apply only_bind.
  - destruct (some_truthy (_try_extract_handle _)); [| apply only_ret].
    unfold _resolve_channel_id_from_handle.
    destruct (negb _); [apply only_ret |].
    apply only_bind; [apply only_execute_with_retry; apply Hall |].
    intro response. destruct (items response); apply only_ret.
  - intro channel_id. destruct (some_truthy channel_id); [apply only_ret |].
    apply only_bind.
    + unfold _resolve_channel_id_from_search.
      apply only_bind; [apply only_execute_with_retry; apply Hall |].
      intro response. destruct (items response) as [| first rest];
        [apply only_ret |].
      destruct (channelId first) as [c |]; [| apply only_ret].
      destruct (truthy c); apply only_ret.
    + intro found. destruct (some_truthy found);
        [apply only_ret | apply only_raise].
Qed.
End WithPredicate.

(** X15: whatever the service answers, [fetch_comments_for_videos] asks only
    for the title and the comment threads of the videos it was given, a page
    of comments is asked with between 1 and 100 items, and the only sleeps
    are the pacing sleep and backoffs between 2 and 30. *)
Theorem comments_requests_are_disciplined
    (self : YouTubeCommentScraper) (sha256_hexdigest : text -> text)
    (fuel : nat) (video_ids : list text) (per_video_limit : Z) (w : world) :
  adds (comment_event self video_ids) w
       (snd (fetch_comments_for_videos self sha256_hexdigest fuel video_ids
                                       per_video_limit w)).
Proof.
  apply (only_fetch_comments self (comment_event self video_ids)).
  - split; [reflexivity | intros d Hd; exact Hd].
  - intros v Hin. split; [exact Hin |].
    intros size page_token Hsize. split; [exact Hin | exact Hsize].
Qed.

(** X16: whatever the service answers, [fetch_video_ids_from_channel] asks
    only for the channel it was given and for pages of 50 playlist items,
    and the only sleeps are the pacing sleep and backoffs between 2 and
    30. *)
Theorem uploads_requests_are_disciplined
    (self : YouTubeCommentScraper) (fuel : nat) (channel_id : text)
    (max_videos : option Z) (w : world) :
  adds (uploads_event self channel_id) w
       (snd (fetch_video_ids_from_channel self fuel channel_id max_videos w)).
Proof.
  apply (only_fetch_video_ids self (uploads_event self channel_id)).
  - split; [reflexivity | intros d Hd; exact Hd].
  - reflexivity.
  - intros playlist page_token. reflexivity.
Qed.

(** *** The batch *)

Section Batch.
Import Main.
Variable lower : text -> text.
Variable sha256_hexdigest : text -> text.
Variable self : YouTubeCommentScraper.
Variable fuel : nat.
Variable per_video : Z.
Variable max_videos : option Z.

Lemma scraper_event_polite : polite self scraper_event.
Proof. split; [exact I | intros d _; exact I]. Qed.

Lemma exports_app t1 t2 : exports (t1 ++ t2) = exports t1 ++ exports t2.
Proof. unfold exports. apply flat_map_app. Qed.

Lemma adds_scraper_exports w w' :
  adds scraper_event w w' -> exports (trace w') = exports (trace w).
Proof.
  intros (added & -> & Hadded). rewrite exports_app.
  assert (exports added = []) as ->; [| apply app_nil_r].
  induction Hadded as [| e added He _ IH]; [reflexivity |].
  destruct e; try contradiction; exact IH.
Qed.

Lemma run_for_channel_exports channel_name channel_id video_ids_arg w u w' :
  _run_for_channel lower sha256_hexdigest self fuel channel_name channel_id
                   video_ids_arg per_video max_videos w = (Ok u, w') ->
  exports (trace w') = exports (trace w) ++ [channel_name].
Proof.
  unfold _run_for_channel. unfold bind at 1.
  match goal with
  | |- context [(if ?c then ?a else ?b) w] =>
      assert (Hids : only scraper_event (if c then a else b));
      [| specialize (Hids w);
         destruct ((if c then a else b) w) as [[ids | e |] w1]]
  end.
  { destruct (some_truthy channel_id); [| apply only_ret].
    apply only_fetch_video_ids;
      [apply scraper_event_polite | exact I | intros; exact I]. }
  2, 3: discriminate.
  cbn [snd] in Hids. apply adds_scraper_exports in Hids.
  destruct ids as [| v ids]; [discriminate |].
  unfold bind at 1.
  pose proof (only_fetch_comments self scraper_event scraper_event_polite
                sha256_hexdigest fuel per_video (v :: ids)
                (fun _ _ => conj I (fun _ _ _ => I)) w1) as Hrec.
  destruct (fetch_comments_for_videos self sha256_hexdigest fuel (v :: ids)
                                      per_video w1)
    as [[records | e |] w2]; [| discriminate | discriminate].
  cbn [snd] in Hrec. apply adds_scraper_exports in Hrec.
  destruct records as [| r records]; [discriminate |].
  unfold emit. intro H. injection H as _ <-.
  unfold log. cbn [trace]. rewrite exports_app, Hrec, Hids. reflexivity.
Qed.

Lemma process_channel_exports ch w done w' :
  process_channel lower sha256_hexdigest self fuel per_video max_videos ch w
  = (Ok done, w') ->
  exports (trace w') = exports (trace w) ++ [strip (name ch)].
Proof.
  unfold process_channel. unfold bind at 1.
  match goal with
  | |- context [(if ?c then ?a else ?b) w] =>
      assert (Hres : only scraper_event (if c then a else b));
      [| specialize (Hres w);
         destruct ((if c then a else b) w) as [[[[cid ch'] upd] | e |] w1]]
  end.
  { destruct (negb _); [| apply only_ret].
    apply only_bind; [| intro; apply only_ret].
    apply only_try_exception; [| intro; apply only_raise].
    apply only_resolve; [apply scraper_event_polite | intro; exact I]. }
  2, 3: discriminate.
  cbn [snd] in Hres. apply adds_scraper_exports in Hres.
  unfold bind at 1.
  destruct (_run_for_channel _ _ _ _ _ _ _ _ _ w1) as [[u | e |] w2] eqn:Hrun;
    [| discriminate | discriminate].
  apply run_for_channel_exports in Hrun.
  intro H. injection H as _ <-. rewrite Hrun, Hres. reflexivity.
Qed.

Lemma batch_loop_exports : forall channels updated w done w',
  batch_loop lower sha256_hexdigest self fuel per_video max_videos channels
             updated w = (Ok done, w') ->
  exports (trace w')
  = exports (trace w) ++ map (fun c => strip (name c)) channels.
Proof.
  induction channels as [| ch rest IH]; intros updated w done w' H.
  - cbn in H. injection H as _ <-. cbn. symmetry. apply app_nil_r.
  - cbn [batch_loop] in H. unfold bind at 1 in H.
    destruct (process_channel _ _ _ _ _ _ ch w) as [[d | e |] w1] eqn:Hp;
      [| discriminate | discriminate].
    unfold bind at 1 in H.
    destruct (batch_loop _ _ _ _ _ _ rest _ w1) as [[t | e |] w2] eqn:Hb;
      [| discriminate | discriminate].
    injection H as _ <-.
    rewrite (IH _ _ _ _ Hb), (process_channel_exports _ _ _ _ Hp).
    rewrite <- app_assoc. reflexivity.
Qed.

(** X17: when the [--all] run ends without an exception, every channel of
    the batch has been exported exactly once, in the order of the batch and
    under its stripped name. *)
Theorem finished_batch_exports_all (channels : list channel) (w w' : world) :
  main_all lower sha256_hexdigest self fuel per_video max_videos channels w
  = (Ok tt, w') ->
  exports (trace w')
  = exports (trace w) ++ map (fun c => strip (name c)) channels.
Proof.
  unfold main_all, bind.
  destruct (batch_loop _ _ _ _ _ _ channels false w) as [[d | e |] w1] eqn:Hb;
    [| discriminate | discriminate].
  apply batch_loop_exports in Hb.
  destruct (snd d).
  - unfold emit, log. intro H. injection H as <-. cbn [trace].
    rewrite exports_app. cbn. rewrite app_nil_r. exact Hb.
  - unfold ret. intro H. injection H as <-. exact Hb.
Qed.
End Batch.

Lemma finished_batch_exports_all_witness :
  exists w',
    Main.main_all Cleaning.ascii_lower Fixtures.digest Fixtures.service 5 100
                  None [Fixtures.fine; Fixtures.fine] Collaborator.fresh
    = (Ok tt, w') /\
    exports (trace w') = [lit "Fine"; lit "Fine"].
Proof.
  eexists. split; [vm_compute; reflexivity |].
  match goal with
  | |- exports (trace ?w1) = _ =>
      apply (finished_batch_exports_all Cleaning.ascii_lower Fixtures.digest
               Fixtures.service 5%nat 100 None
               [Fixtures.fine; Fixtures.fine] Collaborator.fresh w1)
  end.
  vm_compute. reflexivity.
Defined.

End DisciplineFacts.

(** ** [main.py]: names, channel files, arguments *)

Module MainUtilsFacts.
Import Scraper Main MainUtils CleanForm TextFacts.

(** *** [_slugify] *)

Lemma re_sub_from_Forall (P : N -> Prop) matcher repl :
  Forall P repl ->
  forall s skip, Forall P s -> Forall P (re_sub_from matcher repl skip s).
Proof.
  intro Hrepl. induction s as [| c r IH]; intros skip Hs; [constructor |].
  inversion Hs as [| ? ? Hc Hr]; subst. cbn [re_sub_from].
  destruct skip as [| k]; [| apply IH; exact Hr].
  destruct (matcher (c :: r)) as [[| k] |].
  - constructor; [exact Hc | apply IH; exact Hr].
  - apply Forall_app. split; [exact Hrepl | apply IH; exact Hr].
  - constructor; [exact Hc | apply IH; exact Hr].
Qed.

Lemma startswith_double s :
  startswith s (lit "__") = true -> exists r, s = 95 :: 95 :: r.
Proof.
  unfold startswith. change (lit "__") with [95; 95].
  destruct s as [| a [| b r]]; cbn [prefix_with].
  - discriminate.
  - destruct (95 =? a); discriminate.
  - destruct (N.eqb_spec 95 a) as [<- |]; [| discriminate].
    destruct (N.eqb_spec 95 b) as [<- |]; [| discriminate].
    intros _. exists r. reflexivity.
Qed.

Lemma replace_double_length_le : forall s skip,
  (skip <= List.length s)%nat ->
  (List.length (re_sub_from double_underscore (lit "_") skip s)
   <= List.length s - skip)%nat.
Proof.
  induction s as [| c r IH]; intros skip Hskip; [simpl; lia |].
  cbn [re_sub_from]. cbn [List.length] in *.
  destruct skip as [| k].
  - unfold double_underscore at 1.
    destruct (startswith (c :: r) (lit "__")) eqn:E.
    + apply startswith_double in E. destruct E as (r' & E).
      injection E as -> ->. change (lit "_") with [95] in *.
      cbn [app List.length]. specialize (IH 1%nat).
      cbn [List.length] in IH. lia.
    + cbn [List.length]. specialize (IH O). lia.
  - specialize (IH k). lia.
Qed.

Lemma replace_double_shortens : forall s,
  contains (lit "__") s = true ->
  (List.length (replace_double s) < List.length s)%nat.
Proof.
  unfold replace_double, re_sub.
  induction s as [| c r IH]; intro H; [discriminate |].
  cbn [re_sub_from]. unfold double_underscore at 1.
  cbn [contains] in H.
  destruct (startswith (c :: r) (lit "__")) eqn:E.
  - apply startswith_double in E. destruct E as (r' & E).
    injection E as -> ->.
    pose proof (replace_double_length_le (95 :: r') 1%nat) as Hle.
    change (lit "_") with [95] in *. cbn [app List.length] in *. lia.
  - cbn [orb] in H. cbn [List.length]. specialize (IH H). lia.
Qed.

Lemma collapse_done : forall fuel v,
  (List.length v <= fuel)%nat -> contains (lit "__") (collapse fuel v) = false.
Proof.
  induction fuel as [| fuel IH]; intros v Hv.
  - destruct v; [reflexivity | simpl in Hv; lia].
  - cbn [collapse]. destruct (contains (lit "__") v) eqn:E; [| exact E].
    apply IH. pose proof (replace_double_shortens v E). lia.
Qed.

Lemma collapse_Forall (P : N -> Prop) : P 95 ->
  forall fuel v, Forall P v -> Forall P (collapse fuel v).
Proof.
  intro H95. induction fuel as [| fuel IH]; intros v Hv; [exact Hv |].
  cbn [collapse]. destruct (contains (lit "__") v); [| exact Hv].
  apply IH. apply re_sub_from_Forall; [repeat constructor; exact H95 | exact Hv].
Qed.

Lemma contains_double ch : forall s,
  contains [ch; ch] s = negb (no_double ch s).
Proof.
  induction s as [| a s IH]; [reflexivity |].
  cbn [contains]. rewrite IH. unfold startswith.
  destruct s as [| b r].
  - cbn [prefix_with no_double]. destruct (ch =? a); reflexivity.
  - cbn [prefix_with]. change (no_double ch (a :: b :: r))
      with (negb ((a =? ch) && (b =? ch)) && no_double ch (b :: r))%bool.
    rewrite (N.eqb_sym ch a), (N.eqb_sym ch b).
    destruct (a =? ch), (b =? ch), (no_double ch (b :: r)); reflexivity.
Qed.

Lemma no_double_tail ch c r : no_double ch (c :: r) = true -> no_double ch r = true.
Proof.
  destruct r as [| d r']; [reflexivity |]. intro H.
  change (negb ((c =? ch) && (d =? ch)) && no_double ch (d :: r') = true)%bool in H.
  apply andb_true_iff in H. tauto.
Qed.

Lemma lstrip_char_no_double ch s :
  no_double ch s = true -> no_double ch (lstrip_char ch s) = true.
Proof.
  induction s as [| c r IH]; intro H; [reflexivity |]. cbn [lstrip_char].
  destruct (c =? ch); [apply IH; eapply no_double_tail; eauto | exact H].
Qed.

Lemma rstrip_char_head ch r d t :
  rstrip_char ch r = d :: t -> exists t', r = d :: t'.
Proof.
  destruct r as [| c r']; cbn [rstrip_char]; [discriminate |].
  destruct (rstrip_char ch r'); [destruct (c =? ch) |];
    intro H; inversion H; eauto.
Qed.

Lemma rstrip_char_no_double ch s :
  no_double ch s = true -> no_double ch (rstrip_char ch s) = true.
Proof.
  induction s as [| c r IH]; intro H; [reflexivity |]. cbn [rstrip_char].
  pose proof (no_double_tail _ _ _ H) as Hr. specialize (IH Hr).
  destruct (rstrip_char ch r) as [| d t] eqn:E;
    [destruct (c =? ch); reflexivity |].
  destruct (rstrip_char_head _ _ _ _ E) as [t' ->].
  change (negb ((c =? ch) && (d =? ch)) && no_double ch (d :: t') = true)%bool in H.
  change (negb ((c =? ch) && (d =? ch)) && no_double ch (d :: t) = true)%bool.
  apply andb_true_iff in H. apply andb_true_iff. tauto.
Qed.

Lemma lstrip_char_Forall (P : N -> Prop) ch s :
  Forall P s -> Forall P (lstrip_char ch s).
Proof.
  induction 1 as [| c r Hc Hr IH]; cbn [lstrip_char]; [constructor |].
  destruct (c =? ch); auto.
Qed.

Lemma rstrip_char_Forall (P : N -> Prop) ch s :
  Forall P s -> Forall P (rstrip_char ch s).
Proof.
  induction 1 as [| c r Hc Hr IH]; cbn [rstrip_char]; [constructor |].
  destruct (rstrip_char ch r); [destruct (c =? ch) |]; auto.
Qed.

Lemma lstrip_char_leading ch s r : lstrip_char ch s <> ch :: r.
Proof.
  induction s as [| c s IH]; cbn [lstrip_char]; [discriminate |].
  destruct (N.eqb_spec c ch) as [-> | Hne]; [exact IH |].
  intro H. injection H as H _. contradiction.
Qed.

Lemma rstrip_char_leading ch s :
  (forall r, s <> ch :: r) -> forall r, rstrip_char ch s <> ch :: r.
Proof.
  intros Hs r H. destruct (rstrip_char_head _ _ _ _ H) as [t' ->].
  eapply Hs. reflexivity.
Qed.

Lemma rstrip_char_trailing ch : forall s p, rstrip_char ch s <> p ++ [ch].
Proof.
  induction s as [| c s IH]; intros p; cbn [rstrip_char].
  - destruct p; discriminate.
  - destruct (rstrip_char ch s) as [| d t] eqn:E.
    + destruct (N.eqb_spec c ch) as [-> | Hne].
      * destruct p; discriminate.
      * intro H. destruct p as [| a p]; cbn in H;
          [injection H as H; contradiction | destruct p; discriminate].
    + intro H. destruct p as [| a p]; cbn in H; [discriminate |].
      injection H as _ H. exact (IH _ H).
Qed.

Section Slug.
Variable lower : text -> text.
Variable isalnum : N -> bool.

(** X18: the name [_slugify] makes for a channel's files is never empty,
    has no two underscores in a row (the loop that removes them has ended),
    and is the default [channel] or consists of characters that are
    alphanumeric or an underscore, with no underscore at either end. *)
Theorem slug_is_well_formed (value : option text) :
  let slug := _slugify lower isalnum value in
  truthy slug = true /\
  contains (lit "__") slug = false /\
  (slug = lit "channel" \/
   (Forall (fun c => isalnum c = true \/ c = 95) slug /\
    (forall r, slug <> 95 :: r) /\ (forall p, slug <> p ++ [95]))).
Proof.
  unfold _slugify.
  set (v := map _ (lower _)).
  set (s := strip_char 95 (collapse (List.length v) v)).
  cbv zeta.
  destruct (truthy s) eqn:Hs.
  - split; [exact Hs |]. split.
    + change (lit "__") with [95; 95]. rewrite contains_double.
      unfold s, strip_char.
      rewrite rstrip_char_no_double; [reflexivity |].
      apply lstrip_char_no_double.
      pose proof (collapse_done (List.length v) v (le_n _)) as Hd.
      change (lit "__") with [95; 95] in Hd. rewrite contains_double in Hd.
      destruct (no_double 95 _); [reflexivity | discriminate].
    + right. unfold s, strip_char. repeat split.
      * apply rstrip_char_Forall, lstrip_char_Forall.
        apply collapse_Forall; [right; reflexivity |].
        unfold v. apply Forall_map. apply Forall_forall. intros c _.
        destruct (isalnum c) eqn:E; [left; exact E | right; reflexivity].
      * apply rstrip_char_leading. apply lstrip_char_leading.
      * apply rstrip_char_trailing.
  - split; [reflexivity |]. split; [reflexivity | left; reflexivity].
Qed.
End Slug.

Lemma slug_is_well_formed_witness :
  let slug :=
    _slugify Cleaning.ascii_lower ProcessComments.ascii_isalnum
             (Some (lit "  Satvic  Movement! ")) in
  slug = lit "satvic_movement" /\ contains (lit "__") slug = false.
Proof.
  intro slug. split; [vm_compute; reflexivity |].
  pose proof (slug_is_well_formed Cleaning.ascii_lower
                ProcessComments.ascii_isalnum
                (Some (lit "  Satvic  Movement! "))) as H.
  cbv zeta in H. destruct H as (_ & H & _). exact H.
Defined.

(** *** [_load_channels] and [_write_channels] *)

Lemma strip_fixed s :
  leading_space s = false -> trailing_space s = false -> strip s = s.
Proof.
  intros Hl Ht. unfold strip. rewrite (lstrip_id _ Hl). apply rstrip_id, Ht.
Qed.

Lemma strip_idempotent s : strip (strip s) = strip s.
Proof.
  apply strip_fixed; unfold strip.
  - apply rstrip_leading, lstrip_leading.
  - apply rstrip_trailing.
Qed.

Lemma normalized_loadable l : Forall loadable (flat_map normalize l).
Proof.
  induction l as [| it l IH]; [constructor |].
  cbn [flat_map]. apply Forall_app. split; [| exact IH].
  destruct it as [n c |]; cbn [normalize]; [| constructor].
  destruct (truthy (strip (str n))) eqn:E; [| constructor].
  repeat constructor; cbn [name channel_id];
    [exact E | apply strip_idempotent | apply strip_idempotent].
Qed.

Lemma written_normalizes l :
  Forall loadable l ->
  flat_map normalize
    (map (fun c => JDict (Some (JStr (name c))) (Some (JStr (channel_id c)))) l)
  = l.
Proof.
  induction 1 as [| c l (Ht & Hn & Hc) _ IH]; [reflexivity |].
  cbn [map flat_map normalize str]. rewrite Hn, Hc, Ht, IH.
  destruct c. reflexivity.
Qed.

(** X19: what [_load_channels] returns is never an empty list; every
    channel in it has a name that is not empty, and name and identifier are
    stripped; and writing that list with [_write_channels] and loading it
    again gives the same list. *)
Theorem loaded_channels_round_trip
    (channels : option jchannels) (l : list channel) :
  _load_channels channels = Ok l ->
  l <> [] /\ Forall loadable l /\ _load_channels (Some (written l)) = Ok l.
Proof.
  unfold _load_channels.
  set (items := match channels with Some (JList l0) => l0 | _ => [] end).
  intro H.
  assert (Hl : flat_map normalize items = l /\ l <> []).
  { destruct channels as [[l0 |] |]; try discriminate;
      (destruct (flat_map normalize items) eqn:E; [discriminate |]);
      injection H as <-; split; [reflexivity | discriminate]. }
  destruct Hl as [Hl Hne].
  assert (Hload : Forall loadable l) by (rewrite <- Hl; apply normalized_loadable).
  split; [exact Hne |]. split; [exact Hload |].
  unfold written. rewrite (written_normalizes l Hload).
  destruct l; [contradiction | reflexivity].
Qed.

Lemma loaded_channels_round_trip_witness :
  let file :=
    Some (JList [ JDict (Some (JStr (lit " Satvic "))) None;
                  JNotDict;
                  JDict None (Some (JStr (lit "UCnobody")));
                  JDict (Some (JStr (lit "Fit"))) (Some (JStr (lit " UCfit"))) ]) in
  let l := [ {| name := lit "Satvic"; channel_id := [] |};
             {| name := lit "Fit"; channel_id := lit "UCfit" |} ] in
  _load_channels file = Ok l /\ _load_channels (Some (written l)) = Ok l.
Proof.
  intros file l.
  assert (H : _load_channels file = Ok l) by reflexivity.
  split; [exact H |].
  apply (loaded_channels_round_trip file l H).
Defined.

(** *** [_get_api_key] *)

Lemma first_set_truthy getenv : forall keys v,
  first_set getenv keys = Some v -> truthy v = true.
Proof.
  induction keys as [| k keys IH]; intros v H; [discriminate |].
  cbn [first_set] in H. destruct (getenv k) as [x |]; [| auto].
  destruct (truthy x) eqn:E; [| auto]. injection H as <-. exact E.
Qed.

(** X20: a key that [_get_api_key] returns is not empty, so the scraper
    built from it never fails for a missing key; and a set
    [YOUTUBE_API_KEY] is the key returned, whatever the other two variables
    hold. *)
Theorem api_key_is_usable (getenv : string -> option text) :
  (forall key,
     _get_api_key getenv = Ok key ->
     truthy key = true /\
     forall service sleep_seconds,
       init service key sleep_seconds
       = Ok {| _youtube := service; _sleep_seconds := sleep_seconds |}) /\
  (forall v,
     getenv "YOUTUBE_API_KEY"%string = Some v -> truthy v = true ->
     _get_api_key getenv = Ok v).
Proof.
  unfold _get_api_key. split.
  - intros key H.
    destruct (first_set getenv _) as [v |] eqn:E; [| discriminate].
    injection H as <-. pose proof (first_set_truthy _ _ _ E) as Ht.
    split; [exact Ht |]. intros service s. unfold init. rewrite Ht. reflexivity.
  - intros v Hv Ht. cbn [first_set]. rewrite Hv, Ht. reflexivity.
Qed.

Lemma api_key_is_usable_witness :
  let getenv := fun k : string =>
    if String.eqb k "YT_API_KEY" then Some (lit "k3y")
    else if String.eqb k "YOUTUBE_API_KEY" then Some [] else None in
  _get_api_key getenv = Ok (lit "k3y") /\ truthy (lit "k3y") = true.
Proof.
  intro getenv.
  assert (H : _get_api_key getenv = Ok (lit "k3y")) by reflexivity.
  split; [exact H |].
  destruct (api_key_is_usable getenv) as (Hkey & _).
  apply (Hkey _ H).
Defined.

(** *** The identifiers of [--video-ids] *)

Lemma split_on_no_sep sep : forall s,
  Forall (Forall (fun c => c <> sep)) (split_on sep s).
Proof.
  induction s as [| c s IH]; [repeat constructor |].
  cbn [split_on]. destruct (N.eqb_spec c sep) as [-> | Hne].
  - constructor; [constructor | exact IH].
  - destruct (split_on sep s) as [| h t]; [repeat constructor; exact Hne |].
    inversion IH; subst. constructor; [constructor; assumption | assumption].
Qed.

Lemma split_on_cons sep : forall v t,
  Forall (fun c => c <> sep) v ->
  split_on sep (v ++ sep :: t) = v :: split_on sep t.
Proof.
  induction v as [| c v IH]; intros t Hv.
  - cbn [app split_on]. rewrite N.eqb_refl. reflexivity.
  - inversion Hv as [| ? ? Hc Hv']; subst. cbn [app split_on].
    destruct (N.eqb_spec c sep); [contradiction |].
    rewrite (IH t Hv'). reflexivity.
Qed.

Lemma split_on_plain sep : forall v,
  Forall (fun c => c <> sep) v -> split_on sep v = [v].
Proof.
  induction v as [| c v IH]; intro Hv; [reflexivity |].
  inversion Hv as [| ? ? Hc Hv']; subst. cbn [split_on].
  destruct (N.eqb_spec c sep); [contradiction |].
  rewrite (IH Hv'). reflexivity.
Qed.

Lemma split_join sep : forall ids,
  Forall (Forall (fun c => c <> sep)) ids -> ids <> [] ->
  split_on sep (join sep ids) = ids.
Proof.
  induction ids as [| v ids IH]; intros Hids Hne; [contradiction |].
  inversion Hids as [| ? ? Hv Hrest]; subst.
  destruct ids as [| v' ids']; [apply split_on_plain; exact Hv |].
  change (join sep (v :: v' :: ids')) with (v ++ sep :: join sep (v' :: ids')).
  rewrite (split_on_cons sep v _ Hv), IH; [reflexivity | exact Hrest | discriminate].
Qed.

Section VideoIds.
Variable lower : text -> text.
Variable sha256_hexdigest : text -> text.
Variable self : YouTubeCommentScraper.

(** X21: the identifiers taken from [--video-ids] are not empty, hold no
    comma and no whitespace at either end; joining such identifiers with
    commas and parsing the result gives them back; and when none is left,
    [_run_for_channel] raises its [ValueError] before any request. *)
Theorem video_ids_are_parsed (arg : text) :
  Forall plain_id (video_ids_of arg) /\
  (forall ids, Forall plain_id ids -> video_ids_of (join 44 ids) = ids) /\
  (forall fuel channel_name per_video max_videos w,
     video_ids_of arg = [] ->
     _run_for_channel lower sha256_hexdigest self fuel channel_name None
                      (Some arg) per_video max_videos w
     = (Raise (ValueError "No video IDs found"), w)).
Proof.
  split; [| split].
  - unfold video_ids_of.
    pose proof (split_on_no_sep 44 arg) as Hs.
    induction (split_on 44 arg) as [| p ps IH]; [constructor |].
    inversion Hs as [| ? ? Hp Hps]; subst. cbn [map filter].
    destruct (truthy (strip p)) eqn:E; [| apply IH; exact Hps].
    constructor; [| apply IH; exact Hps].
    unfold plain_id. repeat split.
    + exact E.
    + unfold strip. apply rstrip_Forall, lstrip_Forall. exact Hp.
    + unfold strip. apply rstrip_leading, lstrip_leading.
    + unfold strip. apply rstrip_trailing.
  - intros ids Hids. unfold video_ids_of.
    destruct ids as [| v ids]; [reflexivity |].
    rewrite split_join;
      [| eapply Forall_impl; [| exact Hids]; intros a Ha; apply Ha
       | discriminate].
    induction Hids as [| a l (Ht & _ & Hl & Hr) _ IH]; [reflexivity |].
    cbn [map filter]. rewrite (strip_fixed a Hl Hr), Ht, IH. reflexivity.
  - intros fuel channel_name per_video max_videos w Hnone.
    unfold _run_for_channel. cbn [some_truthy].
    unfold bind, ret. fold (video_ids_of arg). rewrite Hnone. reflexivity.
Qed.
End VideoIds.

Lemma video_ids_are_parsed_witness :
  video_ids_of (join 44 [lit "dQw4w9WgXcQ"; lit "abc"])
  = [lit "dQw4w9WgXcQ"; lit "abc"].
Proof.
  destruct (video_ids_are_parsed Cleaning.ascii_lower Fixtures.digest
              Fixtures.service []) as (_ & Hjoin & _).
  apply Hjoin.
  repeat constructor; try discriminate; vm_compute; reflexivity.
Defined.

End MainUtilsFacts.

(** ** [process_comments.py] on the text [main.py] writes *)

Module KeywordFacts.
Import Cleaning ProcessComments CleanForm TextFacts CleaningFacts.

Lemma prefix_eqb_In : forall pat s r,
  prefix_with N.eqb pat s = Some r -> Forall (fun c => In c s) pat.
Proof.
  induction pat as [| p pat IH]; intros s r H; [constructor |].
  cbn [prefix_with] in H. destruct s as [| c s']; [discriminate |].
  destruct (N.eqb_spec p c) as [-> | _]; [| discriminate].
  constructor; [left; reflexivity |].
  eapply Forall_impl; [| exact (IH _ _ H)]. intros a Ha. right. exact Ha.
Qed.

Lemma contains_In pat : forall s,
  contains pat s = true -> Forall (fun c => In c s) pat.
Proof.
  induction s as [| c s IH]; intro H.
  - cbn [contains] in H. rewrite orb_false_r in H. unfold startswith in H.
    destruct (prefix_with N.eqb pat []) eqn:E; [| discriminate].
    exact (prefix_eqb_In _ _ _ E).
  - cbn [contains] in H. apply orb_true_iff in H. destruct H as [H | H].
    + unfold startswith in H.
      destruct (prefix_with N.eqb pat (c :: s)) eqn:E; [| discriminate].
      exact (prefix_eqb_In _ _ _ E).
    + eapply Forall_impl; [| exact (IH H)]. intros a Ha. right. exact Ha.
Qed.

Lemma contains_foreign pat s c :
  all_allowed s -> In c pat -> allowed c = false -> contains pat s = false.
Proof.
  intros Hs Hin Hc. destruct (contains pat s) eqn:E; [| reflexivity].
  pose proof (contains_In _ _ E) as Hp.
  rewrite Forall_forall in Hp. specialize (Hp c Hin).
  unfold all_allowed in Hs. rewrite Forall_forall in Hs.
  rewrite (Hs c Hp) in Hc. discriminate.
Qed.

Section WithUnicode.
Variable lower : text -> text.
Variable isalnum : N -> bool.
Hypothesis lower_allowed : forall s, all_allowed s -> lower s = s.

(** X22: in the text that [clean_text] returns, also after the
    [lower()] of [keyword_label], a literal is found only when all its
    characters are lowercase ASCII letters, digits, Devanagari characters or
    spaces; so the two keywords of [NEGATIVE_KEYWORDS] with an apostrophe
    are never found in a [Comment_Text] that [main.py] wrote. *)
Theorem apostrophe_keywords_miss_cleaned_text (s : text) :
  let t := lower (clean_text lower (Some s)) in
  (forall pat, contains pat t = true -> all_allowed pat) /\
  (forall k,
     k = Plain "family won't allow" \/ k = Plain "i can't live without tea" ->
     In k NEGATIVE_KEYWORDS /\ search isalnum k t = false).
Proof.
  intro t.
  assert (Ht : all_allowed t).
  { unfold t. destruct (clean_text_tidy lower s) as (Ha & _).
    rewrite (lower_allowed _ Ha). exact Ha. }
  split.
  - intros pat H. pose proof (contains_In _ _ H) as Hp.
    unfold all_allowed in *. rewrite Forall_forall in *.
    intros c Hc. apply Ht, Hp, Hc.
  - intros k [-> | ->];
      (split; [vm_compute; tauto |]); cbn [search];
      apply (contains_foreign _ _ 39 Ht); vm_compute; tauto.
Qed.
End WithUnicode.

Lemma apostrophe_keywords_miss_cleaned_text_witness :
  let s := lit "My family won't allow it!" in
  keyword_label ascii_lower ascii_isalnum (Some s) = 0%Z /\
  clean_text ascii_lower (Some s) = lit "my family won t allow it" /\
  keyword_label ascii_lower ascii_isalnum (Some (clean_text ascii_lower (Some s)))
  = (-1)%Z /\
  search ascii_isalnum (Plain "family won't allow")
         (ascii_lower (clean_text ascii_lower (Some s))) = false.
Proof.
  intro s.
  split; [vm_compute; reflexivity |].
  split; [vm_compute; reflexivity |].
  split; [vm_compute; reflexivity |].
  destruct (apostrophe_keywords_miss_cleaned_text ascii_lower ascii_isalnum
              ascii_lower_allowed s) as (_ & Hk).
  apply Hk. left. reflexivity.
Defined.

End KeywordFacts.

(** ** [analysis.py]: the shares of the alignment chart *)

Module AnalysisFacts.
Import Analysis.
Local Open Scope Z_scope.

Lemma cells_partition (column : list cell) :
  Z.of_nat (List.length column)
  = count_label 1 column + count_label 0 column
    + Z.of_nat (List.length (filter other_cell column)).
Proof.
  unfold count_label.
  induction column as [| c column IH]; [reflexivity |].
  cbn [filter List.length]. unfold other_cell at 1.
  destruct c as [x |]; cbn [cell_is].
  - destruct (Z.eqb_spec x 1) as [-> | H1]; cbn [negb andb Z.eqb List.length].
    + lia.
    + destruct (Z.eqb_spec x 0) as [-> | H0]; cbn [negb List.length]; lia.
  - cbn [negb andb List.length]. lia.
Qed.

(** X23: the three counts behind the alignment chart are never negative
    and add up to [total], which is at least one; for a table with rows,
    [unknown] counts the rows that are neither 1 nor 0, and so the rows
    labelled -1 when the column holds only 1, 0 and -1; for a table without
    rows, [unknown] is 1, a share of 100 percent. *)
Theorem alignment_counts_partition (column : list cell) :
  let '(total, aligned, not_aligned, unknown) := alignment_counts column in
  1 <= total /\ 0 <= aligned /\ 0 <= not_aligned /\ 0 <= unknown /\
  aligned + not_aligned + unknown = total /\
  (column <> [] ->
   unknown = Z.of_nat (List.length (filter other_cell column)) /\
   (Forall (fun c => In c [Some 1; Some 0; Some (-1)]) column ->
    unknown = count_label (-1) column)) /\
  (column = [] -> aligned = 0 /\ not_aligned = 0 /\ unknown = 1).
Proof.
  unfold alignment_counts.
  pose proof (cells_partition column) as Hp.
  assert (H1 : 0 <= count_label 1 column) by (unfold count_label; lia).
  assert (H0 : 0 <= count_label 0 column) by (unfold count_label; lia).
  repeat split; try lia.
  - destruct column; [contradiction |]. cbn [List.length] in *. lia.
  - intro Hcol.
    assert (Hsame : filter other_cell column = filter (cell_is (-1)) column).
    { clear Hp H1 H0 H.
      induction Hcol as [| c l Hc _ IH]; [reflexivity |].
      cbn [filter]. rewrite IH.
      destruct Hc as [<- | [<- | [<- | []]]]; reflexivity. }
    unfold count_label at 3. rewrite <- Hsame.
    destruct column; [contradiction |]. cbn [List.length] in *. lia.
  - subst column. reflexivity.
  - subst column. reflexivity.
  - subst column. reflexivity.
Qed.

Lemma alignment_counts_partition_witness :
  alignment_counts [Some 1; Some (-1); Some 0; Some 1; None]
  = (5, 2, 1, 2) /\
  2 = count_label (-1) [Some 1; Some (-1); Some 0; Some 1; Some (-1)].
Proof.
  split; [reflexivity |].
  pose proof (alignment_counts_partition
                [Some 1; Some (-1); Some 0; Some 1; Some (-1)]) as H.
  cbv beta iota zeta delta [alignment_counts] in H.
  destruct H as (_ & _ & _ & _ & _ & Hrows & _).
  destruct Hrows as (_ & Hminus); [discriminate |].
  rewrite <- Hminus; [reflexivity |].
  repeat constructor; cbn; tauto.
Defined.

End AnalysisFacts.

(** ** [main.py]: the identifiers the batch resolves *)

Module PersistFacts.
Import Scraper Main MainUtils Discipline Persistence CleanForm TextFacts.
Local Open Scope world_scope.

Lemma space_is_not_folded c : is_space c = true -> fold_case c = c.
Proof.
  intro H. apply in_ranges_spec in H. destruct H as (r & Hin & Hlo & Hhi).
  assert (Hc : c <= 12288 /\ ~ (65 <= c <= 90) /\ c <> 304 /\ c <> 305 /\
               c <> 383 /\ c <> 8490).
  { unfold space_ranges in Hin. cbn [In] in Hin.
    repeat (destruct Hin as [<- | Hin]; [cbn [fst snd] in *; lia |]).
    contradiction. }
  destruct Hc as (_ & Hup & H1 & H2 & H3 & H4).
  unfold fold_case.
  destruct (N.leb_spec 65 c); destruct (N.leb_spec c 90); cbn [andb];
    try lia;
    (destruct (N.eqb_spec c 304); [contradiction |]);
    (destruct (N.eqb_spec c 305); [contradiction |]);
    (destruct (N.eqb_spec c 383); [contradiction |]);
    (destruct (N.eqb_spec c 8490); [contradiction |]);
    reflexivity.
Qed.

Lemma id_char_not_space c : id_char c = true -> is_space c = false.
Proof.
  intro H. destruct (is_space c) eqn:E; [| reflexivity].
  unfold id_char in H. rewrite (space_is_not_folded c E) in H.
  unfold is_space in E.
  rewrite (ranges_disjoint_sound
             [(48, 57); (97, 122); (95, 95); (45, 45)] space_ranges c
             eq_refl H) in E.
  discriminate.
Qed.

Lemma ci_letter_not_space p c :
  is_space (fold_case p) = false -> ci_eq p c = true -> is_space c = false.
Proof.
  intros Hp H. destruct (is_space c) eqn:E; [| reflexivity].
  unfold ci_eq in H. rewrite (space_is_not_folded c E) in H.
  apply N.eqb_eq in H. rewrite H in Hp. congruence.
Qed.

Lemma no_space_clean s :
  Forall (fun c => is_space c = false) s ->
  leading_space s = false /\ trailing_space s = false.
Proof.
  induction 1 as [| c s Hc Hs [_ IH]]; [split; reflexivity |].
  split; [exact Hc |].
  destruct s as [| d s']; [exact Hc | exact IH].
Qed.

Lemma span_prefix_all p : forall s,
  Forall (fun c => p c = true) (firstn (span p s) s).
Proof.
  induction s as [| c s IH]; [constructor |].
  cbn [span]. destruct (p c) eqn:E; [| constructor].
  cbn [firstn]. constructor; assumption.
Qed.

Lemma extracted_id_clean raw g :
  leading_space raw = false -> trailing_space raw = false ->
  _try_extract_channel_id raw = Some g ->
  leading_space g = false /\ trailing_space g = false.
Proof.
  intros Hl Ht. unfold _try_extract_channel_id.
  destruct (re_search channel_url raw) as [g0 |] eqn:E.
  - intro H. injection H as <-.
    apply ScraperFacts.re_search_found in E.
    destruct E as (before & rest & _ & Hm).
    unfold channel_url in Hm.
    destruct (prefix_ci _ rest) as [r |]; [| discriminate].
    unfold prefix_ci in Hm. change (lit "UC") with [85; 67] in Hm.
    destruct r as [| a [| b r']]; cbn [prefix_with] in Hm;
      [discriminate | destruct (ci_eq 85 a); discriminate |].
    destruct (ci_eq 85 a) eqn:Ea; [| discriminate].
    destruct (ci_eq 67 b) eqn:Eb; [| discriminate].
    destruct (20 <=? span id_char r')%nat; [| discriminate].
    injection Hm as Hg.
    change (a :: b :: firstn (span id_char r') r' = g0) in Hg. subst g0.
    apply no_space_clean.
    constructor; [apply (ci_letter_not_space 85); [reflexivity | exact Ea] |].
    constructor; [apply (ci_letter_not_space 67); [reflexivity | exact Eb] |].
    eapply Forall_impl; [| apply span_prefix_all].
    intros c Hc. apply id_char_not_space. exact Hc.
  - destruct (startswith raw _ && _)%bool; [| discriminate].
    intro H. injection H as <-. split; assumption.
Qed.

Lemma found_is_clean s cid :
  strip_or_none s = Some cid ->
  truthy cid = true /\ leading_space cid = false /\ trailing_space cid = false.
Proof.
  unfold strip_or_none. destruct (truthy (strip s)) eqn:E; [| discriminate].
  intro H. injection H as <-. unfold strip. repeat split.
  - exact E.
  - apply rstrip_leading, lstrip_leading.
  - apply rstrip_trailing.
Qed.

Section WithSelf.
Variable self : YouTubeCommentScraper.

Lemma by_handle_clean handle cid w w' :
  _resolve_channel_id_from_handle self handle w = (Ok (Some cid), w') ->
  truthy cid = true /\ leading_space cid = false /\ trailing_space cid = false.
Proof.
  unfold _resolve_channel_id_from_handle.
  destruct (negb _); [discriminate |]. unfold bind.
  destruct (_execute_with_retry self _ w) as [[response | e |] w1];
    [| discriminate | discriminate].
  destruct (items response) as [| first rest]; [discriminate |].
  intro H. injection H as H _. eapply found_is_clean; eauto.
Qed.

Lemma by_search_clean query cid w w' :
  _resolve_channel_id_from_search self query w = (Ok (Some cid), w') ->
  truthy cid = true /\ leading_space cid = false /\ trailing_space cid = false.
Proof.
  unfold _resolve_channel_id_from_search, bind.
  destruct (_execute_with_retry self _ w) as [[response | e |] w1];
    [| discriminate | discriminate].
  destruct (items response) as [| first rest]; [discriminate |].
  destruct (channelId first) as [c |]; [| discriminate].
  destruct (truthy c); [| discriminate].
  intro H. injection H as H _. eapply found_is_clean; eauto.
Qed.

Lemma resolved_is_clean value cid w w' :
  resolve_channel_id self value w = (Ok cid, w') ->
  truthy cid = true /\ leading_space cid = false /\ trailing_space cid = false.
Proof.
  unfold resolve_channel_id.
  destruct (negb _); [discriminate |].
  destruct (some_truthy (_try_extract_channel_id _)) eqn:Hid.
  - intro H. injection H as <- _.
    destruct (_try_extract_channel_id _) as [g |] eqn:Hg; [| discriminate].
    cbn [some_truthy or_empty] in *. split; [exact Hid |].
    apply (extracted_id_clean _ _ (proj1 (ResolveFacts.strip_clean _))
             (proj2 (ResolveFacts.strip_clean _)) Hg).
  - unfold bind at 1.
    match goal with
    | |- context [(if ?c then ?a else ?b) w] =>
        destruct ((if c then a else b) w) as [[by_handle | e |] w1] eqn:Hh
    end; [| discriminate | discriminate].
    destruct (some_truthy by_handle) eqn:Hbh.
    + intro H. injection H as <- _.
      destruct by_handle as [c |]; [| discriminate]. cbn [or_empty].
      destruct (some_truthy (_try_extract_handle _)); [| discriminate].
      apply (by_handle_clean _ _ _ _ Hh).
    + unfold bind at 1.
      destruct (_resolve_channel_id_from_search self _ w1)
        as [[by_search | e |] w2] eqn:Hs; [| discriminate | discriminate].
      destruct (some_truthy by_search) eqn:Hbs; [| discriminate].
      intro H. injection H as <- _.
      destruct by_search as [c |]; [| discriminate]. cbn [or_empty].
      apply (by_search_clean _ _ _ _ Hs).
Qed.
End WithSelf.

Section Batch.
Variable lower : text -> text.
Variable sha256_hexdigest : text -> text.
Variable self : YouTubeCommentScraper.
Variable fuel : nat.
Variable per_video : Z.
Variable max_videos : option Z.

Local Abbreviation run := (_run_for_channel lower sha256_hexdigest self fuel).
Local Abbreviation process :=
  (process_channel lower sha256_hexdigest self fuel per_video max_videos).
Local Abbreviation batch :=
  (batch_loop lower sha256_hexdigest self fuel per_video max_videos).

Lemma process_channel_completes ch w d upd w' :
  process ch w = (Ok (d, upd), w') ->
  completes ch d /\ upd = negb (has_id ch).
Proof.
  unfold process_channel, completes, has_id. unfold bind at 1.
  destruct (truthy (strip (channel_id ch))) eqn:E; cbn [negb].
  - unfold ret at 1. cbv beta iota. unfold bind.
    destruct (run _ _ _ _ _ w) as [[u | e |] w1];
      [| discriminate | discriminate].
    unfold ret. intro H. injection H as <- <- _.
    repeat split; try reflexivity; discriminate.
  - unfold bind at 1. unfold try_exception.
    destruct (resolve_channel_id self _ w) as [[cid | e |] w1] eqn:Hres.
    + unfold ret at 1. cbv beta iota. unfold bind.
      destruct (run _ _ _ _ _ w1) as [[u | e |] w2];
        [| discriminate | discriminate].
      unfold ret. intro H. injection H as <- <- _.
      apply resolved_is_clean in Hres. cbn [name channel_id].
      repeat split; try reflexivity; try discriminate; apply Hres.
    + destruct e; discriminate.
    + discriminate.
Qed.

Lemma batch_loop_completes : forall channels updated w done upd w',
  batch channels updated w = (Ok (done, upd), w') ->
  Forall2 completes channels done /\
  upd = (updated || negb (forallb has_id channels))%bool.
Proof.
  induction channels as [| ch rest IH]; intros updated w done upd w' H.
  - cbn in H. injection H as <- <- _. split; [constructor |].
    cbn. rewrite orb_false_r. reflexivity.
  - cbn [batch_loop] in H. unfold bind at 1 in H.
    destruct (process ch w) as [[[d u] | e |] w1] eqn:Hp;
      [| discriminate | discriminate].
    unfold bind at 1 in H.
    destruct (batch rest _ w1) as [[[t u'] | e |] w2] eqn:Hb;
      [| discriminate | discriminate].
    injection H as <- <- _. cbn [fst snd].
    apply process_channel_completes in Hp. destruct Hp as [Hc ->].
    apply IH in Hb. destruct Hb as [Hrest ->].
    split; [constructor; assumption |].
    cbn [forallb]. destruct updated, (has_id ch), (forallb has_id rest);
      reflexivity.
Qed.

Section WithPredicate.
Variable P : event -> Prop.
Hypothesis courteous : polite self P.
Hypothesis fetches :
  (forall c, P (Execute (ChannelsListById c))) /\
  (forall playlist page_token,
     P (Execute (PlaylistItemsList playlist 50 page_token))) /\
  (forall v, P (Execute (VideosList v))) /\
  (forall v size page_token, P (Execute (CommentThreadsList v size page_token))).
Hypothesis exported : forall n rows, P (Export n rows).

Lemma only_run_for_channel channel_name channel_id video_ids_arg :
  only P (run channel_name channel_id video_ids_arg per_video max_videos).
Proof.
  destruct fetches as (Hc & Hp & Hv & Ht).
  unfold _run_for_channel.
  apply DisciplineFacts.only_bind.
  - destruct (some_truthy channel_id);
      [| apply DisciplineFacts.only_ret].
    apply (DisciplineFacts.only_fetch_video_ids self P courteous);
      [apply Hc | apply Hp].
  - intros [| v ids]; [apply DisciplineFacts.only_raise |].
    apply DisciplineFacts.only_bind.
    + apply (DisciplineFacts.only_fetch_comments self P courteous).
      intros v' _. split; [apply Hv | intros; apply Ht].
    + intros [| r records]; [apply DisciplineFacts.only_raise |].
      intro w. exists [Export channel_name (map (to_row lower) (r :: records))].
      split; [reflexivity | repeat constructor; apply exported].
Qed.

Lemma only_process_channel ch :
  (has_id ch = false -> forall r, P (Execute r)) ->
  only P (process ch).
Proof.
  intro Hres. unfold process_channel. fold (has_id ch).
  apply DisciplineFacts.only_bind.
  - destruct (has_id ch); cbn [negb];
      [apply DisciplineFacts.only_ret |].
    apply DisciplineFacts.only_bind;
      [| intro; apply DisciplineFacts.only_ret].
    apply DisciplineFacts.only_try_exception;
      [| intro; apply DisciplineFacts.only_raise].
    apply (DisciplineFacts.only_resolve self P courteous).
    apply Hres. reflexivity.
  - intros [[cid ch'] upd].
    apply DisciplineFacts.only_bind;
      [apply only_run_for_channel
      | intro; apply DisciplineFacts.only_ret].
Qed.

Lemma only_batch_loop : forall channels updated,
  (forallb has_id channels = false -> forall r, P (Execute r)) ->
  only P (batch channels updated).
Proof.
  induction channels as [| ch rest IH]; intros updated Hres;
    cbn [batch_loop]; [apply DisciplineFacts.only_ret |].
  cbn [forallb] in Hres.
  apply DisciplineFacts.only_bind.
  - apply only_process_channel. intro E. apply Hres. rewrite E. reflexivity.
  - intro d. apply DisciplineFacts.only_bind;
      [| intro; apply DisciplineFacts.only_ret].
    apply IH. intro E. apply Hres. rewrite E. apply andb_false_r.
Qed.
End WithPredicate.

Lemma writes_app t1 t2 : writes (t1 ++ t2) = writes t1 ++ writes t2.
Proof. unfold writes. apply flat_map_app. Qed.

Lemma adds_not_written w w' :
  adds not_written w w' -> writes (trace w') = writes (trace w).
Proof.
  intros (added & -> & Hadded). rewrite writes_app.
  assert (writes added = []) as ->; [| apply app_nil_r].
  induction Hadded as [| e added He _ IH]; [reflexivity |].
  destruct e; try contradiction; exact IH.
Qed.

Lemma completes_loadable c d :
  loadable c -> completes c d ->
  loadable d /\ truthy (channel_id d) = true /\
  (truthy (channel_id c) = true -> d = c).
Proof.
  intros (Ht & Hn & Hc) (Hname & Hsame & Hnew).
  unfold has_id in *. rewrite Hc in *.
  destruct (truthy (channel_id c)) eqn:E.
  - rewrite (Hsame eq_refl). repeat split; auto.
  - destruct (Hnew eq_refl) as (Hd & Hl & Hr).
    unfold loadable. rewrite Hname.
    repeat split; auto; try discriminate.
    apply MainUtilsFacts.strip_fixed; assumption.
Qed.

(** X24: when the [--all] run over loaded channels ends without an
    exception, each channel that had an identifier is left as it was, each
    other one has got an identifier that is not empty and has no whitespace
    at either end, under the same name; the channels file is written once,
    with all of them, exactly when an identifier was missing; and loading
    what was written gives these channels back, now all with an
    identifier. *)
Theorem resolved_ids_are_persisted (channels : list channel) (w w' : world) :
  Forall loadable channels ->
  main_all lower sha256_hexdigest self fuel per_video max_videos channels w
  = (Ok tt, w') ->
  exists done,
    map name done = map name channels /\
    Forall2 (fun c d => truthy (channel_id c) = true -> d = c) channels done /\
    Forall loadable done /\
    forallb has_id done = true /\
    writes (trace w')
    = writes (trace w)
      ++ (if forallb has_id channels then [] else [map entry done]) /\
    (channels <> [] -> _load_channels (Some (written done)) = Ok done).
Proof.
  intros Hload. unfold main_all. unfold bind.
  pose proof (only_batch_loop not_written (conj I (fun _ _ => I))
                (conj (fun _ => I) (conj (fun _ _ => I)
                   (conj (fun _ => I) (fun _ _ _ => I))))
                (fun _ _ => I) channels false (fun _ _ => I) w) as Hw.
  destruct (batch channels false w) as [[[done upd] | e |] w1] eqn:Hb;
    [| discriminate | discriminate].
  cbn [snd] in Hw. apply adds_not_written in Hw.
  apply batch_loop_completes in Hb. destruct Hb as [Hdone ->].
  cbn [fst snd orb]. intro H. exists done.
  assert (Hall : map name done = map name channels /\
                 Forall2 (fun c d => truthy (channel_id c) = true -> d = c)
                         channels done /\
                 Forall loadable done /\ forallb has_id done = true).
  { clear H Hw. induction Hdone as [| c d cs ds Hcd _ IH];
      [repeat split; constructor |].
    inversion Hload as [| ? ? Hc Hcs]; subst.
    destruct (IH Hcs) as (Hn & Hk & Hl & Hi).
    destruct (completes_loadable c d Hc Hcd) as (Hld & Htd & Hsame).
    destruct Hcd as (Hname & _).
    repeat split.
    - cbn [map]. rewrite Hname, Hn. reflexivity.
    - constructor; assumption.
    - constructor; assumption.
    - cbn [forallb]. rewrite Hi. unfold has_id.
      destruct Hld as (_ & _ & ->). rewrite Htd. reflexivity. }
  destruct Hall as (Hn & Hk & Hl & Hi).
  repeat split; try assumption.
  - destruct (forallb has_id channels); cbn [negb] in *.
    + unfold ret in H. injection H as <-. rewrite Hw. symmetry. apply app_nil_r.
    + unfold emit, log in H. injection H as <-. cbn [trace].
      rewrite writes_app, Hw. reflexivity.
  - intro Hne. unfold _load_channels, written.
    fold (map (fun c => JDict (Some (JStr (name c)))
                             (Some (JStr (channel_id c)))) done).
    rewrite (MainUtilsFacts.written_normalizes done Hl).
    destruct done as [| d ds]; [| reflexivity].
    inversion Hdone; subst. contradiction.
Qed.

(** X25: a batch whose channels all have an identifier looks none up, by
    handle or by search, and does not write the channels file, however the
    run ends. *)
Theorem known_ids_need_no_lookup (channels : list channel) :
  forallb has_id channels = true ->
  only lookup_free
       (main_all lower sha256_hexdigest self fuel per_video max_videos
                 channels).
Proof.
  intros Hids w. unfold main_all, bind.
  pose proof (only_batch_loop lookup_free (conj I (fun _ _ => I))
                (conj (fun _ => I) (conj (fun _ _ => I)
                   (conj (fun _ => I) (fun _ _ _ => I))))
                (fun _ _ => I) channels false) as Hb.
  rewrite Hids in Hb. specialize (Hb (fun E => False_ind _ (diff_true_false E)) w).
  destruct (batch channels false w) as [[[done upd] | e |] w1] eqn:Hrun;
    cbn [snd] in *; try exact Hb.
  apply batch_loop_completes in Hrun. destruct Hrun as [_ ->].
  rewrite Hids. cbn [orb negb]. exact Hb.
Qed.
End Batch.

Lemma resolved_ids_are_persisted_witness :
  let named := {| name := lit "UCabcdefghijklmnopqrst"; channel_id := [] |} in
  let known := {| name := lit "UCabcdefghijklmnopqrst";
                  channel_id := lit "UCabcdefghijklmnopqrst" |} in
  exists w' done,
    main_all Cleaning.ascii_lower Fixtures.digest Fixtures.service 5 100
             None [named; Fixtures.fine] Collaborator.fresh
    = (Ok tt, w') /\
    writes (trace w') = [map entry [known; Fixtures.fine]] /\
    map name done = map name [named; Fixtures.fine] /\
    forallb has_id done = true.
Proof.
  intros named known. eexists.
  match goal with
  | |- exists done, ?run = (Ok tt, ?w1) /\ _ =>
      assert (Hrun : run = (Ok tt, w1)) by (vm_compute; reflexivity)
  end.
  assert (Hload : Forall loadable [named; Fixtures.fine])
    by (repeat constructor).
  match type of Hrun with
  | _ = (_, ?w1) =>
      destruct (resolved_ids_are_persisted Cleaning.ascii_lower
                  Fixtures.digest Fixtures.service 5%nat 100%Z None
                  [named; Fixtures.fine] Collaborator.fresh w1 Hload Hrun)
        as (done & Hn & _ & _ & Hi & _)
  end.
  exists done.
  split; [exact Hrun |]. split; [vm_compute; reflexivity |].
  split; [exact Hn | exact Hi].
Defined.

Lemma known_ids_need_no_lookup_witness :
  only lookup_free
       (main_all Cleaning.ascii_lower Fixtures.digest Fixtures.service 5 100
                 None [Fixtures.fine; Fixtures.gone]).
Proof.
  apply known_ids_need_no_lookup. reflexivity.
Defined.

End PersistFacts.
